(** * nokotan: command dispatch, history ledger and presence state

    A shallow embedding of the dispatch core of the bot
    ([core/commands.py], [core/sql.py], [core/xmpp.py], and the loading
    of the configuration in [core/config.py]) and the properties
    of its specification that concern cooldowns, command suggestion,
    the chat-history ledger, the user-state mirror and the plugin fan-out.

    Conventions of the embedding.
    - A Python [str] is a [string]; [None] is the [None] of an [option].
    - A Python [dict] is a [gmap] where only lookups matter and an
      association list where the iteration order is observable.
    - [time.time()] is a rational number of seconds ([Q]); the clock is read
      once per modelled call and passed in as [now].
    - Awaited callables that the core does not define (command handlers,
      plugin handlers) are represented by their [outcome].
    - Functions that can raise return a [result]; state mutated before the
      exception is kept, as Python keeps it. *)

From Stdlib Require Import Ascii QArith Qround Lqa.
From Stdlib Require String.
From stdpp Require Import gmap strings list pretty.

Local Open Scope Z_scope.
Local Open Scope nat_scope.

(** ** Python values and strings *)

Module Py.

(** What a call of Python code can do: return a value or raise. *)
Inductive result (A : Type) : Type :=
| Ok (a : A)
| Raise (exn : string).
Arguments Ok {A} a.
Arguments Raise {A} exn.

(** The outcome of awaiting an opaque handler. *)
Inductive outcome : Type :=
| Returned
| Raised (exn : string).

(** Values handed to [str(...)] before they are stored. *)
Inductive pyval : Type :=
| PNone
| PStr (s : string)
| PInt (z : Z).

Definition str (v : pyval) : string :=
  match v with
  | PNone => "None"
  | PStr s => s
  | PInt z => pretty z
  end.

(** Truthiness: [None], [""] and [0] are false. *)
Definition truthy (v : pyval) : bool :=
  match v with
  | PNone => false
  | PStr s => negb (String.eqb s "")
  | PInt z => negb (Z.eqb z 0)
  end.

Definition truthy_str (s : string) : bool := negb (String.eqb s "").

Definition truthy_ostr (o : option string) : bool :=
  match o with
  | None => false
  | Some s => truthy_str s
  end.

(** [a or b] on optional strings. *)
Definition or_ostr (a b : option string) : option string :=
  if truthy_ostr a then a else b.

(** [f"{x}"] of an optional string. *)
Definition fmt (o : option string) : string :=
  match o with
  | None => "None"
  | Some s => s
  end.

(** [int(x)] of a float: truncation towards zero. *)
Definition int (q : Q) : Z := Z.quot (Qnum q) (Zpos (Qden q)).

Definition Qltb (a b : Q) : bool := negb (Qle_bool b a).

(** [str.isspace] on the characters the model has. *)
Definition is_space (c : ascii) : bool :=
  let n := nat_of_ascii c in
  ((9 <=? n) && (n <=? 13)) || ((28 <=? n) && (n <=? 32)).

Definition lower_char (c : ascii) : ascii :=
  let n := nat_of_ascii c in
  if (65 <=? n) && (n <=? 90) then ascii_of_nat (n + 32) else c.

Fixpoint drop_spaces (l : list ascii) : list ascii :=
  match l with
  | c :: l' => if is_space c then drop_spaces l' else l
  | [] => []
  end.

(** [s.strip()] *)
Definition strip (s : string) : string :=
  String.string_of_list_ascii
    (rev (drop_spaces (rev (drop_spaces (String.list_ascii_of_string s))))).

(** [s.lower()] *)
Definition lower (s : string) : string :=
  String.string_of_list_ascii (map lower_char (String.list_ascii_of_string s)).

(** [s.split()]: maximal runs of characters that are not white space. *)
Fixpoint split_go (cur : list ascii) (l : list ascii) : list string :=
  match l with
  | [] =>
      match cur with
      | [] => []
      | _ => [String.string_of_list_ascii (rev cur)]
      end
  | c :: l' =>
      if is_space c then
        match cur with
        | [] => split_go [] l'
        | _ => String.string_of_list_ascii (rev cur) :: split_go [] l'
        end
      else split_go (c :: cur) l'
  end.

Definition split (s : string) : list string :=
  split_go [] (String.list_ascii_of_string s).

(** [s.split(sep)] for a one-character separator. *)
Fixpoint split_on_go (sep : ascii) (cur : list ascii) (l : list ascii)
  : list string :=
  match l with
  | [] => [String.string_of_list_ascii (rev cur)]
  | c :: l' =>
      if Ascii.eqb c sep
      then String.string_of_list_ascii (rev cur) :: split_on_go sep [] l'
      else split_on_go sep (c :: cur) l'
  end.

Definition split_on (sep : ascii) (s : string) : list string :=
  split_on_go sep [] (String.list_ascii_of_string s).

(** [s.split(sep, 1)]: at most one split. *)
Fixpoint split_once_go (sep : ascii) (cur : list ascii) (l : list ascii)
  : list string :=
  match l with
  | [] => [String.string_of_list_ascii (rev cur)]
  | c :: l' =>
      if Ascii.eqb c sep
      then [String.string_of_list_ascii (rev cur); String.string_of_list_ascii l']
      else split_once_go sep (c :: cur) l'
  end.

Definition split_once (sep : ascii) (s : string) : list string :=
  split_once_go sep [] (String.list_ascii_of_string s).

(** [s[n:]] *)
Definition slice_from (n : nat) (s : string) : string :=
  String.string_of_list_ascii (drop n (String.list_ascii_of_string s)).

(** [s.startswith(p)] *)
Definition startswith (s p : string) : bool := String.prefix p s.

(** [x in l] for a list of strings. *)
Definition mem (x : string) (l : list string) : bool :=
  existsb (String.eqb x) l.

(** [enumerate(l)] *)
Definition enumerate {A} (l : list A) : list (nat * A) :=
  combine (seq 0 (length l)) l.

(** [sep.join(l)] *)
Fixpoint join_with (sep : string) (l : list string) : string :=
  match l with
  | [] => ""
  | [a] => a
  | a :: l' => a +:+ sep +:+ join_with sep l'
  end.

(** [s[:n]] for [n] that is not negative *)
Definition slice_to (n : nat) (s : string) : string :=
  String.string_of_list_ascii (take n (String.list_ascii_of_string s)).

(** [s[a:b]] for [0 <= a <= b] *)
Definition slice (a b : nat) (s : string) : string :=
  String.string_of_list_ascii
    (take (b - a) (drop a (String.list_ascii_of_string s))).

End Py.

Export Py.

(** ** Shared data: messages, per-room options, the transport *)

Module Model.

(** The fields of a message stanza that the core reads.  For a room
    message [msg['mucroom']] is [msg['from'].bare] and [msg['mucnick']]
    is [msg['from'].resource]. *)
Record message : Type := {
  from_bare : string;
  from_resource : string;
  mtype : string;
  body : string;
  id : string;
  stanza_id : option string;
  replace_id : option string;
  oob_url : option string;
  reply_id : option string;
  encrypted : bool
}.

Definition mucroom (m : message) : string := from_bare m.
Definition mucnick (m : message) : string := from_resource m.

(** The options of one room ([config["mucs"][room]]), by key. *)
Record muc_config : Type := {
  strs : gmap string string;
  lists : gmap string (list string);
  flags : gmap string bool
}.

(** [mucs.get(muc, {}).get(key)] for a list-valued option. *)
Definition muc_list (mucs : gmap string muc_config) (muc key : string)
  : option (list string) :=
  match mucs !! muc with
  | Some c => lists c !! key
  | None => None
  end.

Definition muc_str (mucs : gmap string muc_config) (muc key : string)
  : option string :=
  match mucs !! muc with
  | Some c => strs c !! key
  | None => None
  end.

Definition muc_flag (mucs : gmap string muc_config) (muc key : string)
  : option bool :=
  match mucs !! muc with
  | Some c => flags c !! key
  | None => None
  end.

(** What the core reads from the bot object and from the transport. *)
Record env : Type := {
  bot_nick : string;
  boundjid_bare : string;
  admins : list string;
  mucs : gmap string muc_config;
  ignored : list string;
  default_prefix : string;
  default_command_cooldown : Q;
  roster : string -> list string;
  jid_property : string -> string -> option string
}.

(** [Bot.get_jid_from_nick]: every failure ends in [None]. *)
Definition get_jid_from_nick (e : env) (muc nick : string) : option string :=
  if mem nick (roster e muc) then
    match jid_property e muc nick with
    | Some jid_with_client => head (split_on "/" jid_with_client)
    | None => None
    end
  else None.

(** The parameter bundle of a command handler. *)
Record command_params : Type := {
  p_msg : message;
  p_muc : option string;
  p_nick : option string;
  p_jid : option string;
  p_quote : option string
}.

(** Observable actions: a call of [bot.send_message_processed], the
    await of the handler of a command, the await of a handler of a plugin,
    a request to the transport to join a room, and the log records at
    warning and error
    level (those below are left out). *)
Inductive event : Type :=
| SendMessage (mto : option string) (mbody : string) (mtype : string)
| CallFunction (command : string) (p : command_params)
| CallPlugin (plugin : string) (method : string)
| JoinMuc (muc : string) (nick : option string)
| LogWarning (text : string)
| LogError (text : string).

(** A Python [dict] whose iteration order matters. *)
Fixpoint dict_set {K V} `{EqDecision K} (k : K) (v : V) (d : list (K * V))
  : list (K * V) :=
  match d with
  | [] => [(k, v)]
  | (k', v') :: d' =>
      if decide (k = k') then (k, v) :: d' else (k', v') :: dict_set k v d'
  end.

Fixpoint dict_get {K V} `{EqDecision K} (k : K) (d : list (K * V))
  : option V :=
  match d with
  | [] => None
  | (k', v') :: d' => if decide (k = k') then Some v' else dict_get k d'
  end.

End Model.

Export Model.

(** ** core/commands.py *)

Module Commands.

Record Command : Type := {
  name : string;
  plugin : string;
  function : command_params -> outcome;
  category : option string;
  aliases : list string;
  cooldown : Q;
  hidden : bool;
  admin : bool;
  last_used : gmap (option string) Q
}.

(** [Command] objects live in [heap]; [commands] and [categories] hold
    references (indices) to them, so that one object can be reached from
    both, as in the source. *)
Record CommandHandler : Type := {
  heap : list Command;
  commands : list (string * nat);
  categories : gmap string (list nat);
  show_command_suggestion : bool;
  run_command_suggestion : bool
}.

Definition with_heap (h : CommandHandler) (hp : list Command)
  : CommandHandler :=
  {| heap := hp; commands := commands h; categories := categories h;
     show_command_suggestion := show_command_suggestion h;
     run_command_suggestion := run_command_suggestion h |}.

Definition set_last_used (c : Command) (user : option string) (t : Q)
  : Command :=
  {| name := name c; plugin := plugin c; function := function c;
     category := category c; aliases := aliases c; cooldown := cooldown c;
     hidden := hidden c; admin := admin c;
     last_used := <[user := t]> (last_used c) |}.

(** [CommandHandler.__init__] *)
Definition init (show run : bool) : CommandHandler :=
  {| heap := []; commands := []; categories := ∅;
     show_command_suggestion := show; run_command_suggestion := run |}.

(** [Command.__init__] followed by [self.commands[name] = cmd]
    ([CommandHandler.register_command]).  [cooldown or default]: a
    missing or zero cooldown takes the default. *)
Definition register_command (e : env) (h : CommandHandler)
    (name : string) (plugin : string) (function : command_params -> outcome)
    (category : option string) (aliases : option (list string))
    (cooldown : option Q) (hidden admin : bool) : CommandHandler :=
  let cd :=
    match cooldown with
    | Some q => if Qeq_bool q 0 then default_command_cooldown e else q
    | None => default_command_cooldown e
    end in
  let cmd :=
    {| Commands.name := name; Commands.plugin := plugin;
       Commands.function := function; Commands.category := category;
       Commands.aliases := default [] aliases; Commands.cooldown := cd;
       Commands.hidden := hidden; Commands.admin := admin;
       last_used := ∅ |} in
  let ref := length (heap h) in
  let cats :=
    match category with
    | Some k =>
        if truthy_str k
        then <[k := default [] (categories h !! k) ++ [ref]]> (categories h)
        else categories h
    | None => categories h
    end in
  {| heap := heap h ++ [cmd];
     commands := dict_set name ref (commands h);
     categories := cats;
     show_command_suggestion := show_command_suggestion h;
     run_command_suggestion := run_command_suggestion h |}.

(** [f"{muc}/{nick}" if muc else jid] *)
Definition user_key (muc nick jid : option string) : option string :=
  if truthy_ostr muc then Some (fmt muc +:+ "/" +:+ fmt nick) else jid.

Definition category_truthy (c : Command) : option string :=
  match category c with
  | Some k => if truthy_str k then Some k else None
  | None => None
  end.

(** One round of the loop over the commands of the category. *)
Definition category_step (hp : list Command) (user : option string)
    (acc : bool * Q) (ref : nat) : bool * Q :=
  let '(category_cooldown, last_used_time) := acc in
  match hp !! ref with
  | Some command =>
      let last_used_in_category := default 0%Q (last_used command !! user) in
      if negb (Qeq_bool last_used_in_category 0)
         && Qltb last_used_time last_used_in_category
      then (true, last_used_in_category)
      else (category_cooldown, last_used_time)
  | None => acc
  end.

(** The effective last-used time and whether a category member set it. *)
Definition effective_last_used (h : CommandHandler) (c : Command)
    (user : option string) : bool * Q :=
  let last_used_time := default 0%Q (last_used c !! user) in
  match category_truthy c with
  | Some k =>
      fold_left (category_step (heap h) user)
                (default [] (categories h !! k)) (false, last_used_time)
  | None => (false, last_used_time)
  end.

Definition cooldown_body (c : Command) (remaining : Z) (command_name : string)
    (category_cooldown : bool) : string :=
  if category_cooldown then
    "Commands of category '" +:+ fmt (category c) +:+
    "' are on cooldown. Try again in " +:+ pretty (remaining + 1)%Z +:+
    " second(s)."
  else
    "Command '" +:+ command_name +:+
    "' is on cooldown. Try again in " +:+ pretty (remaining + 1)%Z +:+
    " second(s).".

(** [Command.cooldown_message] *)
Definition cooldown_message (c : Command) (remaining : Z)
    (command_name : string) (user : option string)
    (category_cooldown : bool) : list event :=
  [SendMessage user (cooldown_body c remaining command_name category_cooldown)
     "chat"].

Definition of_outcome (o : outcome) : result unit :=
  match o with
  | Returned => Ok tt
  | Raised exn => Raise exn
  end.

(** [Command.call] on the object [ref]. *)
Definition call (h : CommandHandler) (ref : nat) (p : command_params)
    (now : Q) : CommandHandler * list event * result unit :=
  match heap h !! ref with
  | None => (h, [], Raise "ReferenceError")
  | Some self =>
      let user := user_key (p_muc p) (p_nick p) (p_jid p) in
      let current_time := now in
      let '(category_cooldown, last_used_time) :=
        effective_last_used h self user in
      if Qltb (current_time - last_used_time) (cooldown self) then
        (h,
         cooldown_message self
           (int (cooldown self - (current_time - last_used_time)))
           (name self) user category_cooldown,
         Ok tt)
      else
        (with_heap h (<[ref := set_last_used self user current_time]> (heap h)),
         [CallFunction (name self) p],
         of_outcome (function self p))
  end.

(** [CommandHandler.levenshtein_distance]: the two-row table. *)
Definition inner_step (c1 : ascii) (previous_row : list nat)
    (current_row : list nat) (jc : nat * ascii) : list nat :=
  let '(j, c2) := jc in
  let insertions := nth (j + 1) previous_row 0 + 1 in
  let deletions := nth j current_row 0 + 1 in
  let substitutions :=
    nth j previous_row 0 + (if Ascii.eqb c1 c2 then 0 else 1) in
  current_row ++ [Nat.min (Nat.min insertions deletions) substitutions].

Definition outer_step (s2 : list ascii) (previous_row : list nat)
    (ic : nat * ascii) : list nat :=
  let '(i, c1) := ic in
  fold_left (inner_step c1 previous_row) (enumerate s2) [i + 1].

Definition levenshtein_rows (s1 s2 : list ascii) : list nat :=
  fold_left (outer_step s2) (enumerate s1) (seq 0 (length s2 + 1)).

Definition levenshtein_chars (s1 s2 : list ascii) : nat :=
  let '(s1, s2) :=
    if length s1 <? length s2 then (s2, s1) else (s1, s2) in
  if length s2 =? 0 then length s1
  else List.last (levenshtein_rows s1 s2) 0.

Definition levenshtein_distance (s1 s2 : string) : nat :=
  levenshtein_chars (String.list_ascii_of_string s1)
                    (String.list_ascii_of_string s2).

(** [(is_admin_cmd and is_admin) or not is_admin_cmd] *)
Definition permitted (is_admin_cmd is_admin : bool) : bool :=
  (is_admin_cmd && is_admin) || negb is_admin_cmd.

Definition is_admin_jid (e : env) (jid : option string) : bool :=
  match jid with
  | Some j => mem j (admins e)
  | None => false
  end.

(** One round of the loop over [self.commands]; [None] is
    [float('inf')]. *)
Definition suggest_step (hp : list Command) (is_admin : bool)
    (cmd_name : string) (acc : option string * option nat)
    (entry : string * nat) : option string * option nat :=
  let '(best_suggestion, min_distance) := acc in
  let '(suggested_command, ref) := entry in
  match hp !! ref with
  | Some c =>
      if permitted (admin c) is_admin then
        let distance := levenshtein_distance cmd_name suggested_command in
        if match min_distance with
           | Some m => distance <? m
           | None => true
           end
        then (Some suggested_command, Some distance)
        else acc
      else acc
  | None => acc
  end.

Definition best_match (e : env) (h : CommandHandler) (cmd_name : string)
    (jid : option string) : option string * option nat :=
  fold_left (suggest_step (heap h) (is_admin_jid e jid) cmd_name)
            (commands h) (None, None).

Definition suggestion_body (cmd_name : string) (best : option string)
  : string :=
  "'" +:+ cmd_name +:+ "' is not a valid command, did you mean '" +:+
  fmt best +:+ "'?".

(** [CommandHandler._send_suggested_command] *)
Definition _send_suggested_command (e : env) (h : CommandHandler)
    (cmd_name : string) (muc nick jid : option string)
  : option string * list event :=
  if 15 <? String.length cmd_name then (None, [])
  else if String.length cmd_name <? 5 then (None, [])
  else
    let user := user_key muc nick jid in
    let '(best_suggestion, min_distance) := best_match e h cmd_name jid in
    if match min_distance with
       | Some m => (String.length cmd_name <=? m) || (2 <? m)
       | None => true
       end
    then (None, [])
    else if run_command_suggestion h then (best_suggestion, [])
    else
      (None,
       [SendMessage user (suggestion_body cmd_name best_suggestion) "chat"]).

(** The alias loop: a later command can rename the result of an earlier
    one. *)
Definition alias_step (hp : list Command) (cmd_name : string)
    (entry : string * nat) : string :=
  match hp !! entry.2 with
  | Some command => if mem cmd_name (aliases command) then name command
                    else cmd_name
  | None => cmd_name
  end.

Definition resolve_alias (h : CommandHandler) (cmd_name : string) : string :=
  fold_left (alias_step (heap h)) (commands h) cmd_name.

(** The room checks of [_handle_command]: [true] when the command may
    not run in [muc]. *)
Definition muc_blocks (e : env) (muc : string) (cmd_name plugin : string)
  : bool :=
  let disabled_plugins := default [] (muc_list (mucs e) muc "disabled_plugins") in
  let whitelist_plugins := muc_list (mucs e) muc "whitelist_plugins" in
  let disabled_commands := default [] (muc_list (mucs e) muc "disabled_commands") in
  if mem cmd_name disabled_commands then true
  else if mem plugin disabled_plugins then true
  else match whitelist_plugins with
       | Some wl => negb (mem plugin wl)
       | None => false
       end.

(** The part of [_handle_command] after the name is known to be
    registered. *)
Definition run_resolved (e : env) (h : CommandHandler) (msg : message)
    (cmd_name : string) (muc nick jid quote : option string) (now : Q)
  : CommandHandler * list event * result bool :=
  match dict_get cmd_name (commands h) with
  | None => (h, [], Raise "KeyError")
  | Some ref =>
      match heap h !! ref with
      | None => (h, [], Raise "ReferenceError")
      | Some c =>
          if match muc with
             | Some m => truthy_str m && muc_blocks e m cmd_name (plugin c)
             | None => false
             end
          then (h, [], Ok false)
          else
            let is_admin := is_admin_jid e jid in
            let is_admin_cmd := admin c in
            if permitted is_admin_cmd is_admin then
              let command_params :=
                {| p_msg := msg; p_muc := muc; p_nick := nick;
                   p_jid := jid; p_quote := quote |} in
              match call h ref command_params now with
              | (h', evs, Ok _) => (h', evs, Ok true)
              | (h', evs, Raise exn) => (h', evs, Raise exn)
              end
            else (h, [], Ok false)
      end
  end.

(** [CommandHandler._handle_command] *)
Definition _handle_command (e : env) (h : CommandHandler) (msg : message)
    (prefix : string) (muc nick jid quote : option string) (now : Q)
  : CommandHandler * list event * result bool :=
  let jid :=
    if negb (truthy_ostr jid) && truthy_ostr muc && truthy_ostr nick
    then get_jid_from_nick e (fmt muc) (fmt nick)
    else jid in
  let body := lower (strip (Model.body msg)) in
  if negb (startswith body prefix)
     || (String.length body <=? String.length prefix)
  then (h, [], Ok false)
  else
    match split (slice_from (String.length prefix) body) with
    | [] => (h, [], Raise "IndexError")
    | cmd_name :: _ =>
        let cmd_name := resolve_alias h cmd_name in
        match dict_get cmd_name (commands h) with
        | Some _ => run_resolved e h msg cmd_name muc nick jid quote now
        | None =>
            if show_command_suggestion h then
              match _send_suggested_command e h cmd_name muc nick jid with
              | (None, evs) => (h, evs, Ok false)
              | (Some cmd_name, evs) =>
                  match run_resolved e h msg cmd_name muc nick jid quote now with
                  | (h', evs', r) => (h', evs ++ evs', r)
                  end
              end
            else (h, [], Ok false)
        end
    end.

Definition room_prefix (e : env) (muc : string) : string :=
  default (default_prefix e) (muc_str (mucs e) muc "command_prefix").

(** [CommandHandler.handle_groupchat_message] *)
Definition handle_groupchat_message (e : env) (h : CommandHandler)
    (msg : message) (quote : option string) (now : Q)
  : CommandHandler * list event * result bool :=
  let muc := from_bare msg in
  let nick := from_resource msg in
  _handle_command e h msg (room_prefix e muc) (Some muc) (Some nick) None
                  quote now.

(** [CommandHandler.handle_private_message] *)
Definition handle_private_message (e : env) (h : CommandHandler)
    (msg : message) (now : Q)
  : CommandHandler * list event * result bool :=
  let jid := from_bare msg in
  _handle_command e h msg (default_prefix e) None None (Some jid) None now.

(** [CommandHandler.handle_whisper] *)
Definition handle_whisper (e : env) (h : CommandHandler)
    (msg : message) (now : Q)
  : CommandHandler * list event * result bool :=
  let muc := from_bare msg in
  let nick := from_resource msg in
  _handle_command e h msg (room_prefix e muc) (Some muc) (Some nick) None
                  None now.

End Commands.
(** ** core/sql.py *)

Module SQLHandler.

(** One table per plugin name; a row is [(key, field) -> value] with
    [(key, field)] the primary key and the value stored as text.  Every
    operation creates the table when it is missing, so a missing table
    reads as an empty one. *)
Abbreviation table := (gmap (string * string) string).
Abbreviation db := (gmap string (gmap (string * string) string)).

Definition by_key (t : table) : gmap string (gmap string string) :=
  map_curry (M1 := gmap string) (M2 := gmap string) t.

Definition table_of (d : db) (plugin_name : string) : table :=
  default ∅ (d !! plugin_name).

(** [INSERT OR REPLACE] of [str(value)] *)
Definition set (d : db) (plugin_name key field : string) (value : pyval)
  : db :=
  <[plugin_name := <[(key, field) := str value]> (table_of d plugin_name)]> d.

Definition get (d : db) (plugin_name key field : string) : option string :=
  table_of d plugin_name !! (key, field).

Definition get_all_fields (d : db) (plugin_name key : string)
  : gmap string string :=
  default ∅ (by_key (table_of d plugin_name) !! key).

Definition get_all_keys (d : db) (plugin_name : string)
  : gmap string (gmap string string) :=
  by_key (table_of d plugin_name).

Definition delete (d : db) (plugin_name key : string)
    (field : option string) : db :=
  if truthy_ostr field then
    <[plugin_name := base.delete (key, fmt field) (table_of d plugin_name)]> d
  else
    <[plugin_name :=
        filter (λ kv : string * string * string, kv.1.1 ≠ key)
               (table_of d plugin_name)]> d.

(** [delete_all_keys] *)
Definition delete_all_keys (d : db) (plugin_name : string) : db :=
  <[plugin_name := ∅]> d.

End SQLHandler.

(** ** core/xmpp.py *)

Module Bot.

Import SQLHandler.

(** A plugin object: the module name it was loaded from, the attributes
    [hasattr] finds, and what awaiting one of its handlers does. *)
Record Plugin : Type := {
  plugin_name : string;
  attrs : list string;
  run : string -> outcome
}.

(** An entry of [user_states[muc]]. *)
Record UserState : Type := {
  role : string;
  affiliation : string;
  status : string;
  first_seen : pyval
}.

(** A value under a top-level key of [user_states]: the dict of a room,
    or a plain string. *)
Inductive mirror_val : Type :=
| MRoom (users : gmap string UserState)
| MScalar (s : string).

(** The fields of a presence stanza that the core reads. *)
Record presence : Type := {
  pr_from : string;
  pr_type : string;
  muc_nick : string;
  muc_jid : option string;
  muc_role : string;
  muc_affiliation : string
}.

(** A JSON object as [json.loads] returns it and as the code extends
    it; a [None] key or value is Python's [None]. *)
Abbreviation jdict := (list (option string * option string)).

(** Collaborators outside the modelled core: the [json] module, the
    reply and quote stripping, the gateway rewriting of a message, the
    out-of-band storage, and the answer of the transport to a request to
    join a room under a nickname: the history of the room (the component
    of the answer that [join_muc] reads), or the exception of the
    request. *)
Record externals : Type := {
  json_loads : string -> option jdict;
  json_dumps : jdict -> string;
  strip_reply_and_quote : message -> message * option string;
  gateway_rewrite : message -> message;
  store_oob : message -> Q -> db -> db;
  join_muc_wait : string -> option string -> result (list message)
}.

(** The mutable part of the bot. *)
Record Bot : Type := {
  joined_mucs : list string;
  sql : db;
  user_states : gmap string mirror_val;
  command_handler : Commands.CommandHandler;
  plugins : list (string * Plugin);
  trace : list event
}.

Definition set_joined_mucs (b : Bot) (v : list string) : Bot :=
  {| joined_mucs := v; sql := sql b; user_states := user_states b;
     command_handler := command_handler b; plugins := plugins b;
     trace := trace b |}.

Definition set_sql (b : Bot) (v : db) : Bot :=
  {| joined_mucs := joined_mucs b; sql := v; user_states := user_states b;
     command_handler := command_handler b; plugins := plugins b;
     trace := trace b |}.

Definition set_user_states (b : Bot) (v : gmap string mirror_val) : Bot :=
  {| joined_mucs := joined_mucs b; sql := sql b; user_states := v;
     command_handler := command_handler b; plugins := plugins b;
     trace := trace b |}.

Definition set_command_handler (b : Bot) (v : Commands.CommandHandler)
  : Bot :=
  {| joined_mucs := joined_mucs b; sql := sql b;
     user_states := user_states b; command_handler := v;
     plugins := plugins b; trace := trace b |}.

Definition add_trace (b : Bot) (evs : list event) : Bot :=
  {| joined_mucs := joined_mucs b; sql := sql b;
     user_states := user_states b; command_handler := command_handler b;
     plugins := plugins b; trace := trace b ++ evs |}.

(** *** A state and exception monad over [Bot] *)

Definition M (A : Type) : Type := Bot -> result A * Bot.

Definition ret {A} (a : A) : M A := λ b, (Ok a, b).

Definition bind {A B} (m : M A) (f : A -> M B) : M B :=
  λ b, match m b with
       | (Ok a, b') => f a b'
       | (Raise exn, b') => (Raise exn, b')
       end.

Definition raise {A} (exn : string) : M A := λ b, (Raise exn, b).

Definition read {A} (f : Bot -> A) : M A := λ b, (Ok (f b), b).

Definition modify (f : Bot -> Bot) : M unit := λ b, (Ok tt, f b).

Definition emit (evs : list event) : M unit :=
  modify (λ b, add_trace b evs).

(** [try: m  except Exception as e: handler e] *)
Definition try_except (m : M unit) (handler : string -> M unit) : M unit :=
  λ b, match m b with
       | (Ok a, b') => (Ok a, b')
       | (Raise exn, b') => handler exn b'
       end.

(** [for x in l: body x] *)
Fixpoint for_each {A} (l : list A) (body : A -> M unit) : M unit :=
  match l with
  | [] => ret tt
  | x :: l' => bind (body x) (λ _, for_each l' body)
  end.

Declare Scope bot_scope.
Delimit Scope bot_scope with bot.
Notation "'do' x <- m ; k" := (bind m (λ x, k))
  (at level 10, x name, m at level 100, k at level 200) : bot_scope.
Local Open Scope bot_scope.

(** Python objects met by [in] and by truth tests. *)
Inductive pyobj : Type :=
| OStr (s : string)
| OPlugin (p : Plugin)
| OMethod (name : string).

(** [a == b]: a string never equals a plugin object or a method; two
    plugin objects are the same object when they were loaded from the
    same module. *)
Definition obj_eqb (a b : pyobj) : bool :=
  match a, b with
  | OStr s, OStr t => String.eqb s t
  | OPlugin p, OPlugin q => String.eqb (plugin_name p) (plugin_name q)
  | OMethod m, OMethod n => String.eqb m n
  | _, _ => false
  end.

Definition obj_in (a : pyobj) (l : list pyobj) : bool :=
  existsb (obj_eqb a) l.

(** Truth value of an object: a bound method is always true. *)
Definition obj_truthy (a : pyobj) : bool :=
  match a with
  | OStr s => truthy_str s
  | OPlugin _ => true
  | OMethod _ => true
  end.

(** *** The history ledger *)

(** [f"{muc}_{message_id}"] *)
Definition row_key (muc ident : string) : string :=
  muc +:+ "_" +:+ ident.

Definition opt_val (o : option string) : pyval :=
  match o with
  | Some s => PStr s
  | None => PNone
  end.

(** [Bot.get_history_message] *)
Definition get_history_message (d : db) (muc message_id : string)
  : option (gmap string string) :=
  match get d "bot_chat_history" (row_key muc message_id) "timestamp" with
  | None => None
  | Some _ =>
      let fields :=
        get_all_fields d "bot_chat_history" (row_key muc message_id) in
      Some (map_imap
              (λ field _,
                 get d "bot_chat_history" (row_key muc message_id) field)
              fields)
  end.

(** [Bot._store_chat_history] *)
Definition _store_chat_history (e : env) (d : db)
    (muc nick message_id : string) (stanza_id : option string)
    (body : string) (now : Q) : db :=
  let key := row_key muc message_id in
  let jid := get_jid_from_nick e muc nick in
  let d :=
    match jid with
    | Some j => set d "bot_chat_history" key "jid" (PStr j)
    | None => d
    end in
  let d := set d "bot_chat_history" key "nick" (PStr nick) in
  let d := set d "bot_chat_history" key "stanza_id" (opt_val stanza_id) in
  let d := set d "bot_chat_history" key "body" (PStr body) in
  set d "bot_chat_history" key "timestamp" (PInt (int now)).

(** [Bot._store_correction_history].  [json.loads] failing, or giving
    something that is not an object, raises. *)
Definition _store_correction_history (x : externals) (d : db)
    (muc nick message_id replace_id : string) (stanza_id : option string)
    (body : string) (now : Q) : result db :=
  let key := row_key muc replace_id in
  let v_body := get d "bot_chat_history" key "body" in
  let v_timestamp := get d "bot_chat_history" key "timestamp" in
  let v_edit_timestamp := get d "bot_chat_history" key "edit_timestamp" in
  let v_edit_history := get d "bot_chat_history" key "edit_history" in
  match json_loads x (fmt (or_ostr v_edit_history (Some "{}"))) with
  | None => Raise "ValueError"
  | Some edit_history =>
      let history_key := or_ostr v_edit_timestamp v_timestamp in
      let edit_history := dict_set history_key v_body edit_history in
      let d := set d "bot_chat_history" key "body" (PStr body) in
      let d := set d "bot_chat_history" key "edit_timestamp"
                   (PInt (int now)) in
      Ok (set d "bot_chat_history" key "edit_history"
              (PStr (json_dumps x edit_history)))
  end.

(** Lifting of the store functions to the bot. *)
Definition update_sql (f : db -> db) : M unit :=
  modify (λ b, set_sql b (f (sql b))).

Definition update_sql_result (f : db -> result db) : M unit :=
  λ b, match f (sql b) with
       | Ok d => (Ok tt, set_sql b d)
       | Raise exn => (Raise exn, b)
       end.

(** [str(message['from'])] *)
Definition full_jid (m : message) : string :=
  if truthy_str (from_resource m)
  then from_bare m +:+ "/" +:+ from_resource m
  else from_bare m.

(** The body of the loop of [Bot._process_chat_history]; only a
    [KeyError] is handled. *)
Definition process_history_message (e : env) (x : externals) (muc : string)
    (now : Q) (message : message) : M unit :=
  do stored_message <-
    read (λ b, get_history_message (sql b) muc (id message));
  try_except
    (let nick := List.last (split_on "/" (full_jid message)) "" in
     let body := body message in
     let message_id := id message in
     let replace_id := replace_id message in
     let stanza_id := stanza_id message in
     do _ <-
       match stored_message with
       | None =>
           update_sql (λ d, _store_chat_history e d muc nick message_id
                              stanza_id body now)
       | Some _ => ret tt
       end;
     match replace_id with
     | Some rid =>
         update_sql_result
           (λ d, _store_correction_history x d muc nick message_id rid
                   stanza_id body now)
     | None => ret tt
     end)
    (λ exn,
       if String.eqb exn "KeyError"
       then emit [LogError ("Error processing message in history for MUC "
                            +:+ muc +:+ ": " +:+ exn)]
       else raise exn).

(** [Bot._process_chat_history] *)
Definition _process_chat_history (e : env) (x : externals) (muc : string)
    (history : list message) (now : Q) : M unit :=
  for_each history (process_history_message e x muc now).

(** [Bot._add_muc_to_joined_list] *)
Definition _add_muc_to_joined_list (muc : string) : M unit :=
  modify (λ b, if mem muc (joined_mucs b) then b
               else set_joined_mucs b (joined_mucs b ++ [muc])).

(** [Bot.join_muc], given the history the transport answered with. *)
Definition join_muc (e : env) (x : externals) (muc : string)
    (history : list message) (now : Q) : M unit :=
  try_except
    (do _ <- _process_chat_history e x muc history now;
     _add_muc_to_joined_list muc)
    (λ exn, emit [LogError ("Error joining MUC " +:+ muc +:+ ": " +:+ exn)]).

(** [Bot._join_muc_with_plugin]: the request to the transport and its
    answer. *)
Definition _join_muc_with_plugin (x : externals) (muc : string)
    (nick : option string) : M (list message) :=
  do _ <- emit [JoinMuc muc nick];
  match join_muc_wait x muc nick with
  | Ok join_response => ret join_response
  | Raise exn => raise exn
  end.

(** [await self.join_muc(muc, nick)]: [Bot.join_muc] as a whole, from the
    request to the transport on; [join_muc] above is what follows the
    answer.  [handle_groupchat_presence] awaits it to rejoin a room. *)
Definition await_join_muc (e : env) (x : externals) (muc : string)
    (nick : option string) (now : Q) : M unit :=
  try_except
    (do join_response <- _join_muc_with_plugin x muc nick;
     do _ <- _process_chat_history e x muc join_response now;
     _add_muc_to_joined_list muc)
    (λ exn, emit [LogError ("Error joining MUC " +:+ muc +:+ ": " +:+ exn)]).

(** *** The user-state store *)

(** [Bot._save_user_state]: the new store and the warnings logged. *)
Definition _save_user_state (d : db) (muc user : string)
    (role affiliation status : option string) (first_seen : option Z)
  : db * list event :=
  let key := row_key muc user in
  let d :=
    if truthy_ostr role
    then set d "bot_user_states" key "role" (opt_val role) else d in
  let d :=
    if truthy_ostr affiliation
    then set d "bot_user_states" key "affiliation" (opt_val affiliation)
    else d in
  let d :=
    if truthy_ostr status
    then set d "bot_user_states" key "status" (opt_val status) else d in
  match first_seen with
  | Some fs =>
      if truthy (PInt fs) then
        if truthy_ostr (get d "bot_user_states" key "first_seen") then
          (d, [LogWarning ("Blocked attempt to overwrite first_seen for "
                           +:+ key +:+ ". This shouldn't be happening.")])
        else (set d "bot_user_states" key "first_seen" (PInt fs), [])
      else (d, [])
  | None => (d, [])
  end.

Definition save_user_state (muc user : string)
    (role affiliation status : option string) (first_seen : option Z)
  : M unit :=
  λ b, let '(d, evs) :=
         _save_user_state (sql b) muc user role affiliation status
                          first_seen in
       (Ok tt, add_trace (set_sql b d) evs).

(** One round of the loop of [Bot._load_user_states]; a key without
    ["_"] cannot be unpacked. *)
Definition load_step (key : string) (fields : gmap string string)
    (acc : result (gmap string mirror_val))
  : result (gmap string mirror_val) :=
  match acc with
  | Raise exn => Raise exn
  | Ok user_states =>
      match split_once "_" key with
      | [muc; user] =>
          let st :=
            {| role := default "" (fields !! "role");
               affiliation := default "" (fields !! "affiliation");
               status := default "" (fields !! "status");
               first_seen := PStr (default "" (fields !! "first_seen")) |} in
          match default (MRoom ∅) (user_states !! muc) with
          | MRoom users =>
              Ok (<[muc := MRoom (<[user := st]> users)]> user_states)
          | MScalar _ => Raise "TypeError"
          end
      | _ => Raise "ValueError"
      end
  end.

(** [Bot._load_user_states] *)
Definition _load_user_states (d : db) : result (gmap string mirror_val) :=
  map_fold load_step (Ok ∅) (get_all_keys d "bot_user_states").

(** *** Plugin fan-out *)

(** Awaiting one handler inside [try ... except Exception]. *)
Definition call_plugin (plugin : Plugin) (handler_method : string)
  : M unit :=
  do _ <- emit [CallPlugin (plugin_name plugin) handler_method];
  match run plugin handler_method with
  | Returned => ret tt
  | Raised exn =>
      emit [LogError ("Error in plugin " +:+ plugin_name plugin +:+
                      " during " +:+ handler_method +:+ ": " +:+ exn)]
  end.

Definition event_handler_map : list (string * string) :=
  [("room_join", "handle_room_join");
   ("role_change", "handle_role_change");
   ("affiliation_change", "handle_affiliation_change");
   ("status_change", "handle_status_change")].

(** [Bot._handle_presence_event]: [plugin in disabled_plugins] looks a
    plugin object up in a list of names. *)
Definition _handle_presence_event (event_type muc user : string)
    (pr : presence) (disabled_plugins : list string) : M unit :=
  match dict_get event_type event_handler_map with
  | None => emit [LogError ("Unknown event type: " +:+ event_type)]
  | Some handler_method =>
      do ps <- read plugins;
      for_each (map snd ps)
        (λ plugin,
           if obj_in (OPlugin plugin) (map OStr disabled_plugins)
           then ret tt
           else if mem handler_method (attrs plugin)
                then call_plugin plugin handler_method
                else ret tt)
  end.

Definition _handle_room_join muc user pr disabled_plugins : M unit :=
  _handle_presence_event "room_join" muc user pr disabled_plugins.

Definition _handle_role_change muc user pr disabled_plugins : M unit :=
  _handle_presence_event "role_change" muc user pr disabled_plugins.

Definition _handle_affiliation_change muc user pr disabled_plugins
  : M unit :=
  _handle_presence_event "affiliation_change" muc user pr disabled_plugins.

Definition _handle_status_change muc user pr disabled_plugins : M unit :=
  _handle_presence_event "status_change" muc user pr disabled_plugins.

(** [Bot._get_disabled_plugins_for_muc] *)
Definition _get_disabled_plugins_for_muc (e : env) (muc : string)
  : list string :=
  default [] (muc_list (mucs e) muc "disabled=_plugins").

(** [Bot._get_whitelist_plugins_for_muc] *)
Definition _get_whitelist_plugins_for_muc (e : env) (muc : string)
  : option (list string) :=
  muc_list (mucs e) muc "whitelist_plugins".

(** The test that makes [_send_message_to_plugins] skip a plugin. *)
Definition skipped (disabled_plugins : list string)
    (whitelist_plugins : option (list string)) (plugin_name : string)
  : bool :=
  mem plugin_name disabled_plugins
  || match whitelist_plugins with
     | Some wl => negb (mem plugin_name wl)
     | None => false
     end.

(** [Bot._send_message_to_plugins] *)
Definition _send_message_to_plugins (e : env) (msg : message)
    (message_type : string) : M unit :=
  let muc := from_bare msg in
  let disabled_plugins := _get_disabled_plugins_for_muc e muc in
  let whitelist_plugins := _get_whitelist_plugins_for_muc e muc in
  do ps <- read plugins;
  for_each (map snd ps)
    (λ plugin,
       if skipped disabled_plugins whitelist_plugins (plugin_name plugin)
       then ret tt
       else
         let handler_method := "handle_" +:+ message_type in
         if mem handler_method (attrs plugin)
         then call_plugin plugin handler_method
         else ret tt).

(** *** Presence *)

(** [self.user_states[muc]] as a dict of users. *)
Definition room_states (muc : string) : M (gmap string UserState) :=
  λ b, match user_states b !! muc with
       | Some (MRoom users) => (Ok users, b)
       | Some (MScalar _) => (Raise "AttributeError", b)
       | None => (Raise "KeyError", b)
       end.

Definition set_room_states (muc : string) (users : gmap string UserState)
  : M unit :=
  modify (λ b, set_user_states b (<[muc := MRoom users]> (user_states b))).

(** [self.user_states[key] = value] for a string value. *)
Definition set_top_level (key value : string) : M unit :=
  modify (λ b, set_user_states b (<[key := MScalar value]> (user_states b))).

(** [Bot._handle_state_changes]; [user_state] is [None] for the empty
    dict, whose subscripts raise [KeyError]. *)
Definition _handle_state_changes (muc user : string)
    (user_state : option UserState) (pr : presence)
    (disabled_plugins : list string) : M unit :=
  match user_state with
  | None => raise "KeyError"
  | Some user_state =>
      do _ <-
        (if negb (String.eqb (muc_role pr) (role user_state)) then
           do _ <- _handle_role_change muc user pr disabled_plugins;
           let role := muc_role pr in
           do _ <- set_top_level "role" role;
           save_user_state muc user (Some role) None None None
         else ret tt);
      do _ <-
        (if negb (String.eqb (muc_affiliation pr) (affiliation user_state))
         then
           do _ <- _handle_affiliation_change muc user pr disabled_plugins;
           let affiliation := muc_affiliation pr in
           do _ <- set_top_level "affiliation" affiliation;
           save_user_state muc user None (Some affiliation) None None
         else ret tt);
      if negb (String.eqb (pr_type pr) (status user_state)) then
        do _ <- _handle_status_change muc user pr disabled_plugins;
        let status := pr_type pr in
        do _ <- set_top_level "status" status;
        save_user_state muc user None None (Some status) None
      else ret tt
  end.

(** [l.remove(x)]: drops the first occurrence. *)
Fixpoint list_remove (x : string) (l : list string) : list string :=
  match l with
  | [] => []
  | y :: l' => if String.eqb x y then l' else y :: list_remove x l'
  end.

(** The branch of [handle_groupchat_presence] for the bot's own
    presence.  With [auto_rejoin] the handler awaits the whole of
    [join_muc] before it returns.  The nickname of the request is
    [self.mucs.get('nick', self.nick)]: the nickname of the bot, unless a
    room is called [nick], whose options are then passed in its place
    ([None] here). *)
Definition own_presence (e : env) (x : externals) (muc : string)
    (pr : presence) (now : Q) : M unit :=
  if String.eqb (pr_type pr) "unavailable" then
    do _ <-
      modify (λ b, if mem muc (joined_mucs b)
                   then set_joined_mucs b (list_remove muc (joined_mucs b))
                   else b);
    if default false (muc_flag (mucs e) muc "auto_rejoin")
    then await_join_muc e x muc
           (match mucs e !! "nick" with
            | Some _ => None
            | None => Some (bot_nick e)
            end) now
    else ret tt
  else ret tt.

(** The body of the [try] of [Bot.handle_groupchat_presence]. *)
Definition presence_body (e : env) (x : externals) (pr : presence) (now : Q)
  : M unit :=
  match split_on "/" (pr_from pr) with
  | muc :: nick :: _ =>
      let newnick :=
        if negb (String.eqb (muc_nick pr) nick) then Some (muc_nick pr)
        else None in
      let jid := muc_jid pr in
      if match jid with
         | Some j => String.eqb j (boundjid_bare e)
         | None => false
         end
      then own_presence e x muc pr now
      else
        let '(user, jid_visible) :=
          if truthy_ostr jid then (fmt jid, true) else (nick, false) in
        let disabled_plugins :=
          default [] (muc_list (mucs e) muc "disabled_plugins") in
        do _ <-
          modify (λ b, match user_states b !! muc with
                       | Some _ => b
                       | None => set_user_states b
                                   (<[muc := MRoom ∅]> (user_states b))
                       end);
        do users <- room_states muc;
        let user_state := users !! user in
        do user <-
          (if truthy_ostr newnick && negb jid_visible then
             do _ <-
               match users !! user with
               | Some st =>
                   do _ <- set_room_states muc
                             (<[fmt newnick := st]> (base.delete user users));
                   do _ <- update_sql (λ d, delete d "user_states" user None);
                   save_user_state muc user (Some (muc_role pr))
                     (Some (muc_affiliation pr)) (Some (pr_type pr)) None
               | None => ret tt
               end;
             ret (fmt newnick)
           else ret user);
        do users <- room_states muc;
        match users !! user with
        | None =>
            let first_seen := int now in
            do _ <- set_room_states muc
                      (<[user := {| role := muc_role pr;
                                    affiliation := muc_affiliation pr;
                                    status := pr_type pr;
                                    first_seen := PInt first_seen |}]> users);
            do _ <- save_user_state muc user (Some (muc_role pr))
                      (Some (muc_affiliation pr)) (Some (pr_type pr))
                      (Some first_seen);
            _handle_room_join muc user pr disabled_plugins
        | Some _ =>
            _handle_state_changes muc user user_state pr disabled_plugins
        end
  | _ => raise "IndexError"
  end.

(** [Bot.handle_groupchat_presence] *)
Definition handle_groupchat_presence (e : env) (x : externals)
    (pr : presence) (now : Q) : M unit :=
  try_except (presence_body e x pr now)
    (λ exn, emit [LogError ("Error handling presence: '" +:+ exn +:+ "'")]).

(** *** Messages *)

(** [Bot._is_self] *)
Definition _is_self (e : env) (msg : message) : bool :=
  let muc := from_bare msg in
  let nick := default (bot_nick e) (muc_str (mucs e) muc "nick") in
  String.eqb (mucnick msg) nick.

(** [Bot._handle_correction] *)
Definition _handle_correction (x : externals) (msg : message)
    (is_muc : bool) (now : Q) : M bool :=
  match replace_id msg with
  | Some rid =>
      if truthy_str rid then
        do _ <-
          (if is_muc then
             update_sql_result
               (λ d, _store_correction_history x d (mucroom msg)
                       (mucnick msg) (id msg) rid (stanza_id msg)
                       (body msg) now)
           else ret tt);
        ret true
      else ret false
  | None => ret false
  end.

(** [Bot._should_ignore_groupchat_message]: the list of conditions is
    built before it is scanned, so the correction is stored whatever
    the other conditions say. *)
Definition _should_ignore_groupchat_message (e : env) (x : externals)
    (msg : message) (now : Q) : M bool :=
  do joined <- read joined_mucs;
  let c_unjoined := negb (mem (mucroom msg) joined) in
  let c_ignored := mem (mucnick msg) (ignored e) in
  let c_encrypted := encrypted msg in
  do c_correction <- _handle_correction x msg true now;
  let c_self := _is_self e msg in
  ret (c_unjoined || c_ignored || c_encrypted || c_correction || c_self).

(** [Bot._should_ignore_private_message] *)
Definition _should_ignore_private_message (x : externals) (msg : message)
    (now : Q) : M bool :=
  let c_type := negb (String.eqb (mtype msg) "chat") in
  let c_encrypted := encrypted msg in
  let c_oob := truthy_ostr (oob_url msg) in
  do c_correction <- _handle_correction x msg false now;
  ret (c_type || c_encrypted || c_oob || c_correction).

(** Running a command-handler entry point on the bot's handler; an
    exception of the entry point is an exception of the caller. *)
Definition with_command_handler
    (f : Commands.CommandHandler ->
         Commands.CommandHandler * list event * result bool) : M bool :=
  λ b, match f (command_handler b) with
       | (h, evs, r) => (r, add_trace (set_command_handler b h) evs)
       end.

(** [Bot.handle_file_transfer] *)
Definition handle_file_transfer (e : env) (x : externals) (msg : message)
    (now : Q) : M unit :=
  do _ <- update_sql (store_oob x msg now);
  _send_message_to_plugins e msg "file_transfer".

(** [Bot.handle_groupchat_message] *)
Definition handle_groupchat_message (e : env) (x : externals)
    (msg : message) (now : Q) : M unit :=
  do ignore <- _should_ignore_groupchat_message e x msg now;
  if ignore then ret tt
  else if truthy_ostr (oob_url msg) then handle_file_transfer e x msg now
  else
    let '(msg, quote) := strip_reply_and_quote x msg in
    do _ <- update_sql
              (λ d, _store_chat_history e d (mucroom msg) (mucnick msg)
                      (id msg) (stanza_id msg) (body msg) now);
    let msg := gateway_rewrite x msg in
    do is_command <-
      with_command_handler
        (λ h, Commands.handle_groupchat_message e h msg quote now);
    _send_message_to_plugins e msg "groupchat_message".

(** [Bot.handle_muc_whisper] *)
Definition handle_muc_whisper (e : env) (msg : message) (now : Q)
  : M unit :=
  do is_command <-
    with_command_handler (λ h, Commands.handle_whisper e h msg now);
  _send_message_to_plugins e msg "whisper".

(** [Bot.handle_private_message] *)
Definition handle_private_message (e : env) (x : externals)
    (msg : message) (now : Q) : M unit :=
  do ignore <- _should_ignore_private_message x msg now;
  if ignore then ret tt
  else
    do joined <- read joined_mucs;
    if mem (from_bare msg) joined then handle_muc_whisper e msg now
    else
      let jid := from_bare msg in
      if mem jid (admins e) then
        try_except
          (do is_command <-
             with_command_handler
               (λ h, Commands.handle_private_message e h msg now);
           ret tt)
          (λ exn,
             emit [LogError ("Error handling private message from admin "
                             +:+ jid +:+ ": " +:+ exn)])
      else ret tt.

(** [Bot.handle_reactions]: the condition is the method object, not a
    call of it. *)
Definition handle_reactions (e : env) (msg : message) : M unit :=
  if obj_truthy (OMethod "_should_ignore_groupchat_message") then ret tt
  else _send_message_to_plugins e msg "reaction".

(** *** The ignore list

    [self.ignored] changes at run time: these functions take the list and
    the store and return the new ones.  The rows of [bot_ignore] are read
    in the order of the table, which no property below depends on. *)

(** [Bot.add_ignore] *)
Definition add_ignore (ignored : list string) (d : db) (nick : string)
    (admin : option string) : list string * db :=
  (if mem nick ignored then ignored else ignored ++ [nick],
   set d "bot_ignore" nick "admin" (opt_val admin)).

(** [Bot.remove_ignore] *)
Definition remove_ignore (ignored : list string) (d : db) (nick : string)
  : list string * db :=
  (if mem nick ignored then list_remove nick ignored else ignored,
   delete d "bot_ignore" nick (Some "admin")).

(** [Bot.get_ignore_admin] *)
Definition get_ignore_admin (d : db) (nick : string) : option string :=
  get d "bot_ignore" nick "admin".

(** [Bot._load_ignores] *)
Definition _load_ignores (ignored : list string) (d : db) : list string :=
  fold_left (λ ignored nick,
               if mem nick ignored then ignored else ignored ++ [nick])
            (map fst (map_to_list (get_all_keys d "bot_ignore"))) ignored.

(** The name under which [Bot.send_file] uploads a file: the first
    statement of its [try].  The [ValueError] is caught by the [except]
    of [send_file], which logs it and uploads nothing. *)
Definition send_file_name (file_name : string) : result string :=
  if 255 <? String.length file_name then
    let filename_parts := split_on "." file_name in
    if length filename_parts =? 1 then Ok (slice_to 255 file_name)
    else
      let filename_base := join_with "." (removelast filename_parts) in
      let filename_ext := "." +:+ List.last filename_parts "" in
      if 255 <? String.length filename_ext then Raise "ValueError"
      else Ok (slice_to (255 - String.length filename_ext) filename_base
               +:+ filename_ext)
  else Ok file_name.

(** A fallback of a message: what it stands for and the range of the
    body that it covers. *)
Record fallback : Type := {
  fb_for : string;
  fb_start : Z;
  fb_end : Z
}.

(** [Bot._strip_reply_from_body]: the body without the quoted text, and
    the quoted text. *)
Definition _strip_reply_from_body (fallbacks : list fallback) (body : string)
  : string * option string :=
  match find (λ fallback, String.eqb (fb_for fallback) "urn:xmpp:reply:0")
             fallbacks with
  | None => (body, None)
  | Some fallback =>
      let start := fb_start fallback in
      let end_ := fb_end fallback in
      if (0 <=? start)%Z && (start <? end_)%Z
         && (end_ <=? Z.of_nat (String.length body))%Z
      then (slice_to (Z.to_nat start) body
            +:+ slice_from (Z.to_nat end_) body,
            Some (slice (Z.to_nat start) (Z.to_nat end_) body))
      else (body, None)
  end.

End Bot.

(** ** core/config.py *)

Module Config.

(** A value of the configuration, as [json.load] returns it. *)
#[warnings="-register-all"]
Inductive json : Type :=
| JNull
| JBool (b : bool)
| JNum (q : Q)
| JStr (s : string)
| JList (l : list json)
| JDict (d : list (string * json)).

(** Truthiness of a value. *)
Definition truthy_json (j : json) : bool :=
  match j with
  | JNull => false
  | JBool b => b
  | JNum q => negb (Qeq_bool q 0)
  | JStr s => truthy_str s
  | JList l => match l with [] => false | _ => true end
  | JDict d => match d with [] => false | _ => true end
  end.

Definition env_var_map : list (string * (string * bool)) :=
  [("NOKOTAN_JID", ("bot_jid", false));
   ("NOKOTAN_PW", ("bot_pw", false));
   ("NOKOTAN_NICK", ("bot_nick", false));
   ("NOKOTAN_SQL_FILE", ("sql_file", false));
   ("NOKOTAN_ADMINS", ("admins", true));
   ("NOKOTAN_IGNORED", ("ignored", true));
   ("NOKOTAN_CMD_COOLDOWN", ("default_command_cooldown", false));
   ("NOKOTAN_CMD_PREFIX", ("default_command_prefix", false));
   ("NOKOTAN_SHOW_SUGGEST", ("show_command_suggestion", true));
   ("NOKOTAN_RUN_SUGGEST", ("run_command_suggestion", true));
   ("NOKOTAN_MAX_HISTORY", ("max_history", false));
   ("NOKOTAN_DISABED_PLUGINS", ("global_disabled_plugins", true));
   ("NOKOTAN_LOG_ENABLED", ("logging_enabled", false));
   ("NOKOTAN_LOG_LEVEL", ("logging_level", false));
   ("NOKOTAN_LOG_TO_FILE", ("logging_log_to_file", false));
   ("NOKOTAN_LOG_FILE_PATH", ("logging_log_file_path", false))].

(** The value an environment variable gives its key. *)
Definition env_value (should_split : bool) (value : string) : json :=
  if should_split then JList (map JStr (split_on "," value)) else JStr value.

(** One round of the loop over [env_var_map]. *)
Definition override (environ : gmap string string)
    (config : gmap string json) (entry : string * (string * bool))
  : gmap string json :=
  let '(env_var, (config_key, should_split)) := entry in
  match environ !! env_var with
  | Some value => <[config_key := env_value should_split value]> config
  | None => config
  end.

(** [load_config]: [file] is the object read from the file [config],
    [None] when the file is missing or is not JSON. *)
Definition load_config (file : option (gmap string json))
    (environ : gmap string string) : gmap string json :=
  let config := default ∅ file in
  fold_left (override environ) env_var_map config.

End Config.

(** ** A JSON codec for flat objects

    [json.dumps] and [json.loads] restricted to what the ledger stores:
    one object whose values are strings or [null].  Text is escaped for
    the quote and the backslash only. *)

Module Json.

Definition dq : ascii := "034"%char.
Definition bs : ascii := "092"%char.

Fixpoint escape (l : list ascii) : list ascii :=
  match l with
  | [] => []
  | c :: l' =>
      if Ascii.eqb c dq then bs :: dq :: escape l'
      else if Ascii.eqb c bs then bs :: bs :: escape l'
      else c :: escape l'
  end.

Definition quote (s : string) : string :=
  String dq
    (String.string_of_list_ascii (escape (String.list_ascii_of_string s))
     +:+ String dq "").

Definition dump_entry (kv : option string * option string) : string :=
  quote (match kv.1 with Some k => k | None => "null" end) +:+ ": " +:+
  match kv.2 with
  | Some v => quote v
  | None => "null"
  end.

Fixpoint join (sep : string) (l : list string) : string :=
  match l with
  | [] => ""
  | [a] => a
  | a :: l' => a +:+ sep +:+ join sep l'
  end.

Definition dumps (d : list (option string * option string)) : string :=
  "{" +:+ join ", " (map dump_entry d) +:+ "}".

(** The states of the reader. *)
Inductive state : Type :=
| Start
| KeyOrEnd
| Key
| InKey (acc : list ascii) (esc : bool)
| Colon (k : string)
| Value (k : string)
| InValue (k : string) (acc : list ascii) (esc : bool)
| Null (k : string) (seen : nat)
| CommaOrEnd
| Done.

Definition text (acc : list ascii) : string :=
  String.string_of_list_ascii (rev acc).

Fixpoint read (st : state) (d : list (option string * option string))
    (l : list ascii) : option (list (option string * option string)) :=
  match l with
  | [] => match st with Done => Some d | _ => None end
  | c :: l' =>
      match st with
      | Start =>
          if is_space c then read Start d l'
          else if Ascii.eqb c "{" then read KeyOrEnd d l' else None
      | KeyOrEnd =>
          if is_space c then read KeyOrEnd d l'
          else if Ascii.eqb c "}" then read Done d l'
          else if Ascii.eqb c dq then read (InKey [] false) d l'
          else None
      | Key =>
          if is_space c then read Key d l'
          else if Ascii.eqb c dq then read (InKey [] false) d l'
          else None
      | InKey acc true => read (InKey (c :: acc) false) d l'
      | InKey acc false =>
          if Ascii.eqb c bs then read (InKey acc true) d l'
          else if Ascii.eqb c dq then read (Colon (text acc)) d l'
          else read (InKey (c :: acc) false) d l'
      | Colon k =>
          if is_space c then read (Colon k) d l'
          else if Ascii.eqb c ":" then read (Value k) d l' else None
      | Value k =>
          if is_space c then read (Value k) d l'
          else if Ascii.eqb c dq then read (InValue k [] false) d l'
          else if Ascii.eqb c "n" then read (Null k 1) d l'
          else None
      | InValue k acc true => read (InValue k (c :: acc) false) d l'
      | InValue k acc false =>
          if Ascii.eqb c bs then read (InValue k acc true) d l'
          else if Ascii.eqb c dq
          then read CommaOrEnd (dict_set (Some k) (Some (text acc)) d) l'
          else read (InValue k (c :: acc) false) d l'
      | Null k seen =>
          match seen with
          | 1 => if Ascii.eqb c "u" then read (Null k 2) d l' else None
          | 2 => if Ascii.eqb c "l" then read (Null k 3) d l' else None
          | 3 => if Ascii.eqb c "l"
                 then read CommaOrEnd (dict_set (Some k) None d) l'
                 else None
          | _ => None
          end
      | CommaOrEnd =>
          if is_space c then read CommaOrEnd d l'
          else if Ascii.eqb c "," then read Key d l'
          else if Ascii.eqb c "}" then read Done d l'
          else None
      | Done => if is_space c then read Done d l' else None
      end
  end.

Definition loads (s : string)
  : option (list (option string * option string)) :=
  read Start [] (String.list_ascii_of_string s).

End Json.

(** ** Concrete rooms, commands and plugins used as test inputs *)

Module Scenario.

Import Commands SQLHandler Bot.

Definition room : string := "lounge@conference.example.org".

(** The identity for the collaborators that the core does not define,
    the JSON codec above, and a transport that answers a request to
    join with an empty history. *)
Definition ext : externals :=
  {| json_loads := Json.loads;
     json_dumps := Json.dumps;
     strip_reply_and_quote := λ m, (m, None);
     gateway_rewrite := λ m, m;
     store_oob := λ _ _ d, d;
     join_muc_wait := λ _ _, Ok [] |}.

Definition no_options : muc_config :=
  {| strs := ∅; lists := ∅; flags := ∅ |}.

Definition env_with (rooms : gmap string muc_config) : env :=
  {| bot_nick := "Nokotan";
     boundjid_bare := "nokotan@example.org";
     admins := ["admin@example.org"];
     mucs := rooms;
     ignored := [];
     default_prefix := ".";
     default_command_cooldown := 2;
     roster := λ _, [];
     jid_property := λ _ _, None |}.

Definition plain_env : env := env_with {[ room := no_options ]}.

(** A room whose options disable the plugin [feeds]. *)
Definition env_feeds_disabled : env :=
  env_with
    {[ room := {| strs := ∅;
                  lists := {[ "disabled_plugins" := ["feeds"] ]};
                  flags := ∅ |} ]}.

Definition text_message (nick ident text : string) : message :=
  {| from_bare := room; from_resource := nick; mtype := "groupchat";
     body := text; id := ident; stanza_id := Some ("s-" +:+ ident);
     replace_id := None; oob_url := None; reply_id := None;
     encrypted := false |}.

Definition private_message (jid text : string) : message :=
  {| from_bare := jid; from_resource := ""; mtype := "chat";
     body := text; id := "p1"; stanza_id := None;
     replace_id := None; oob_url := None; reply_id := None;
     encrypted := false |}.

(** A plugin with every handler of [BasePlugin] and one for affiliation
    changes. *)
Definition feeds : Plugin :=
  {| plugin_name := "feeds";
     attrs := ["handle_groupchat_message"; "handle_whisper";
               "handle_file_transfer"; "handle_reaction"; "handle_room_join";
               "handle_role_change"; "handle_affiliation_change";
               "handle_status_change"];
     run := λ _, Returned |}.

(** A command whose handler raises. *)
Definition boom_handler : CommandHandler :=
  register_command plain_env (init true true) "boom" "debug_plugin"
    (λ _, Raised "RuntimeError") None None None false false.

Definition bot_with (h : CommandHandler) (ps : list (string * Plugin))
    (d : db) (mirror : gmap string mirror_val) : Bot :=
  {| joined_mucs := [room]; sql := d; user_states := mirror;
     command_handler := h; plugins := ps; trace := [] |}.

Definition empty_bot : Bot := bot_with (init true true) [] ∅ ∅.

Definition feeds_bot : Bot :=
  bot_with (init true true) [("feeds", feeds)] ∅ ∅.

Definition boom_bot : Bot := bot_with boom_handler [] ∅ ∅.

(** The commands of the example of the specification, [help], and a
    command with a name of fifteen characters. *)
Definition status_handler (run : bool) : CommandHandler :=
  register_command plain_env
    (register_command plain_env
       (register_command plain_env
          (register_command plain_env (init true run) "status"
             "default_plugin" (λ _, Returned) None None None false false)
          "stats" "default_plugin" (λ _, Returned) None None None false false)
       "help" "default_plugin" (λ _, Returned) None None None false false)
    "abcdefghijklmno" "default_plugin" (λ _, Returned) None None None
    false false.

(** A room whose whitelist names another plugin only. *)
Definition env_whitelist_other : env :=
  env_with
    {[ room := {| strs := ∅;
                  lists := {[ "whitelist_plugins" := ["last_seen"] ]};
                  flags := ∅ |} ]}.

(** A presence of [alice] in [room]. *)
Definition alice_presence (role : string) : presence :=
  {| pr_from := room +:+ "/alice"; pr_type := "available";
     muc_nick := "alice"; muc_jid := None; muc_role := role;
     muc_affiliation := "member" |}.

(** [alice] joins as a participant, is then made a moderator, and the
    server repeats the second presence. *)
Definition after_join : Bot :=
  (handle_groupchat_presence plain_env ext (alice_presence "participant") 100
     feeds_bot).2.

Definition after_role_change : Bot :=
  (handle_groupchat_presence plain_env ext (alice_presence "moderator") 200
     after_join).2.

Definition after_repeat : Bot :=
  (handle_groupchat_presence plain_env ext (alice_presence "moderator") 300
     after_role_change).2.

(** A command without a category and two commands of the category
    [fun], all with the default cooldown of two seconds. *)
Definition ping_handler : CommandHandler :=
  register_command plain_env (init true true) "ping" "default_plugin"
    (λ _, Returned) None None None false false.

Definition fun_handler : CommandHandler :=
  register_command plain_env
    (register_command plain_env (init true true) "roll" "default_plugin"
       (λ _, Returned) (Some "fun") None None false false)
    "flip" "default_plugin" (λ _, Returned) (Some "fun") None None false false.

Definition command_named (h : CommandHandler) (ref : nat) : Command :=
  default {| name := ""; plugin := ""; function := λ _, Returned;
             category := None; aliases := []; cooldown := 0; hidden := false;
             admin := false; last_used := ∅ |}
          (heap h !! ref).

(** The parameters of a command sent by [alice] in [room]. *)
Definition alice_params (text : string) : command_params :=
  {| p_msg := text_message "alice" "m1" text; p_muc := Some room;
     p_nick := Some "alice"; p_jid := None; p_quote := None |}.

(** The message [m1] seen live at time 100, then seen live once more at
    time 200, or instead found in the history of a later join. *)
Definition seen_live : Bot :=
  (Bot.handle_groupchat_message plain_env ext
     (text_message "alice" "m1" "hello") 100 empty_bot).2.

Definition seen_live_twice : Bot :=
  (Bot.handle_groupchat_message plain_env ext
     (text_message "alice" "m1" "hello") 200 seen_live).2.

Definition seen_live_then_backfilled : Bot :=
  (join_muc plain_env ext room [text_message "alice" "m1" "hello"] 200
     seen_live).2.

(** [alice] changes her nickname to [alicia]; her JID is not visible. *)
Definition alice_renamed : presence :=
  {| pr_from := room +:+ "/alice"; pr_type := "unavailable";
     muc_nick := "alicia"; muc_jid := None; muc_role := "participant";
     muc_affiliation := "member" |}.

(** [alice] joined at 100; at 500 her nickname changes to [alicia]. *)
Definition after_rename : Bot :=
  (handle_groupchat_presence plain_env ext alice_renamed 500 after_join).2.

(** A newcomer then joins under the nickname [alice], at 700. *)
Definition after_namesake : Bot :=
  (handle_groupchat_presence plain_env ext (alice_presence "visitor") 700
     after_rename).2.

(** The commands that [plugins/default_plugin.py] registers, in its
    order. *)
Definition default_commands : CommandHandler :=
  let reg h name aliases admin category :=
    register_command plain_env h name "default_plugin" (λ _, Returned)
      category aliases None false admin in
  let h := reg (init true false) "help" (Some ["h"]) false None in
  let h := reg h "join" None true (Some "admin") in
  let h := reg h "ignore" None true (Some "admin") in
  let h := reg h "shutdown" None true (Some "admin") in
  let h := reg h "restart" (Some ["reboot"; "reload"]) true (Some "admin") in
  reg h "logs" None true (Some "admin").

(** A correction of [m1] sent from a room the bot is not in. *)
Definition stray_correction : message :=
  {| from_bare := "elsewhere@conference.example.org";
     from_resource := "mallory"; mtype := "groupchat";
     body := ".ping"; id := "m9"; stanza_id := None;
     replace_id := Some "m1"; oob_url := None; reply_id := None;
     encrypted := false |}.

(** The presence that tells the bot it has left [room]. *)
Definition own_unavailable : presence :=
  {| pr_from := room +:+ "/Nokotan"; pr_type := "unavailable";
     muc_nick := "Nokotan"; muc_jid := Some "nokotan@example.org";
     muc_role := "none"; muc_affiliation := "none" |}.

(** The transport knows the JID of [alice] in [room]. *)
Definition env_alice_visible : env :=
  {| bot_nick := "Nokotan";
     boundjid_bare := "nokotan@example.org";
     admins := ["admin@example.org"];
     mucs := {[ room := no_options ]};
     ignored := [];
     default_prefix := ".";
     default_command_cooldown := 2;
     roster := λ _, ["alice"; "Nokotan"];
     jid_property := λ _ nick,
       if String.eqb nick "alice" then Some "alice@example.org/phone"
       else None |}.

End Scenario.

(** ** Reference definitions

    What the loops of the core compute, written without the loop; the
    properties below relate the code to them. *)

Module Reference.

Import Commands SQLHandler Bot.

(** The events of awaiting one plugin handler. *)
Definition call_events (plugin : Plugin) (handler_method : string)
  : list event :=
  CallPlugin (plugin_name plugin) handler_method ::
  match run plugin handler_method with
  | Returned => []
  | Raised exn =>
      [LogError ("Error in plugin " +:+ plugin_name plugin +:+
                 " during " +:+ handler_method +:+ ": " +:+ exn)]
  end.

(** The events of the message fan-out, plugin by plugin. *)
Definition fan_out_events (e : env) (msg : message) (message_type : string)
    (plugin : Plugin) : list event :=
  if skipped (_get_disabled_plugins_for_muc e (from_bare msg))
             (_get_whitelist_plugins_for_muc e (from_bare msg))
             (plugin_name plugin)
  then []
  else if mem ("handle_" +:+ message_type) (attrs plugin)
       then call_events plugin ("handle_" +:+ message_type)
       else [].

(** The entry of a user in the mirror. *)
Definition mirror_entry (b : Bot) (muc user : string) : option UserState :=
  match user_states b !! muc with
  | Some (MRoom users) => users !! user
  | _ => None
  end.

(** The time a command was last used by a user, [0] when never. *)
Definition own_last_used (c : Command) (user : option string) : Q :=
  default 0%Q (last_used c !! user).

(** The commands registered under a category. *)
Definition category_members (h : CommandHandler) (k : string) : list nat :=
  default [] (categories h !! k).

(** Every registered name refers to an object of that name, which is a
    member of its category when it has one. *)
Definition registry_ok (h : CommandHandler) : Prop :=
  ∀ name ref,
    dict_get name (commands h) = Some ref →
    ∃ c, heap h !! ref = Some c
         ∧ Commands.name c = name
         ∧ ∀ k, category_truthy c = Some k → ref ∈ category_members h k.

(** The Levenshtein distance by its recurrence on the first
    characters. *)
Fixpoint lev (s t : list ascii) : nat :=
  match s with
  | [] => length t
  | a :: s' =>
      (fix lev_s (t : list ascii) : nat :=
         match t with
         | [] => length s
         | b :: t' =>
             Nat.min (Nat.min (lev s' t + 1) (lev_s t' + 1))
                     (lev s' t' + (if Ascii.eqb a b then 0 else 1))
         end) t
  end.

(** One edit: a character is inserted, deleted or replaced. *)
Inductive edit1 : list ascii -> list ascii -> Prop :=
| edit_insert (l1 l2 : list ascii) (x : ascii) :
    edit1 (l1 ++ l2) (l1 ++ x :: l2)
| edit_delete (l1 l2 : list ascii) (x : ascii) :
    edit1 (l1 ++ x :: l2) (l1 ++ l2)
| edit_replace (l1 l2 : list ascii) (x y : ascii) :
    edit1 (l1 ++ x :: l2) (l1 ++ y :: l2).

(** [edits n s t]: [n] edits turn [s] into [t]. *)
Inductive edits : nat -> list ascii -> list ascii -> Prop :=
| edits_none (l : list ascii) : edits 0 l l
| edits_step (n : nat) (l1 l2 l3 : list ascii) :
    edit1 l1 l2 -> edits n l2 l3 -> edits (S n) l1 l3.

(** The row of the table for the characters [u] read so far, the last
    one first: its entry [k] is the distance to the first [k] characters
    of [s2]. *)
Definition table_row (u s2 : list ascii) (m : nat) : list nat :=
  map (λ k, lev u (rev (take k s2))) (seq 0 m).

(** The names a caller may be offered, in the order of the registry. *)
Definition permitted_names (e : env) (h : CommandHandler)
    (jid : option string) : list string :=
  omap (λ entry : string * nat,
          match heap h !! entry.2 with
          | Some c => if permitted (admin c) (is_admin_jid e jid)
                      then Some entry.1 else None
          | None => None
          end)
       (commands h).

(** [s] is the first name of [names] at the least distance from
    [cmd_name]. *)
Definition first_closest (cmd_name : string) (names : list string)
    (s : string) : Prop :=
  ∃ l1 l2,
    names = l1 ++ s :: l2
    ∧ (∀ n, n ∈ l1 → levenshtein_distance cmd_name s
                      < levenshtein_distance cmd_name n)
    ∧ (∀ n, n ∈ l2 → levenshtein_distance cmd_name s
                      ≤ levenshtein_distance cmd_name n).

(** [d'] keeps every true [first_seen] of [d]. *)
Definition keeps_first_seen (d d' : db) : Prop :=
  ∀ key v,
    get d "bot_user_states" key "first_seen" = Some v →
    truthy_str v = true →
    get d' "bot_user_states" key "first_seen" = Some v.

(** A computation all of whose store updates are related by [R]. *)
Definition sql_step {A : Type} (R : db -> db -> Prop) (m : M A) : Prop :=
  ∀ b r b', m b = (r, b') → R (sql b) (sql b').

(** The state of the suggestion loop after the names [names]: nothing
    yet, or the first closest of them with its distance. *)
Definition closest_so_far (cmd_name : string) (names : list string)
    (acc : option string * option nat) : Prop :=
  match acc.2 with
  | None => names = [] ∧ acc.1 = None
  | Some m =>
      ∃ s, acc.1 = Some s ∧ m = levenshtein_distance cmd_name s
           ∧ first_closest cmd_name names s
  end.

(** The guards passed on the way to a handler. *)
Definition allowed (e : env) (muc : option string) (cmd_name : string)
    (c : Command) (jid : option string) : Prop :=
  (admin c = true → is_admin_jid e jid = true)
  ∧ ∀ m, muc = Some m → m ≠ "" →
      mem cmd_name (default [] (muc_list (mucs e) m "disabled_commands")) = false
      ∧ mem (plugin c) (default [] (muc_list (mucs e) m "disabled_plugins")) = false
      ∧ ∀ wl, muc_list (mucs e) m "whitelist_plugins" = Some wl →
              mem (plugin c) wl = true.

(** The sender as [_handle_command] resolves it. *)
Definition sender_jid (e : env) (muc nick jid : option string)
  : option string :=
  if negb (truthy_ostr jid) && truthy_ostr muc && truthy_ostr nick
  then get_jid_from_nick e (fmt muc) (fmt nick)
  else jid.

(** The entry of a user in a mirror. *)
Definition entry_of (user_states : gmap string mirror_val)
    (muc user : string) : option UserState :=
  match user_states !! muc with
  | Some (MRoom users) => users !! user
  | _ => None
  end.

(** The state [_load_user_states] builds from the fields of a key. *)
Definition state_of_fields (fields : gmap string string) : UserState :=
  {| role := default "" (fields !! "role");
     affiliation := default "" (fields !! "affiliation");
     status := default "" (fields !! "status");
     first_seen := PStr (default "" (fields !! "first_seen")) |}.

(** What is true of the result of the loop of [_load_user_states] over
    the keys [m]. *)
Definition loaded (m : gmap string (gmap string string))
    (r : result (gmap string mirror_val)) : Prop :=
  match r with
  | Ok us =>
      (∀ muc s, us !! muc ≠ Some (MScalar s))
      ∧ (∀ key fields muc user,
           m !! key = Some fields → split_once "_" key = [muc; user] →
           entry_of us muc user = Some (state_of_fields fields))
      ∧ (∀ key, is_Some (m !! key) →
                ∃ muc user, split_once "_" key = [muc; user])
      ∧ (∀ muc user, is_Some (entry_of us muc user) →
                     ∃ key, is_Some (m !! key)
                            ∧ split_once "_" key = [muc; user])
  | Raise exn =>
      exn = "ValueError"
      ∧ ∃ key, is_Some (m !! key)
               ∧ ∀ muc user, split_once "_" key ≠ [muc; user]
  end.

(** The key of the user of a presence: the JID when the room shows it,
    the nickname otherwise. *)
Definition presence_user (pr : presence) (nick : string) : string :=
  if truthy_ostr (muc_jid pr) then fmt (muc_jid pr) else nick.

(** The state a presence reports. *)
Definition presence_state (pr : presence) (first_seen : pyval) : UserState :=
  {| role := muc_role pr; affiliation := muc_affiliation pr;
     status := pr_type pr; first_seen := first_seen |}.

(** The bot after the presence of a user that the mirror does not hold. *)
Definition with_new_user (b : Bot) (muc user : string) (pr : presence)
    (now : Q) (users : gmap string UserState) (evs : list event) : Bot :=
  let saved :=
    _save_user_state (sql b) muc user (Some (muc_role pr))
      (Some (muc_affiliation pr)) (Some (pr_type pr)) (Some (int now)) in
  add_trace
    (set_sql
       (set_user_states b
          (<[muc := MRoom (<[user := presence_state pr (PInt (int now))]>
                             users)]> (user_states b)))
       saved.1)
    (saved.2 ++ evs).

End Reference.

Import Commands SQLHandler Bot Reference.
Local Open Scope bot_scope.

(** * Properties *)

(** ** Reactions *)

(** What the fan-out would do for a reaction if it were reached. *)
Example fan_out_of_reaction_reaches_plugin :
  trace (_send_message_to_plugins Scenario.plain_env
           (Scenario.text_message "alice" "m1" "") "reaction"
           Scenario.feeds_bot).2
  = [CallPlugin "feeds" "handle_reaction"].
Proof. vm_compute. reflexivity. Qed.

(** C10: the reaction handler returns at its ignore test, which is the
    truth value of a method object: the bot is left as it was, so no
    plugin handler is called and nothing is logged or sent. *)
Theorem handle_reactions_returns_before_fan_out
    (e : env) (msg : message) (b : Bot) :
  handle_reactions e msg b = (Ok tt, b).
Proof. unfold handle_reactions. simpl. reflexivity. Qed.

(** ** Plugin fan-out *)

(** The option read by the fan-out is not the one a room sets: with no
    option of that spelling the list of disabled plugins is empty. *)
Lemma disabled_plugins_read_from_other_key (e : env) (muc : string) :
  (∀ c, mucs e !! muc = Some c → lists c !! "disabled=_plugins" = None) →
  _get_disabled_plugins_for_muc e muc = [].
Proof.
  intros Hc. unfold _get_disabled_plugins_for_muc, muc_list.
  destruct (mucs e !! muc) as [c|] eqn:Hm; [|reflexivity].
  rewrite (Hc c eq_refl). reflexivity.
Qed.

(** A plugin object is never found in a list of plugin names. *)
Lemma plugin_object_not_in_names (p : Plugin) (names : list string) :
  obj_in (OPlugin p) (map OStr names) = false.
Proof. induction names as [|n names IH]; [reflexivity|exact IH]. Qed.

(** C4 (evaluation at the failing input): in a room whose options list
    [feeds] under [disabled_plugins], a room message and a presence both
    reach the handlers of [feeds]; a presence also reaches them when the
    whitelist of the room does not name [feeds]. *)
Theorem disabled_plugin_is_still_invoked :
  trace (Bot.handle_groupchat_message Scenario.env_feeds_disabled Scenario.ext
           (Scenario.text_message "alice" "m1" "hi") 100
           Scenario.feeds_bot).2
  = [CallPlugin "feeds" "handle_groupchat_message"]
  ∧ trace (handle_groupchat_presence Scenario.env_feeds_disabled Scenario.ext
             (Scenario.alice_presence "participant") 100
             Scenario.feeds_bot).2
    = [CallPlugin "feeds" "handle_room_join"]
  ∧ trace (handle_groupchat_presence Scenario.env_whitelist_other Scenario.ext
             (Scenario.alice_presence "participant") 100
             Scenario.feeds_bot).2
    = [CallPlugin "feeds" "handle_room_join"].
Proof. repeat split; vm_compute; reflexivity. Qed.

(** The trace only grows; the other updates of the bot commute with it. *)
Lemma add_trace_nil (b : Bot) : add_trace b [] = b.
Proof. destruct b. unfold add_trace. simpl. rewrite app_nil_r. reflexivity. Qed.

Lemma add_trace_app (b : Bot) (e1 e2 : list event) :
  add_trace (add_trace b e1) e2 = add_trace b (e1 ++ e2).
Proof. destruct b. unfold add_trace. simpl. rewrite app_assoc. reflexivity. Qed.

(** A loop whose body only appends events appends their concatenation. *)
Lemma for_each_events {A} (l : list A) (body : A -> M unit)
    (f : A -> list event) :
  (∀ x b, body x b = (Ok tt, add_trace b (f x))) →
  ∀ b, for_each l body b = (Ok tt, add_trace b (concat (map f l))).
Proof.
  intros Hbody. induction l as [|x l IH]; intros b; simpl.
  - rewrite add_trace_nil. reflexivity.
  - unfold bind. rewrite Hbody, IH, add_trace_app. reflexivity.
Qed.

Lemma call_plugin_events (plugin : Plugin) (handler_method : string) (b : Bot) :
  call_plugin plugin handler_method b
  = (Ok tt, add_trace b (call_events plugin handler_method)).
Proof.
  unfold call_plugin, call_events, bind, emit, modify, ret.
  destruct (run plugin handler_method); simpl.
  - reflexivity.
  - rewrite add_trace_app. reflexivity.
Qed.


(** With a whitelist in the options of the room, the message fan-out
    calls no handler of a plugin that the whitelist does not name. *)
Lemma whitelist_respected_by_message_fan_out (e : env) (msg : message)
    (message_type : string) (b : Bot) (wl : list string)
    (name method : string) :
  _get_whitelist_plugins_for_muc e (from_bare msg) = Some wl →
  mem name wl = false →
  CallPlugin name method
    ∉ concat (map (fan_out_events e msg message_type) (map snd (plugins b))).
Proof.
  intros Hwl Hname Hin.
  apply list_elem_of_In, in_concat in Hin as (evs & Hevs & Hin).
  apply in_map_iff in Hevs as (plugin & <- & _).
  unfold fan_out_events in Hin. rewrite Hwl in Hin. unfold skipped in Hin.
  destruct (mem (plugin_name plugin) _ || negb (mem (plugin_name plugin) wl))
    eqn:Hskip; [destruct Hin|].
  destruct (mem _ (attrs plugin)); [|destruct Hin].
  assert (Hname' : plugin_name plugin = name).
  { unfold call_events in Hin. destruct Hin as [Heq|Hin].
    - injection Heq as H1 _. exact H1.
    - destruct (run plugin _); simpl in Hin;
        [destruct Hin | destruct Hin as [Heq|Hf]; [discriminate|destruct Hf]]. }
  rewrite Hname', Hname, orb_true_r in Hskip. discriminate.
Qed.

(** ** The user-state mirror *)

(** The presence fan-out always completes and changes nothing but the
    trace. *)
Lemma handle_presence_event_events (event_type muc user : string)
    (pr : presence) (disabled_plugins : list string) (b : Bot) :
  ∃ evs, _handle_presence_event event_type muc user pr disabled_plugins b
         = (Ok tt, add_trace b evs).
Proof.
  unfold _handle_presence_event.
  destruct (dict_get event_type event_handler_map) as [handler_method|].
  - unfold bind, read. eexists.
    apply (for_each_events _ _
             (λ plugin, if mem handler_method (attrs plugin)
                        then call_events plugin handler_method else [])).
    intros plugin b'. rewrite plugin_object_not_in_names.
    destruct (mem _ _).
    + apply call_plugin_events.
    + unfold ret. rewrite add_trace_nil. reflexivity.
  - eexists. reflexivity.
Qed.

(** One detected change: the fan-out, then the write at the top level of
    the mirror, then the write to the store. *)
Lemma change_step_room_entry (event_type key value muc user : string)
    (pr : presence) (dp : list string) (r a s : option string) (b : Bot) :
  ∃ b',
    (do _ <- _handle_presence_event event_type muc user pr dp;
     do _ <- set_top_level key value;
     save_user_state muc user r a s None) b = (Ok tt, b')
    ∧ user_states b' = <[key := MScalar value]> (user_states b).
Proof.
  destruct (handle_presence_event_events event_type muc user pr dp b)
    as [evs Hevs].
  unfold bind. rewrite Hevs. unfold set_top_level, modify, save_user_state.
  destruct (_save_user_state _ _ _ _ _ _ _) as [d evs'] eqn:Hsave.
  eexists. split; [reflexivity|]. reflexivity.
Qed.

(** The changes detected by [_handle_state_changes] never reach the entry
    of the user: the mirror is written at the top-level keys ["role"],
    ["affiliation"] and ["status"] only. *)
Lemma state_changes_leave_the_room_entry (muc user : string) (st : UserState)
    (pr : presence) (dp : list string) (b : Bot) :
  muc ≠ "role" → muc ≠ "affiliation" → muc ≠ "status" →
  ∃ b', _handle_state_changes muc user (Some st) pr dp b = (Ok tt, b')
        ∧ user_states b' !! muc = user_states b !! muc.
Proof.
  intros Hr Ha Hs. unfold _handle_state_changes.
  unfold _handle_role_change, _handle_affiliation_change,
    _handle_status_change.
  assert (H1 : ∃ b1,
    (if negb (String.eqb (muc_role pr) (role st)) then
       do _ <- _handle_presence_event "role_change" muc user pr dp;
       do _ <- set_top_level "role" (muc_role pr);
       save_user_state muc user (Some (muc_role pr)) None None None
     else ret tt) b = (Ok tt, b1)
    ∧ user_states b1 !! muc = user_states b !! muc).
  { destruct (negb (String.eqb (muc_role pr) (role st))).
    - destruct (change_step_room_entry "role_change" "role" (muc_role pr)
                  muc user pr dp (Some (muc_role pr)) None None b)
        as (b1 & Hb1 & Hu).
      exists b1. split; [exact Hb1|]. rewrite Hu.
      apply lookup_insert_ne. congruence.
    - exists b. split; reflexivity. }
  destruct H1 as (b1 & Hb1 & Hu1).
  assert (H2 : ∃ b2,
    (if negb (String.eqb (muc_affiliation pr) (affiliation st)) then
       do _ <- _handle_presence_event "affiliation_change" muc user pr dp;
       do _ <- set_top_level "affiliation" (muc_affiliation pr);
       save_user_state muc user None (Some (muc_affiliation pr)) None None
     else ret tt) b1 = (Ok tt, b2)
    ∧ user_states b2 !! muc = user_states b1 !! muc).
  { destruct (negb (String.eqb (muc_affiliation pr) (affiliation st))).
    - destruct (change_step_room_entry "affiliation_change" "affiliation"
                  (muc_affiliation pr) muc user pr dp None
                  (Some (muc_affiliation pr)) None b1)
        as (b2 & Hb2 & Hu).
      exists b2. split; [exact Hb2|]. rewrite Hu.
      apply lookup_insert_ne. congruence.
    - exists b1. split; reflexivity. }
  destruct H2 as (b2 & Hb2 & Hu2).
  assert (H3 : ∃ b3,
    (if negb (String.eqb (pr_type pr) (status st)) then
       do _ <- _handle_presence_event "status_change" muc user pr dp;
       do _ <- set_top_level "status" (pr_type pr);
       save_user_state muc user None None (Some (pr_type pr)) None
     else ret tt) b2 = (Ok tt, b3)
    ∧ user_states b3 !! muc = user_states b2 !! muc).
  { destruct (negb (String.eqb (pr_type pr) (status st))).
    - destruct (change_step_room_entry "status_change" "status"
                  (pr_type pr) muc user pr dp None None
                  (Some (pr_type pr)) b2)
        as (b3 & Hb3 & Hu).
      exists b3. split; [exact Hb3|]. rewrite Hu.
      apply lookup_insert_ne. congruence.
    - exists b2. split; reflexivity. }
  destruct H3 as (b3 & Hb3 & Hu3).
  exists b3. split.
  - unfold bind at 1. rewrite Hb1. unfold bind at 1. rewrite Hb2. exact Hb3.
  - congruence.
Qed.

(** C3 (evaluation at the failing input): [alice] joins [room] as a
    participant and is then made a moderator.  The store records the new
    role; the entry of [alice] in the mirror keeps the old one, and the new
    role is written under the top-level key ["role"] of the mirror.  A
    mirror reloaded from the store differs from the live one, and a
    repeated presence is reported as one more role change. *)
Theorem role_change_leaves_mirror_stale :
  get (sql Scenario.after_role_change) "bot_user_states"
      (row_key Scenario.room "alice") "role" = Some "moderator"
  ∧ role <$> mirror_entry Scenario.after_role_change
               Scenario.room "alice" = Some "participant"
  ∧ user_states Scenario.after_role_change !! "role"
    = Some (MScalar "moderator")
  ∧ (∃ m users,
       _load_user_states (sql Scenario.after_role_change) = Ok m
       ∧ m !! Scenario.room = Some (MRoom users)
       ∧ role <$> users !! "alice" = Some "moderator")
  ∧ trace Scenario.after_repeat
    = [CallPlugin "feeds" "handle_room_join";
       CallPlugin "feeds" "handle_role_change";
       CallPlugin "feeds" "handle_role_change"].
Proof.
  split; [vm_compute; reflexivity|].
  split; [vm_compute; reflexivity|].
  split; [vm_compute; reflexivity|].
  split; [|vm_compute; reflexivity].
  destruct (_load_user_states (sql Scenario.after_role_change)) as [m|exn]
    eqn:Hload; [|vm_compute in Hload; discriminate].
  destruct (m !! Scenario.room) as [[users|s]|] eqn:Hm.
  - exists m, users. split; [reflexivity|]. split; [exact Hm|].
    assert (Hrole :
      match _load_user_states (sql Scenario.after_role_change) with
      | Ok m => match m !! Scenario.room with
                | Some (MRoom users) => role <$> users !! "alice"
                | _ => None
                end
      | Raise _ => None
      end = Some "moderator") by (vm_compute; reflexivity).
    rewrite Hload, Hm in Hrole. exact Hrole.
  - exfalso.
    assert (Hk :
      match _load_user_states (sql Scenario.after_role_change) with
      | Ok m => match m !! Scenario.room with
                | Some (MRoom _) => true
                | _ => false
                end
      | Raise _ => false
      end = true) by (vm_compute; reflexivity).
    rewrite Hload, Hm in Hk. discriminate.
  - exfalso.
    assert (Hk :
      match _load_user_states (sql Scenario.after_role_change) with
      | Ok m => match m !! Scenario.room with
                | Some (MRoom _) => true
                | _ => false
                end
      | Raise _ => false
      end = true) by (vm_compute; reflexivity).
    rewrite Hload, Hm in Hk. discriminate.
Qed.

(** ** Exceptions of command handlers *)

(** [Command.call] awaits the handler outside any [try]: when the
    cooldown has passed, what the handler raises is what the call
    raises. *)
Lemma call_propagates_handler_exception (h : CommandHandler) (ref : nat)
    (c : Command) (p : command_params) (now : Q) (exn : string) :
  heap h !! ref = Some c →
  Qltb (now - (effective_last_used h c
                 (user_key (p_muc p) (p_nick p) (p_jid p))).2)
       (cooldown c) = false →
  function c p = Raised exn →
  (call h ref p now).2 = Raise exn.
Proof.
  intros Hc Hcool Hf. unfold call. rewrite Hc.
  destruct (effective_last_used h c _) as [cc lut]. simpl in Hcool.
  rewrite Hcool. simpl. rewrite Hf. reflexivity.
Qed.

(** C1 (evaluation at the failing input): the command [boom] is
    registered, enabled and off cooldown, and its handler raises.  The
    dispatch of the room message [".boom"] raises the same exception, and
    so do the room-message and whisper handlers of the bot, which then do
    not reach the plugin fan-out.  Only the private-message path of an
    administrator catches and logs it. *)
Theorem handler_exception_escapes_dispatch :
  (Commands.handle_groupchat_message Scenario.plain_env
     Scenario.boom_handler (Scenario.text_message "alice" "m1" ".boom")
     None 100).2 = Raise "RuntimeError"
  ∧ (Bot.handle_groupchat_message Scenario.plain_env Scenario.ext
       (Scenario.text_message "alice" "m1" ".boom") 100
       Scenario.boom_bot).1 = Raise "RuntimeError"
  ∧ (handle_muc_whisper Scenario.plain_env
       (Scenario.text_message "alice" "m1" ".boom") 100
       Scenario.boom_bot).1 = Raise "RuntimeError"
  ∧ (Bot.handle_private_message Scenario.plain_env Scenario.ext
       (Scenario.private_message "admin@example.org" ".boom") 100
       Scenario.boom_bot).1 = Ok tt
  ∧ last (trace (Bot.handle_private_message Scenario.plain_env Scenario.ext
                   (Scenario.private_message "admin@example.org" ".boom")
                   100 Scenario.boom_bot).2)
    = Some (LogError
              "Error handling private message from admin admin@example.org: RuntimeError").
Proof. repeat split; vm_compute; reflexivity. Qed.

(** ** The history ledger *)

(** A message of the join history that is already stored, and is not a
    correction, changes nothing. *)
Lemma backfill_skips_stored_message (e : env) (x : externals) (muc : string)
    (now : Q) (m : message) (b : Bot) :
  is_Some (get_history_message (sql b) muc (id m)) →
  replace_id m = None →
  process_history_message e x muc now m b = (Ok tt, b).
Proof.
  intros [entry Hentry] Hrep.
  unfold process_history_message, bind, read, try_except.
  rewrite Hentry, Hrep. reflexivity.
Qed.

(** C2 (evaluation at the failing input): the room message [m1] is seen
    live at time 100 and the same message is seen live again at time 200.
    The entry of [m1] is still a single one (four rows under one key), but
    its timestamp is now 200: the second recording wrote it anew.  The
    same message found in the history of a later join is skipped
    instead. *)
Theorem live_replay_overwrites_entry :
  get (sql Scenario.seen_live) "bot_chat_history"
      (row_key Scenario.room "m1") "timestamp" = Some "100"
  ∧ get (sql Scenario.seen_live_twice) "bot_chat_history"
        (row_key Scenario.room "m1") "timestamp" = Some "200"
  ∧ size (table_of (sql Scenario.seen_live_twice) "bot_chat_history") = 4
  ∧ get (sql Scenario.seen_live_then_backfilled) "bot_chat_history"
        (row_key Scenario.room "m1") "timestamp" = Some "100".
Proof. repeat split; vm_compute; reflexivity. Qed.

(** ** The store *)

Lemma get_set (d : db) (pn k f : string) (v : pyval) (pn' k' f' : string) :
  get (set d pn k f v) pn' k' f'
  = if decide (pn = pn' ∧ k = k' ∧ f = f') then Some (str v)
    else get d pn' k' f'.
Proof.
  unfold get, set, table_of.
  destruct (decide (pn = pn')) as [->|Hpn].
  - rewrite lookup_insert_eq. simpl.
    destruct (decide ((k, f) = (k', f'))) as [Heq|Hne].
    + injection Heq as -> ->. rewrite lookup_insert_eq.
      rewrite decide_True by done. reflexivity.
    + rewrite lookup_insert_ne by exact Hne.
      rewrite decide_False; [reflexivity|].
      intros (_ & -> & ->). apply Hne. reflexivity.
  - rewrite lookup_insert_ne by exact Hpn.
    rewrite decide_False; [reflexivity|]. intros (-> & _). apply Hpn. reflexivity.
Qed.

Lemma get_set_eq (d : db) (pn k f : string) (v : pyval) :
  get (set d pn k f v) pn k f = Some (str v).
Proof. rewrite get_set, decide_True by done. reflexivity. Qed.

Lemma get_set_other_field (d : db) (pn k f : string) (v : pyval)
    (pn' k' f' : string) :
  f ≠ f' → get (set d pn k f v) pn' k' f' = get d pn' k' f'.
Proof.
  intros Hf. rewrite get_set, decide_False; [reflexivity|].
  intros (_ & _ & ->). apply Hf. reflexivity.
Qed.

Lemma get_delete_other_table (d : db) (pn k : string) (fld : option string)
    (pn' k' f' : string) :
  pn ≠ pn' → get (delete d pn k fld) pn' k' f' = get d pn' k' f'.
Proof.
  intros Hpn. unfold get, delete, table_of.
  destruct (truthy_ostr fld); rewrite lookup_insert_ne by exact Hpn;
    reflexivity.
Qed.

(** The fields of a key, as [get_all_fields] collects them, are the rows
    of that key. *)
Lemma get_all_fields_lookup (d : db) (pn k f : string) :
  get_all_fields d pn k !! f = get d pn k f.
Proof.
  unfold get_all_fields, get, by_key.
  rewrite <- (lookup_map_curry (M1 := gmap string) (M2 := gmap string)
                (table_of d pn) k f).
  destruct (map_curry (table_of d pn) !! k); reflexivity.
Qed.

(** An entry that has a timestamp is fetched with all its fields. *)
Lemma get_history_message_lookup (d : db) (muc message_id : string)
    (ts : string) :
  get d "bot_chat_history" (row_key muc message_id) "timestamp" = Some ts →
  ∃ entry, get_history_message d muc message_id = Some entry
           ∧ ∀ f, entry !! f
                  = get d "bot_chat_history" (row_key muc message_id) f.
Proof.
  intros Hts. unfold get_history_message. rewrite Hts.
  eexists. split; [reflexivity|]. intros f.
  rewrite map_lookup_imap, get_all_fields_lookup.
  destruct (get d "bot_chat_history" (row_key muc message_id) f) eqn:Hf;
    reflexivity.
Qed.

Lemma get_history_message_unseen (d : db) (muc message_id : string) :
  get d "bot_chat_history" (row_key muc message_id) "timestamp" = None →
  get_history_message d muc message_id = None.
Proof. intros Hts. unfold get_history_message. rewrite Hts. reflexivity. Qed.

(** [str] of an integer is never the empty string, so a stored
    timestamp is a true value. *)
Lemma pretty_N_go_length (x : N) (s : string) :
  String.length s ≤ String.length (pretty_N_go x s).
Proof.
  revert s. induction (N.lt_wf_0 x) as [x _ IH]. intros s.
  destruct (decide (x = 0%N)) as [->|Hx].
  - rewrite pretty_N_go_0. lia.
  - rewrite pretty_N_go_step by lia.
    etrans; [|apply IH; apply N.div_lt; lia]. simpl. lia.
Qed.

Lemma pretty_N_nonempty (x : N) : pretty x ≠ "".
Proof.
  unfold pretty, pretty_N. destruct (decide (x = 0%N)) as [->|Hx]; [done|].
  rewrite pretty_N_go_step by lia. intros Hempty.
  pose proof (pretty_N_go_length (x `div` 10)%N
                (String (pretty_N_char (x `mod` 10)%N) "")) as Hlen.
  rewrite Hempty in Hlen. simpl in Hlen. lia.
Qed.

Lemma pretty_Z_truthy (z : Z) : truthy_str (pretty z) = true.
Proof.
  unfold truthy_str. apply negb_true_iff. apply String.eqb_neq.
  destruct z as [|p|p]; unfold pretty, pretty_Z.
  - discriminate.
  - apply pretty_N_nonempty.
  - discriminate.
Qed.

(** ** Write-once [first_seen] *)

Lemma keeps_first_seen_refl (d : db) : keeps_first_seen d d.
Proof. intros key v H _. exact H. Qed.

Lemma keeps_first_seen_trans (d1 d2 d3 : db) :
  keeps_first_seen d1 d2 → keeps_first_seen d2 d3 → keeps_first_seen d1 d3.
Proof. intros H12 H23 key v H Hv. apply H23; [apply H12|]; assumption. Qed.

Lemma keeps_first_seen_set_other (d : db) (pn k f : string) (v : pyval) :
  f ≠ "first_seen" → keeps_first_seen d (set d pn k f v).
Proof.
  intros Hf key w H _. rewrite get_set_other_field by exact Hf. exact H.
Qed.

(** [_save_user_state] keeps every true [first_seen], of the user it
    saves and of all others. *)
Lemma save_user_state_keeps_first_seen (d : db) (muc user : string)
    (r a s : option string) (fs : option Z) :
  keeps_first_seen d (_save_user_state d muc user r a s fs).1.
Proof.
  unfold _save_user_state.
  set (d1 := if truthy_ostr r then set d _ _ "role" _ else d).
  set (d2 := if truthy_ostr a then set d1 _ _ "affiliation" _ else d1).
  set (d3 := if truthy_ostr s then set d2 _ _ "status" _ else d2).
  assert (H3 : keeps_first_seen d d3).
  { apply keeps_first_seen_trans with d2;
      [apply keeps_first_seen_trans with d1|].
    - subst d1. destruct (truthy_ostr r);
        [apply keeps_first_seen_set_other; discriminate
        |apply keeps_first_seen_refl].
    - subst d2. destruct (truthy_ostr a);
        [apply keeps_first_seen_set_other; discriminate
        |apply keeps_first_seen_refl].
    - subst d3. destruct (truthy_ostr s);
        [apply keeps_first_seen_set_other; discriminate
        |apply keeps_first_seen_refl]. }
  destruct fs as [fs|]; [|exact H3].
  destruct (truthy (PInt fs)); [|exact H3].
  destruct (truthy_ostr (get d3 "bot_user_states" (row_key muc user)
                           "first_seen")) eqn:Hstored; [exact H3|].
  intros key v H Hv. simpl. rewrite get_set.
  destruct (decide _) as [(_ & <- & _)|_].
  - pose proof (H3 _ _ H Hv) as H'. rewrite H' in Hstored.
    simpl in Hstored. congruence.
  - apply H3; assumption.
Qed.

(** A second attempt to set [first_seen] is answered by the warning. *)
Lemma save_user_state_warns (d : db) (muc user : string)
    (r a s : option string) (fs : Z) (v : string) :
  get d "bot_user_states" (row_key muc user) "first_seen" = Some v →
  truthy_str v = true →
  fs ≠ 0%Z →
  (_save_user_state d muc user r a s (Some fs)).2
  = [LogWarning ("Blocked attempt to overwrite first_seen for "
                 +:+ row_key muc user +:+ ". This shouldn't be happening.")].
Proof.
  intros H Hv Hfs. unfold _save_user_state.
  set (d1 := if truthy_ostr r then set d _ _ "role" _ else d).
  set (d2 := if truthy_ostr a then set d1 _ _ "affiliation" _ else d1).
  set (d3 := if truthy_ostr s then set d2 _ _ "status" _ else d2).
  assert (H3 : get d3 "bot_user_states" (row_key muc user) "first_seen"
               = Some v).
  { subst d3 d2 d1.
    destruct (truthy_ostr s), (truthy_ostr a), (truthy_ostr r);
      rewrite ?get_set_other_field by discriminate; exact H. }
  rewrite H3. simpl. rewrite Hv.
  destruct (Z.eqb_spec fs 0) as [->|_]; [contradiction|]. reflexivity.
Qed.

Section SqlStep.

Variable R : db -> db -> Prop.
Hypothesis R_refl : ∀ d, R d d.
Hypothesis R_trans : ∀ d1 d2 d3, R d1 d2 → R d2 d3 → R d1 d3.

Lemma step_ret {A : Type} (a : A) : sql_step R (ret a).
Proof. intros b r b' [= <- <-]. apply R_refl. Qed.

Lemma step_raise {A : Type} (exn : string) : sql_step R (raise (A := A) exn).
Proof. intros b r b' [= <- <-]. apply R_refl. Qed.

Lemma step_read {A : Type} (f : Bot -> A) : sql_step R (read f).
Proof. intros b r b' [= <- <-]. apply R_refl. Qed.

Lemma step_modify (f : Bot -> Bot) :
  (∀ b, R (sql b) (sql (f b))) → sql_step R (modify f).
Proof. intros Hf b r b' [= <- <-]. apply Hf. Qed.

Lemma step_emit (evs : list event) : sql_step R (emit evs).
Proof. apply step_modify. intros b. apply R_refl. Qed.

Lemma step_bind {A B : Type} (m : M A) (f : A -> M B) :
  sql_step R m → (∀ a, sql_step R (f a)) → sql_step R (bind m f).
Proof.
  intros Hm Hf b r b' Hrun. unfold bind in Hrun.
  destruct (m b) as [[a|exn] b1] eqn:Hmb.
  - eapply R_trans; [eapply Hm, Hmb|eapply Hf, Hrun].
  - injection Hrun as <- <-. eapply Hm, Hmb.
Qed.

Lemma step_try (m : M unit) (handler : string -> M unit) :
  sql_step R m → (∀ exn, sql_step R (handler exn)) →
  sql_step R (try_except m handler).
Proof.
  intros Hm Hh b r b' Hrun. unfold try_except in Hrun.
  destruct (m b) as [[a|exn] b1] eqn:Hmb.
  - injection Hrun as <- <-. eapply Hm, Hmb.
  - eapply R_trans; [eapply Hm, Hmb|eapply Hh, Hrun].
Qed.

Lemma step_for_each {A : Type} (l : list A) (body : A -> M unit) :
  (∀ x, sql_step R (body x)) → sql_step R (for_each l body).
Proof.
  intros Hbody. induction l as [|x l IH]; simpl.
  - apply step_ret.
  - apply step_bind; [apply Hbody|intros _; exact IH].
Qed.

Lemma step_update_sql (f : db -> db) :
  (∀ d, R d (f d)) → sql_step R (update_sql f).
Proof. intros Hf. apply step_modify. intros b. apply Hf. Qed.

Lemma step_call_plugin (plugin : Plugin) (handler_method : string) :
  sql_step R (call_plugin plugin handler_method).
Proof.
  unfold call_plugin. apply step_bind; [apply step_emit|intros _].
  destruct (run plugin handler_method); [apply step_ret|apply step_emit].
Qed.

Lemma step_handle_presence_event (event_type muc user : string)
    (pr : presence) (dp : list string) :
  sql_step R (_handle_presence_event event_type muc user pr dp).
Proof.
  unfold _handle_presence_event.
  destruct (dict_get event_type event_handler_map); [|apply step_emit].
  apply step_bind; [apply step_read|intros ps].
  apply step_for_each. intros plugin.
  destruct (obj_in _ _); [apply step_ret|].
  destruct (mem _ _); [apply step_call_plugin|apply step_ret].
Qed.

End SqlStep.

Lemma step_save_user_state (muc user : string) (r a s : option string)
    (fs : option Z) :
  sql_step keeps_first_seen (save_user_state muc user r a s fs).
Proof.
  intros b res b' Hrun. unfold save_user_state in Hrun.
  pose proof (save_user_state_keeps_first_seen (sql b) muc user r a s fs)
    as Hkeep.
  destruct (_save_user_state (sql b) muc user r a s fs) as [d evs].
  injection Hrun as <- <-. exact Hkeep.
Qed.

Ltac first_seen_step :=
  first
    [ apply (step_handle_presence_event keeps_first_seen
               keeps_first_seen_refl keeps_first_seen_trans)
    | apply step_save_user_state
    | apply (step_ret keeps_first_seen keeps_first_seen_refl)
    | apply (step_raise keeps_first_seen keeps_first_seen_refl)
    | apply (step_read keeps_first_seen keeps_first_seen_refl)
    | apply (step_emit keeps_first_seen keeps_first_seen_refl)
    | apply (step_modify keeps_first_seen); intros ?;
      repeat case_match; apply keeps_first_seen_refl
    | apply (step_bind keeps_first_seen keeps_first_seen_trans); [|intros ?] ].

Lemma step_handle_state_changes (muc user : string)
    (user_state : option UserState) (pr : presence) (dp : list string) :
  sql_step keeps_first_seen (_handle_state_changes muc user user_state pr dp).
Proof.
  unfold _handle_state_changes, _handle_role_change,
    _handle_affiliation_change, _handle_status_change, set_top_level.
  destruct user_state as [st|]; [|first_seen_step].
  repeat (first_seen_step || case_match).
Qed.

Lemma step_room_states (muc : string) :
  sql_step keeps_first_seen (room_states muc).
Proof.
  intros b r b' Hrun. unfold room_states in Hrun.
  repeat case_match; injection Hrun as <- <-; apply keeps_first_seen_refl.
Qed.

Lemma step_delete_other_table (pn key : string) (fld : option string) :
  pn ≠ "bot_user_states" →
  sql_step keeps_first_seen (update_sql (λ d, delete d pn key fld)).
Proof.
  intros Hpn. apply (step_update_sql keeps_first_seen). intros d k v H _.
  rewrite get_delete_other_table by exact Hpn. exact H.
Qed.

Ltac set_other_fields :=
  cbv zeta;
  repeat (eapply keeps_first_seen_trans;
            [|apply keeps_first_seen_set_other; discriminate]);
  apply keeps_first_seen_refl.

(** The history ledger is written in fields other than [first_seen]. *)
Lemma store_chat_history_keeps_first_seen (e : env) (d : db)
    (muc nick message_id : string) (stanza_id : option string)
    (body : string) (now : Q) :
  keeps_first_seen d
    (_store_chat_history e d muc nick message_id stanza_id body now).
Proof.
  unfold _store_chat_history.
  destruct (get_jid_from_nick e muc nick); set_other_fields.
Qed.

Lemma store_correction_history_keeps_first_seen (x : externals) (d d' : db)
    (muc nick message_id replace_id : string) (stanza_id : option string)
    (body : string) (now : Q) :
  _store_correction_history x d muc nick message_id replace_id stanza_id
    body now = Ok d' →
  keeps_first_seen d d'.
Proof.
  unfold _store_correction_history.
  destruct (json_loads x _); [|discriminate].
  intros [= <-]. set_other_fields.
Qed.

Lemma step_process_history_message (e : env) (x : externals) (muc : string)
    (now : Q) (message : message) :
  sql_step keeps_first_seen (process_history_message e x muc now message).
Proof.
  unfold process_history_message.
  apply (step_bind keeps_first_seen keeps_first_seen_trans);
    [apply (step_read keeps_first_seen keeps_first_seen_refl)
    |intros stored_message].
  apply (step_try keeps_first_seen keeps_first_seen_trans).
  - apply (step_bind keeps_first_seen keeps_first_seen_trans).
    + destruct stored_message;
        [apply (step_ret keeps_first_seen keeps_first_seen_refl)|].
      apply (step_update_sql keeps_first_seen). intros d.
      apply store_chat_history_keeps_first_seen.
    + intros _. destruct (replace_id message) as [rid|];
        [|apply (step_ret keeps_first_seen keeps_first_seen_refl)].
      intros b r b' Hrun. unfold update_sql_result in Hrun.
      destruct (_store_correction_history _ _ _ _ _ _ _ _ _) as [d'|exn]
        eqn:Hstore; injection Hrun as <- <-.
      * exact (store_correction_history_keeps_first_seen _ _ _ _ _ _ _ _ _ _
                 Hstore).
      * apply keeps_first_seen_refl.
  - intros exn. destruct (String.eqb exn "KeyError");
      [apply (step_emit keeps_first_seen keeps_first_seen_refl)
      |apply (step_raise keeps_first_seen keeps_first_seen_refl)].
Qed.

Lemma step_add_muc_to_joined_list (muc : string) :
  sql_step keeps_first_seen (_add_muc_to_joined_list muc).
Proof.
  apply (step_modify keeps_first_seen). intros b.
  destruct (mem muc (joined_mucs b)); apply keeps_first_seen_refl.
Qed.

(** The rejoin that the handler of the bot's own presence awaits writes
    the history ledger only. *)
Lemma step_await_join_muc (e : env) (x : externals) (muc : string)
    (nick : option string) (now : Q) :
  sql_step keeps_first_seen (await_join_muc e x muc nick now).
Proof.
  unfold await_join_muc, _join_muc_with_plugin, _process_chat_history.
  apply (step_try keeps_first_seen keeps_first_seen_trans);
    [|intros exn; apply (step_emit keeps_first_seen keeps_first_seen_refl)].
  apply (step_bind keeps_first_seen keeps_first_seen_trans).
  - apply (step_bind keeps_first_seen keeps_first_seen_trans);
      [apply (step_emit keeps_first_seen keeps_first_seen_refl)|intros _].
    destruct (join_muc_wait x muc nick);
      [apply (step_ret keeps_first_seen keeps_first_seen_refl)
      |apply (step_raise keeps_first_seen keeps_first_seen_refl)].
  - intros history.
    apply (step_bind keeps_first_seen keeps_first_seen_trans);
      [|intros _; apply step_add_muc_to_joined_list].
    apply (step_for_each keeps_first_seen keeps_first_seen_refl
             keeps_first_seen_trans).
    intros message. apply step_process_history_message.
Qed.

Ltac presence_step :=
  first
    [ apply step_handle_state_changes
    | apply step_room_states
    | apply step_await_join_muc
    | apply step_delete_other_table; discriminate
    | first_seen_step ].

(** No presence changes a true [first_seen] of the store, whatever the
    presence is about: a join, a change of nickname, a change of role,
    affiliation or status, or the bot itself, the rejoin that it awaits
    included. *)
Lemma presence_keeps_first_seen (e : env) (x : externals) (pr : presence)
    (now : Q) :
  sql_step keeps_first_seen (handle_groupchat_presence e x pr now).
Proof.
  unfold handle_groupchat_presence.
  apply (step_try keeps_first_seen keeps_first_seen_trans);
    [|intros exn; first_seen_step].
  unfold presence_body, own_presence, set_room_states, _handle_room_join.
  repeat (presence_step || case_match).
Qed.

Lemma save_user_state_run (muc user : string) (r a s : option string)
    (fs : option Z) (b : Bot) :
  ∃ b', save_user_state muc user r a s fs b = (Ok tt, b')
        ∧ user_states b' = user_states b.
Proof.
  unfold save_user_state.
  destruct (_save_user_state (sql b) muc user r a s fs) as [d evs].
  eexists. split; reflexivity.
Qed.

(** A change of nickname, seen without the JID of the user, moves the
    entry of the mirror to the new nickname as it is, [first_seen]
    included. *)
Lemma nick_change_rekeys_mirror (e : env) (x : externals) (pr : presence)
    (now : Q) (b : Bot)
    (muc nick newnick : string) (rest : list string)
    (users : gmap string UserState) (st : UserState) :
  split_on "/" (pr_from pr) = muc :: nick :: rest →
  muc_nick pr = newnick → newnick ≠ nick → newnick ≠ "" →
  muc_jid pr = None →
  user_states b !! muc = Some (MRoom users) →
  users !! nick = Some st →
  muc ≠ "role" → muc ≠ "affiliation" → muc ≠ "status" →
  ∃ b', handle_groupchat_presence e x pr now b = (Ok tt, b')
        ∧ user_states b' !! muc
          = Some (MRoom (<[newnick := st]> (base.delete nick users))).
Proof.
  intros Hsplit Hnew Hne Hnonempty Hjid Hroom Hst Hr Ha Hs.
  unfold handle_groupchat_presence, try_except, presence_body.
  rewrite Hsplit, Hjid, Hnew. simpl.
  assert (Hneq : String.eqb newnick nick = false)
    by (apply String.eqb_neq; exact Hne).
  assert (Htruthy : truthy_str newnick = true).
  { unfold truthy_str. apply negb_true_iff, String.eqb_neq. exact Hnonempty. }
  rewrite Hneq. simpl. rewrite Htruthy. simpl.
  unfold bind at 1. unfold modify at 1. rewrite Hroom.
  unfold bind at 1. unfold room_states at 1. rewrite Hroom.
  rewrite Hst.
  unfold bind at 1. unfold bind at 1. unfold bind at 1.
  unfold set_room_states at 1, modify at 1.
  unfold bind at 1. unfold update_sql at 1, modify at 1.
  match goal with
  | |- context [save_user_state ?m ?u ?r ?a ?s ?f ?b0] =>
      destruct (save_user_state_run m u r a s f b0) as (b1 & Hb1 & Hu1);
      rewrite Hb1
  end.
  unfold ret at 1.
  unfold bind at 1. unfold room_states at 1.
  simpl in Hu1. rewrite Hu1, lookup_insert_eq, lookup_insert_eq.
  destruct (state_changes_leave_the_room_entry muc newnick st pr
              (default [] (muc_list (mucs e) muc "disabled_plugins")) b1
              Hr Ha Hs) as (b2 & Hb2 & Hu2).
  rewrite Hb2. exists b2. split; [reflexivity|].
  rewrite Hu2, Hu1. apply lookup_insert_eq.
Qed.

(** C8 (evaluation at the failing input): [alice] joins [room] at 100,
    which stores her [first_seen], and at 500 her nickname changes to
    [alicia], her JID not visible.  The handler returns and moves her
    entry of the mirror, [first_seen] included, to [alicia].  In the store
    nothing is moved: the delete addresses the table [user_states] with
    the bare nickname and the state is saved again under the old key, so
    the store holds no [first_seen] for [alicia], whose only row is the
    status written after the change, and keeps 100 under [alice].  A
    mirror reloaded from the store gives [alicia] the [first_seen] [""]
    and still knows [alice].  When a newcomer then joins as [alice] at
    700, the stale row makes the join a second attempt: the warning is
    logged and the stored 100 stays, while the role, affiliation and
    status of the call are written and the mirror takes 700. *)
Theorem nick_change_loses_stored_first_seen :
  get (sql Scenario.after_join) "bot_user_states"
      (row_key Scenario.room "alice") "first_seen" = Some "100"
  ∧ (handle_groupchat_presence Scenario.plain_env Scenario.ext
       Scenario.alice_renamed 500 Scenario.after_join).1 = Ok tt
  ∧ mirror_entry Scenario.after_rename Scenario.room "alicia"
    = Some {| role := "participant"; affiliation := "member";
              status := "available"; first_seen := PInt 100 |}
  ∧ mirror_entry Scenario.after_rename Scenario.room "alice" = None
  ∧ get (sql Scenario.after_rename) "bot_user_states"
        (row_key Scenario.room "alicia") "first_seen" = None
  ∧ get_all_fields (sql Scenario.after_rename) "bot_user_states"
        (row_key Scenario.room "alicia")
    = {[ "status" := "unavailable" ]}
  ∧ get (sql Scenario.after_rename) "bot_user_states"
        (row_key Scenario.room "alice") "first_seen" = Some "100"
  ∧ get_all_keys (sql Scenario.after_rename) "user_states" = ∅
  ∧ (∃ m,
       _load_user_states (sql Scenario.after_rename) = Ok m
       ∧ first_seen <$> entry_of m Scenario.room "alicia" = Some (PStr "")
       ∧ first_seen <$> entry_of m Scenario.room "alice"
         = Some (PStr "100"))
  ∧ trace Scenario.after_namesake
    = trace Scenario.after_rename
      ++ [LogWarning ("Blocked attempt to overwrite first_seen for "
                      +:+ row_key Scenario.room "alice"
                      +:+ ". This shouldn't be happening.");
          CallPlugin "feeds" "handle_room_join"]
  ∧ get (sql Scenario.after_namesake) "bot_user_states"
        (row_key Scenario.room "alice") "first_seen" = Some "100"
  ∧ get (sql Scenario.after_rename) "bot_user_states"
        (row_key Scenario.room "alice") "role" = Some "participant"
  ∧ get (sql Scenario.after_namesake) "bot_user_states"
        (row_key Scenario.room "alice") "role" = Some "visitor"
  ∧ first_seen <$> mirror_entry Scenario.after_namesake Scenario.room "alice"
    = Some (PInt 700).
Proof.
  repeat (split; [vm_compute; reflexivity|]).
  split; [|repeat (split; [vm_compute; reflexivity|]); vm_compute; reflexivity].
  destruct (_load_user_states (sql Scenario.after_rename)) as [m|exn]
    eqn:Hload; [|vm_compute in Hload; discriminate].
  exists m. split; [reflexivity|].
  assert (Hentries :
    match _load_user_states (sql Scenario.after_rename) with
    | Ok m => (first_seen <$> entry_of m Scenario.room "alicia",
               first_seen <$> entry_of m Scenario.room "alice")
    | Raise _ => (None, None)
    end = (Some (PStr ""), Some (PStr "100"))) by (vm_compute; reflexivity).
  rewrite Hload in Hentries. injection Hentries as -> ->.
  split; reflexivity.
Qed.

(** ** Recording and correcting a message *)

(** The rows of an entry after [_store_chat_history]. *)
Lemma store_chat_history_get (e : env) (d : db) (muc nick message_id : string)
    (stanza_id : option string) (body : string) (now : Q) (f : string) :
  get (_store_chat_history e d muc nick message_id stanza_id body now)
      "bot_chat_history" (row_key muc message_id) f
  = if decide (f = "timestamp") then Some (pretty (int now))
    else if decide (f = "body") then Some body
    else if decide (f = "stanza_id") then Some (str (opt_val stanza_id))
    else if decide (f = "nick") then Some nick
    else if decide (f = "jid") then
           match get_jid_from_nick e muc nick with
           | Some j => Some j
           | None => get d "bot_chat_history" (row_key muc message_id) f
           end
    else get d "bot_chat_history" (row_key muc message_id) f.
Proof.
  unfold _store_chat_history.
  destruct (get_jid_from_nick e muc nick) as [j|]; rewrite !get_set;
    repeat (destruct (decide (f = _)) as [->|?]);
    repeat first
      [ rewrite decide_True by done
      | rewrite decide_False by (intros (_ & _ & ?); congruence) ];
    reflexivity.
Qed.

(** What a correction does to an entry whose edit history reads as
    [history]. *)
Lemma store_correction_history_run (x : externals) (d : db)
    (muc nick message_id replace_id : string) (stanza_id : option string)
    (body : string) (now : Q) (history : jdict) :
  json_loads x
    (fmt (or_ostr (get d "bot_chat_history" (row_key muc replace_id)
                     "edit_history") (Some "{}")))
  = Some history →
  ∃ d',
    _store_correction_history x d muc nick message_id replace_id stanza_id
      body now = Ok d'
    ∧ ∀ f,
        get d' "bot_chat_history" (row_key muc replace_id) f
        = if decide (f = "edit_history") then
            Some (json_dumps x
                    (dict_set
                       (or_ostr
                          (get d "bot_chat_history" (row_key muc replace_id)
                             "edit_timestamp")
                          (get d "bot_chat_history" (row_key muc replace_id)
                             "timestamp"))
                       (get d "bot_chat_history" (row_key muc replace_id)
                          "body")
                       history))
          else if decide (f = "edit_timestamp") then Some (pretty (int now))
          else if decide (f = "body") then Some body
          else get d "bot_chat_history" (row_key muc replace_id) f.
Proof.
  intros Hloads. unfold _store_correction_history. rewrite Hloads.
  eexists. split; [reflexivity|]. intros f. rewrite !get_set.
  repeat (destruct (decide (f = _)) as [->|?]);
    repeat first
      [ rewrite decide_True by done
      | rewrite decide_False by (intros (_ & _ & ?); congruence) ];
    reflexivity.
Qed.

(** C9: a message that was not stored before is recorded with [body] at
    time [t0] and corrected to [new_body] at time [t1].  The entry then
    reads: body [new_body], the timestamp of the recording, edit timestamp
    [t1], and an edit history of exactly one pair, from the timestamp of
    the recording to [body].  A further correction files [new_body] under
    the edit timestamp [t1].  The JSON codec is assumed to read the empty
    object, to write a text that is not empty, and to read back the
    one-pair object it wrote. *)
Theorem correction_round_trip (e : env) (x : externals) (d : db)
    (muc nick message_id : string) (stanza_id : option string)
    (body new_body third_body : string) (t0 t1 t2 : Q) :
  (∀ f, get d "bot_chat_history" (row_key muc message_id) f = None) →
  json_loads x "{}" = Some [] →
  json_dumps x [(Some (pretty (int t0)), Some body)] ≠ "" →
  json_loads x (json_dumps x [(Some (pretty (int t0)), Some body)])
  = Some [(Some (pretty (int t0)), Some body)] →
  ∃ d2 entry d3,
    _store_correction_history x
      (_store_chat_history e d muc nick message_id stanza_id body t0)
      muc nick message_id message_id stanza_id new_body t1 = Ok d2
    ∧ get_history_message d2 muc message_id = Some entry
    ∧ entry !! "body" = Some new_body
    ∧ entry !! "timestamp" = Some (pretty (int t0))
    ∧ entry !! "edit_timestamp" = Some (pretty (int t1))
    ∧ (entry !! "edit_history") ≫= json_loads x
      = Some [(Some (pretty (int t0)), Some body)]
    ∧ _store_correction_history x d2 muc nick message_id message_id
        stanza_id third_body t2 = Ok d3
    ∧ get d3 "bot_chat_history" (row_key muc message_id) "edit_history"
      = Some (json_dumps x
                (dict_set (Some (pretty (int t1))) (Some new_body)
                   [(Some (pretty (int t0)), Some body)])).
Proof.
  intros Hunseen Hempty Hdump Hround.
  set (d1 := _store_chat_history e d muc nick message_id stanza_id body t0).
  assert (Hget1 : ∀ f, get d1 "bot_chat_history" (row_key muc message_id) f
                       = _) by (intros f; apply store_chat_history_get).
  destruct (store_correction_history_run x d1 muc nick message_id message_id
              stanza_id new_body t1 [])
    as (d2 & Hrun2 & Hget2).
  { rewrite Hget1. simpl. rewrite Hunseen. exact Hempty. }
  assert (Hbody2 : get d2 "bot_chat_history" (row_key muc message_id) "body"
                   = Some new_body) by (rewrite Hget2; reflexivity).
  assert (Hts2 : get d2 "bot_chat_history" (row_key muc message_id)
                   "timestamp" = Some (pretty (int t0)))
    by (rewrite Hget2; simpl; rewrite Hget1; reflexivity).
  assert (Hets2 : get d2 "bot_chat_history" (row_key muc message_id)
                    "edit_timestamp" = Some (pretty (int t1)))
    by (rewrite Hget2; reflexivity).
  assert (Heh2 : get d2 "bot_chat_history" (row_key muc message_id)
                   "edit_history"
                 = Some (json_dumps x [(Some (pretty (int t0)), Some body)])).
  { rewrite Hget2. simpl. rewrite !Hget1. simpl. rewrite Hunseen.
    reflexivity. }
  destruct (get_history_message_lookup d2 muc message_id _ Hts2)
    as (entry & Hentry & Hfields).
  destruct (store_correction_history_run x d2 muc nick message_id message_id
              stanza_id third_body t2 [(Some (pretty (int t0)), Some body)])
    as (d3 & Hrun3 & Hget3).
  { rewrite Heh2. unfold or_ostr. simpl.
    assert (Hd : truthy_str
                   (json_dumps x [(Some (pretty (int t0)), Some body)])
                 = true).
    { unfold truthy_str. apply negb_true_iff, String.eqb_neq. exact Hdump. }
    rewrite Hd. simpl. exact Hround. }
  exists d2, entry, d3.
  repeat split; try assumption.
  - rewrite Hfields. exact Hbody2.
  - rewrite Hfields. exact Hts2.
  - rewrite Hfields. exact Hets2.
  - rewrite Hfields, Heh2. simpl. exact Hround.
  - rewrite Hget3. simpl. rewrite Hets2, Hbody2. unfold or_ostr. simpl.
    rewrite pretty_Z_truthy. reflexivity.
Qed.

(** The round trip of the specification: [m1] recorded as ["hello"] at
    time 100 in an empty store, corrected to ["hello world"] at time 160,
    then once more at time 220, with the JSON codec of this file. *)
Lemma correction_round_trip_witness :
  ∃ d2 entry d3,
    _store_correction_history Scenario.ext
      (_store_chat_history Scenario.plain_env ∅ Scenario.room "alice" "m1"
         (Some "s1") "hello" 100)
      Scenario.room "alice" "m1" "m1" (Some "s1") "hello world" 160 = Ok d2
    ∧ get_history_message d2 Scenario.room "m1" = Some entry
    ∧ entry !! "body" = Some "hello world"
    ∧ entry !! "timestamp" = Some (pretty (int 100))
    ∧ entry !! "edit_timestamp" = Some (pretty (int 160))
    ∧ (entry !! "edit_history") ≫= json_loads Scenario.ext
      = Some [(Some (pretty (int 100)), Some "hello")]
    ∧ _store_correction_history Scenario.ext d2 Scenario.room "alice" "m1"
        "m1" (Some "s1") "hello world!" 220 = Ok d3
    ∧ get d3 "bot_chat_history" (row_key Scenario.room "m1") "edit_history"
      = Some (json_dumps Scenario.ext
                (dict_set (Some (pretty (int 160))) (Some "hello world")
                   [(Some (pretty (int 100)), Some "hello")])).
Proof.
  apply (correction_round_trip Scenario.plain_env Scenario.ext ∅
           Scenario.room "alice" "m1" (Some "s1") "hello" "hello world"
           "hello world!" 100 160 220).
  - intros f. reflexivity.
  - vm_compute. reflexivity.
  - vm_compute. discriminate.
  - vm_compute. reflexivity.
Defined.

(** ** Cooldowns *)

Lemma Qltb_true (a b : Q) : Qltb a b = true ↔ (a < b)%Q.
Proof.
  unfold Qltb. rewrite negb_true_iff. split.
  - intros H. apply Qnot_le_lt. intros Hle.
    apply Qle_bool_iff in Hle. congruence.
  - intros H. destruct (Qle_bool b a) eqn:Hle; [|reflexivity].
    apply Qle_bool_iff in Hle. exfalso. exact (Qlt_not_le _ _ H Hle).
Qed.

Lemma Qltb_false (a b : Q) : Qltb a b = false ↔ (b <= a)%Q.
Proof.
  unfold Qltb. rewrite negb_false_iff. apply Qle_bool_iff.
Qed.

(** [int] of a float that is not negative is its floor. *)
Lemma int_floor (x : Q) : (0 <= x)%Q → int x = Qfloor x.
Proof.
  destruct x as [n d]. unfold Qle, int, Qfloor. simpl. intros Hn.
  apply Z.quot_div_nonneg; lia.
Qed.

(** The ceiling is the floor for a whole number and one more otherwise. *)
Lemma ceiling_floor (x : Q) :
  (inject_Z (Qfloor x) == x ∧ Qceiling x = Qfloor x)%Q
  ∨ (¬ (inject_Z (Qfloor x) == x)%Q ∧ Qceiling x = (Qfloor x + 1)%Z).
Proof.
  pose proof (Qfloor_le x) as H1. pose proof (Qlt_floor x) as H2.
  pose proof (Qle_ceiling x) as H3. pose proof (Qceiling_lt x) as H4.
  assert (Hlo : (Qfloor x <= Qceiling x)%Z).
  { rewrite Zle_Qle. eapply Qle_trans; eassumption. }
  assert (Hhi : (Qceiling x - 1 < Qfloor x + 1)%Z).
  { rewrite Zlt_Qlt. eapply Qlt_trans; eassumption. }
  destruct (Z.eq_dec (Qceiling x) (Qfloor x)) as [Heq|Hne].
  - left. split; [|exact Heq]. rewrite Heq in H3.
    apply Qle_antisym; assumption.
  - right. assert (Hc : Qceiling x = (Qfloor x + 1)%Z) by lia.
    split; [|exact Hc]. intros Hx. rewrite Hc in H4.
    replace (Qfloor x + 1 - 1)%Z with (Qfloor x) in H4 by lia.
    rewrite Hx in H4. exact (Qlt_irrefl _ H4).
Qed.

(** The loop over the members of the category ends on the latest time:
    it never goes back, it dominates every member when the start is not
    negative, and it is the start or the time of a member that is
    strictly later. *)
Lemma category_loop (hp : list Command) (user : option string)
    (refs : list nat) (cc : bool) (lut : Q) :
  ∃ cc' lut',
    fold_left (category_step hp user) refs (cc, lut) = (cc', lut')
    ∧ (lut <= lut')%Q
    ∧ ((0 <= lut)%Q →
       ∀ ref c, ref ∈ refs → hp !! ref = Some c →
                (own_last_used c user <= lut')%Q)
    ∧ ((cc' = cc ∧ lut' = lut)
       ∨ (cc' = true ∧ (lut < lut')%Q
          ∧ ∃ ref c, ref ∈ refs ∧ hp !! ref = Some c
                     ∧ lut' = own_last_used c user)).
Proof.
  revert cc lut. induction refs as [|ref refs IH]; intros cc lut.
  - exists cc, lut. split; [reflexivity|]. split; [lra|].
    split; [intros _ r c Hin; inversion Hin|]. left. split; reflexivity.
  - cbn [fold_left]. unfold category_step at 2.
    destruct (hp !! ref) as [c|] eqn:Hc.
    + fold (own_last_used c user).
      destruct (negb (Qeq_bool (own_last_used c user) 0)
                && Qltb lut (own_last_used c user)) eqn:Hupd.
      * apply andb_true_iff in Hupd as [_ Hlt]. apply Qltb_true in Hlt.
        destruct (IH true (own_last_used c user))
          as (cc' & lut' & Hfold & Hle & Hdom & Hsrc).
        exists cc', lut'. split; [exact Hfold|]. split; [lra|]. split.
        -- intros H0 r c' Hin Hr. apply elem_of_cons in Hin as [->|Hin].
           ++ rewrite Hc in Hr. injection Hr as <-. exact Hle.
           ++ apply (Hdom ltac:(lra) r c' Hin Hr).
        -- right. destruct Hsrc as [[-> ->]|(-> & Hlt' & r & c' & Hin & Hr & ->)].
           ++ split; [reflexivity|]. split; [exact Hlt|].
              exists ref, c. split; [apply list_elem_of_here|].
              split; [exact Hc|reflexivity].
           ++ split; [reflexivity|]. split; [lra|].
              exists r, c'. split; [apply list_elem_of_further; exact Hin|].
              split; [exact Hr|reflexivity].
      * destruct (IH cc lut) as (cc' & lut' & Hfold & Hle & Hdom & Hsrc).
        exists cc', lut'. split; [exact Hfold|]. split; [exact Hle|]. split.
        -- intros H0 r c' Hin Hr. apply elem_of_cons in Hin as [->|Hin].
           ++ rewrite Hc in Hr. injection Hr as <-.
              apply andb_false_iff in Hupd as [Hz|Hnlt].
              ** apply negb_false_iff, Qeq_bool_iff in Hz. lra.
              ** apply Qltb_false in Hnlt. lra.
           ++ apply (Hdom H0 r c' Hin Hr).
        -- destruct Hsrc as [Hsame|(-> & Hlt' & r & c' & Hin & Hr & ->)];
             [left; exact Hsame|right].
           split; [reflexivity|]. split; [exact Hlt'|].
           exists r, c'. split; [apply list_elem_of_further; exact Hin|].
           split; [exact Hr|reflexivity].
    + destruct (IH cc lut) as (cc' & lut' & Hfold & Hle & Hdom & Hsrc).
      exists cc', lut'. split; [exact Hfold|]. split; [exact Hle|]. split.
      * intros H0 r c' Hin Hr. apply elem_of_cons in Hin as [->|Hin].
        -- congruence.
        -- apply (Hdom H0 r c' Hin Hr).
      * destruct Hsrc as [Hsame|(-> & Hlt' & r & c' & Hin & Hr & ->)];
          [left; exact Hsame|right].
        split; [reflexivity|]. split; [exact Hlt'|].
        exists r, c'. split; [apply list_elem_of_further; exact Hin|].
        split; [exact Hr|reflexivity].
Qed.

(** A call that is off cooldown stamps the object and awaits the
    handler. *)
Lemma call_runs (h : CommandHandler) (ref : nat) (c : Command)
    (p : command_params) (now : Q) :
  heap h !! ref = Some c →
  Qltb (now - (effective_last_used h c
                 (user_key (p_muc p) (p_nick p) (p_jid p))).2)
       (cooldown c) = false →
  call h ref p now
  = (with_heap h
       (<[ref := set_last_used c (user_key (p_muc p) (p_nick p) (p_jid p))
                   now]> (heap h)),
     [CallFunction (name c) p],
     of_outcome (function c p)).
Proof.
  intros Hc Hcool. unfold call. rewrite Hc.
  destruct (effective_last_used h c _) as [cc lut]. simpl in Hcool.
  rewrite Hcool. reflexivity.
Qed.

(** A call that is on cooldown changes nothing and sends the notice. *)
Lemma call_blocked (h : CommandHandler) (ref : nat) (c : Command)
    (p : command_params) (now : Q) (cc : bool) (lut : Q) :
  heap h !! ref = Some c →
  effective_last_used h c (user_key (p_muc p) (p_nick p) (p_jid p))
  = (cc, lut) →
  (now - lut < cooldown c)%Q →
  call h ref p now
  = (h,
     [SendMessage (user_key (p_muc p) (p_nick p) (p_jid p))
        (cooldown_body c (Qfloor (cooldown c - (now - lut))) (name c) cc)
        "chat"],
     Ok tt).
Proof.
  intros Hc Heff Hlt. unfold call. rewrite Hc, Heff.
  apply Qltb_true in Hlt as Hb. rewrite Hb.
  unfold cooldown_message. rewrite int_floor by lra. reflexivity.
Qed.

(** The effective last-used time: never before the own time, and the own
    time exactly when no member of the category set it. *)
Lemma effective_last_used_own (h : CommandHandler) (c : Command)
    (user : option string) :
  ∃ cc lut,
    effective_last_used h c user = (cc, lut)
    ∧ (own_last_used c user <= lut)%Q
    ∧ (cc = false → lut = own_last_used c user).
Proof.
  unfold effective_last_used. fold (own_last_used c user).
  destruct (category_truthy c) as [k|].
  - destruct (category_loop (heap h) user (default [] (categories h !! k))
                false (own_last_used c user))
      as (cc & lut & Hfold & Hle & _ & Hsrc).
    exists cc, lut. split; [exact Hfold|]. split; [exact Hle|].
    intros ->. destruct Hsrc as [[_ ->]|(Hcc & _)]; [reflexivity|discriminate].
  - exists false, (own_last_used c user).
    split; [reflexivity|]. split; [lra|]. reflexivity.
Qed.

(** C6 (as amended): a command is invoked at [t1], off cooldown, and
    again at [t2] with [t2 - t1] below its cooldown.  The second call runs
    no handler, changes nothing (the last-used times stay as they were),
    and sends one notice.  The notice counts from the latest use [lut] of
    the command or of its category, which is [t1] unless a member of the
    category set it; it announces [floor (cooldown - (t2 - lut)) + 1]
    seconds, which is the ceiling when that remainder is not whole and one
    more than the ceiling when it is. *)
Theorem second_call_within_cooldown_is_rejected
    (h : CommandHandler) (ref : nat) (c : Command) (p : command_params)
    (t1 t2 : Q) :
  let user := user_key (p_muc p) (p_nick p) (p_jid p) in
  let h1 := (call h ref p t1).1.1 in
  heap h !! ref = Some c →
  Qltb (t1 - (effective_last_used h c user).2) (cooldown c) = false →
  (t2 - t1 < cooldown c)%Q →
  ∃ cc lut,
    (call h ref p t1).1.2 = [CallFunction (name c) p]
    ∧ (t1 <= lut)%Q
    ∧ (cc = false → lut = t1)
    ∧ call h1 ref p t2
      = (h1,
         [SendMessage user
            (cooldown_body c (Qfloor (cooldown c - (t2 - lut))) (name c) cc)
            "chat"],
         Ok tt)
    ∧ ((¬ (inject_Z (Qfloor (cooldown c - (t2 - lut)))
           == cooldown c - (t2 - lut))%Q
        ∧ (Qfloor (cooldown c - (t2 - lut)) + 1)%Z
          = Qceiling (cooldown c - (t2 - lut)))
       ∨ ((inject_Z (Qfloor (cooldown c - (t2 - lut)))
           == cooldown c - (t2 - lut))%Q
          ∧ (Qfloor (cooldown c - (t2 - lut)) + 1)%Z
            = (Qceiling (cooldown c - (t2 - lut)) + 1)%Z)).
Proof.
  intros user h1 Hc Hfirst Hwithin.
  pose proof (call_runs h ref c p t1 Hc Hfirst) as Hrun.
  fold user in Hrun.
  set (c1 := set_last_used c user t1) in *.
  assert (Hh1 : h1 = with_heap h (<[ref := c1]> (heap h)))
    by (subst h1; rewrite Hrun; reflexivity).
  assert (Hc1 : heap h1 !! ref = Some c1).
  { rewrite Hh1. simpl. apply list_lookup_insert_eq.
    apply lookup_lt_Some in Hc. exact Hc. }
  destruct (effective_last_used_own h1 c1 user)
    as (cc & lut & Heff & Hle & Hown).
  assert (Hown1 : own_last_used c1 user = t1).
  { unfold own_last_used, c1. simpl. rewrite lookup_insert_eq. reflexivity. }
  rewrite Hown1 in Hle, Hown.
  exists cc, lut. split; [rewrite Hrun; reflexivity|].
  split; [exact Hle|]. split; [exact Hown|]. split.
  - assert (Hlt : (t2 - lut < cooldown c1)%Q) by (simpl; lra).
    rewrite (call_blocked h1 ref c1 p t2 cc lut Hc1 Heff Hlt). reflexivity.
  - destruct (ceiling_floor (cooldown c - (t2 - lut))) as [[Hw Hq]|[Hw Hq]].
    + right. split; [exact Hw|]. rewrite Hq. reflexivity.
    + left. split; [exact Hw|]. rewrite Hq. reflexivity.
Qed.

(** [ping] is invoked by [alice] at time 1000 and again at time 1001. *)
Lemma second_call_within_cooldown_is_rejected_witness :
  ∃ cc lut,
    (call Scenario.ping_handler 0 (Scenario.alice_params ".ping") 1000).1.2
    = [CallFunction "ping" (Scenario.alice_params ".ping")]
    ∧ (1000 <= lut)%Q
    ∧ (cc = false → lut = 1000%Q)
    ∧ call (call Scenario.ping_handler 0 (Scenario.alice_params ".ping")
              1000).1.1
           0 (Scenario.alice_params ".ping") 1001
      = ((call Scenario.ping_handler 0 (Scenario.alice_params ".ping")
            1000).1.1,
         [SendMessage (Some (Scenario.room +:+ "/alice"))
            (cooldown_body (Scenario.command_named Scenario.ping_handler 0)
               (Qfloor (2 - (1001 - lut))) "ping" cc)
            "chat"],
         Ok tt)
    ∧ ((¬ (inject_Z (Qfloor (2 - (1001 - lut))) == 2 - (1001 - lut))%Q
        ∧ (Qfloor (2 - (1001 - lut)) + 1)%Z = Qceiling (2 - (1001 - lut)))
       ∨ ((inject_Z (Qfloor (2 - (1001 - lut))) == 2 - (1001 - lut))%Q
          ∧ (Qfloor (2 - (1001 - lut)) + 1)%Z
            = (Qceiling (2 - (1001 - lut)) + 1)%Z)).
Proof.
  apply (second_call_within_cooldown_is_rejected Scenario.ping_handler 0
           (Scenario.command_named Scenario.ping_handler 0)
           (Scenario.alice_params ".ping") 1000 1001).
  - reflexivity.
  - vm_compute. reflexivity.
  - reflexivity.
Defined.

(** C6 as stated fails at a whole remainder: [ping], cooldown 2, is
    invoked at time 1000 and again at time 1001.  The notice says 2
    seconds; the ceiling of the remaining time is 1. *)
Lemma cooldown_notice_is_not_the_ceiling :
  (call (call Scenario.ping_handler 0 (Scenario.alice_params ".ping")
           1000).1.1
        0 (Scenario.alice_params ".ping") 1001).1.2
  = [SendMessage (Some (Scenario.room +:+ "/alice"))
       "Command 'ping' is on cooldown. Try again in 2 second(s)." "chat"]
  ∧ Qceiling (2 - (1001 - 1000)) = 1%Z
  ∧ (call (call Scenario.ping_handler 0 (Scenario.alice_params ".ping")
             1000).1.1
          0 (Scenario.alice_params ".ping") 1001).1.2
    ≠ [SendMessage (Some (Scenario.room +:+ "/alice"))
         ("Command 'ping' is on cooldown. Try again in "
          +:+ pretty (Qceiling (2 - (1001 - 1000))) +:+ " second(s).")
         "chat"].
Proof.
  split; [vm_compute; reflexivity|]. split; [vm_compute; reflexivity|].
  vm_compute. discriminate.
Qed.

(** *** The registry *)

Lemma dict_get_set_eq {V : Type} (k : string) (v : V)
    (d : list (string * V)) :
  dict_get k (dict_set k v d) = Some v.
Proof.
  induction d as [|[k' v'] d IH]; simpl.
  - rewrite decide_True by reflexivity. reflexivity.
  - destruct (decide (k = k')) as [->|Hne]; simpl.
    + rewrite decide_True by reflexivity. reflexivity.
    + rewrite decide_False by exact Hne. exact IH.
Qed.

Lemma dict_get_set_ne {V : Type} (k k0 : string) (v : V)
    (d : list (string * V)) :
  k ≠ k0 → dict_get k0 (dict_set k v d) = dict_get k0 d.
Proof.
  intros Hne. induction d as [|[k' v'] d IH]; simpl.
  - rewrite decide_False by congruence. reflexivity.
  - destruct (decide (k = k')) as [->|Hne']; simpl.
    + rewrite !decide_False by congruence. reflexivity.
    + destruct (decide (k0 = k')); [reflexivity|exact IH].
Qed.

Lemma registry_ok_init (show run : bool) : registry_ok (init show run).
Proof. intros name ref H. discriminate. Qed.

(** Registering a command keeps the registry in order. *)
Lemma registry_ok_register (e : env) (h : CommandHandler)
    (name plugin : string) (function : command_params -> outcome)
    (category : option string) (aliases : option (list string))
    (cooldown : option Q) (hidden admin : bool) :
  registry_ok h →
  registry_ok (register_command e h name plugin function category aliases
                 cooldown hidden admin).
Proof.
  intros Hok name' ref' Hget. unfold register_command in *. simpl in *.
  destruct (decide (name = name')) as [<-|Hne].
  - rewrite dict_get_set_eq in Hget. injection Hget as <-.
    eexists. split; [apply list_lookup_middle; reflexivity|].
    split; [reflexivity|]. intros k Hk. unfold category_truthy in Hk.
    simpl in Hk. unfold category_members. simpl.
    destruct category as [k0|]; [|discriminate].
    destruct (truthy_str k0); [|discriminate]. injection Hk as ->.
    rewrite lookup_insert_eq. simpl.
    apply elem_of_app. right. apply list_elem_of_here.
  - rewrite dict_get_set_ne in Hget by exact Hne.
    destruct (Hok name' ref' Hget) as (c & Hc & Hname & Hcat).
    exists c. split; [apply lookup_app_l_Some; exact Hc|].
    split; [exact Hname|]. intros k Hk. specialize (Hcat k Hk).
    unfold category_members in *. simpl.
    destruct category as [k0|]; [|exact Hcat].
    destruct (truthy_str k0); [|exact Hcat].
    destruct (decide (k0 = k)) as [->|Hk0].
    + rewrite lookup_insert_eq. simpl. apply elem_of_app. left. exact Hcat.
    + rewrite lookup_insert_ne by exact Hk0. exact Hcat.
Qed.

(** Invoking a command keeps the registry in order. *)
Lemma registry_ok_call (h : CommandHandler) (ref : nat) (p : command_params)
    (now : Q) :
  registry_ok h → registry_ok (call h ref p now).1.1.
Proof.
  intros Hok. unfold call.
  destruct (heap h !! ref) as [self|] eqn:Hself; [|exact Hok].
  destruct (effective_last_used h self _) as [cc lut].
  destruct (Qltb _ _); [exact Hok|]. simpl.
  intros name' ref' Hget. simpl in Hget.
  destruct (Hok name' ref' Hget) as (c & Hc & Hname & Hcat).
  destruct (decide (ref = ref')) as [<-|Hne].
  - eexists. split.
    + simpl. apply list_lookup_insert_eq. apply lookup_lt_Some in Hc.
      exact Hc.
    + rewrite Hself in Hc. injection Hc as <-.
      split; [exact Hname|exact Hcat].
  - exists c. split; [|split; [exact Hname|exact Hcat]].
    simpl. rewrite list_lookup_insert_ne by exact Hne. exact Hc.
Qed.

(** C7: two registered commands [n1] and [n2] share the category [k].
    [n1] is invoked by a user at [t1], off cooldown.  (1) The handler of
    [n1] runs, and the only change of state is the last-used time of that
    user in the object of [n1]: the object of [n2], the registry and the
    categories are as before.  (2) The last-used time [lut] checked for
    [n2] dominates the own time of [n2] and the time of every member of
    [k], and it is one of them.  (3) An invocation of [n2] by the same
    user at [t2], with [t2 - t1] below the cooldown of [n2], runs no
    handler, changes nothing and sends the cooldown notice; an invocation
    at [t3], with [t3 - lut] at or above that cooldown, runs the handler
    of [n2].  The category is not the empty string and recorded times are
    not negative. *)
Theorem category_cooldown_couples_commands
    (h : CommandHandler) (n1 n2 : string) (r1 r2 : nat) (c1 c2 : Command)
    (k : string) (p : command_params) (t1 t2 : Q) :
  let user := user_key (p_muc p) (p_nick p) (p_jid p) in
  let h1 := (call h r1 p t1).1.1 in
  registry_ok h →
  n1 ≠ n2 →
  dict_get n1 (commands h) = Some r1 →
  dict_get n2 (commands h) = Some r2 →
  heap h !! r1 = Some c1 →
  heap h !! r2 = Some c2 →
  category c1 = Some k → category c2 = Some k → k ≠ "" →
  (0 <= own_last_used c2 user)%Q →
  Qltb (t1 - (effective_last_used h c1 user).2) (cooldown c1) = false →
  (t2 - t1 < cooldown c2)%Q →
  ∃ cc lut,
    (call h r1 p t1).1.2 = [CallFunction n1 p]
    ∧ heap h1 = <[r1 := set_last_used c1 user t1]> (heap h)
    ∧ heap h1 !! r2 = Some c2
    ∧ commands h1 = commands h
    ∧ categories h1 = categories h
    ∧ effective_last_used h1 c2 user = (cc, lut)
    ∧ (own_last_used c2 user <= lut)%Q
    ∧ (∀ ref c, ref ∈ category_members h1 k → heap h1 !! ref = Some c →
                (own_last_used c user <= lut)%Q)
    ∧ (lut = own_last_used c2 user
       ∨ ∃ ref c, ref ∈ category_members h1 k ∧ heap h1 !! ref = Some c
                  ∧ lut = own_last_used c user)
    ∧ call h1 r2 p t2
      = (h1,
         [SendMessage user
            (cooldown_body c2 (Qfloor (cooldown c2 - (t2 - lut))) n2 cc)
            "chat"],
         Ok tt)
    ∧ (∀ t3, (cooldown c2 <= t3 - lut)%Q →
             (call h1 r2 p t3).1.2 = [CallFunction n2 p]).
Proof.
  intros user h1 Hok Hnames Hn1 Hn2 Hc1 Hc2 Hk1 Hk2 Hk Hown2 Hfirst Hwithin.
  destruct (Hok n1 r1 Hn1) as (c1' & Hc1' & Hname1 & Hcat1).
  destruct (Hok n2 r2 Hn2) as (c2' & Hc2' & Hname2 & Hcat2).
  rewrite Hc1 in Hc1'. injection Hc1' as <-.
  rewrite Hc2 in Hc2'. injection Hc2' as <-.
  assert (Htruthy : truthy_str k = true).
  { unfold truthy_str. apply negb_true_iff, String.eqb_neq. exact Hk. }
  assert (Hct1 : category_truthy c1 = Some k)
    by (unfold category_truthy; rewrite Hk1, Htruthy; reflexivity).
  assert (Hct2 : category_truthy c2 = Some k)
    by (unfold category_truthy; rewrite Hk2, Htruthy; reflexivity).
  assert (Hrefs : r1 ≠ r2) by (intros ->; congruence).
  pose proof (call_runs h r1 c1 p t1 Hc1 Hfirst) as Hrun. fold user in Hrun.
  set (c1' := set_last_used c1 user t1) in *.
  assert (Hh1 : h1 = with_heap h (<[r1 := c1']> (heap h)))
    by (subst h1; rewrite Hrun; reflexivity).
  assert (Hheap1 : heap h1 !! r1 = Some c1').
  { rewrite Hh1. simpl. apply list_lookup_insert_eq.
    apply lookup_lt_Some in Hc1. exact Hc1. }
  assert (Hheap2 : heap h1 !! r2 = Some c2).
  { rewrite Hh1. simpl. rewrite list_lookup_insert_ne by exact Hrefs.
    exact Hc2. }
  assert (Hmembers : category_members h1 k = category_members h k)
    by (rewrite Hh1; reflexivity).
  destruct (category_loop (heap h1) user (category_members h1 k) false
              (own_last_used c2 user))
    as (cc & lut & Hfold & Hle & Hdom & Hsrc).
  assert (Heff : effective_last_used h1 c2 user = (cc, lut)).
  { unfold effective_last_used. rewrite Hct2. exact Hfold. }
  assert (Ht1 : (t1 <= lut)%Q).
  { assert (Hown1 : own_last_used c1' user = t1).
    { unfold own_last_used, c1'. simpl. rewrite lookup_insert_eq.
      reflexivity. }
    rewrite <- Hown1. apply (Hdom Hown2 r1 c1'); [|exact Hheap1].
    rewrite Hmembers. apply Hcat1. exact Hct1. }
  exists cc, lut.
  split; [rewrite Hrun, Hname1; reflexivity|].
  split; [rewrite Hh1; reflexivity|].
  split; [exact Hheap2|].
  split; [rewrite Hh1; reflexivity|].
  split; [rewrite Hh1; reflexivity|].
  split; [exact Heff|].
  split; [exact Hle|].
  split; [exact (Hdom Hown2)|].
  split.
  { destruct Hsrc as [[_ ->]|(_ & _ & ref & c & Hin & Hr & ->)].
    - left. reflexivity.
    - right. exists ref, c. split; [exact Hin|].
      split; [exact Hr|reflexivity]. }
  split.
  - assert (Hlt : (t2 - lut < cooldown c2)%Q) by lra.
    rewrite (call_blocked h1 r2 c2 p t2 cc lut Hheap2 Heff Hlt).
    rewrite Hname2. reflexivity.
  - intros t3 Ht3. rewrite (call_runs h1 r2 c2 p t3 Hheap2).
    + rewrite Hname2. reflexivity.
    + fold user. rewrite Heff. apply Qltb_false. exact Ht3.
Qed.

(** [alice] invokes [roll] at time 1000 and [flip], of the same category,
    at time 1001. *)
Lemma category_cooldown_couples_commands_witness :
  ∃ cc lut,
    (call Scenario.fun_handler 0 (Scenario.alice_params ".roll") 1000).1.2
    = [CallFunction "roll" (Scenario.alice_params ".roll")]
    ∧ heap (call Scenario.fun_handler 0 (Scenario.alice_params ".roll")
              1000).1.1
      = <[0 := set_last_used (Scenario.command_named Scenario.fun_handler 0)
                 (Some (Scenario.room +:+ "/alice")) 1000]>
          (heap Scenario.fun_handler)
    ∧ heap (call Scenario.fun_handler 0 (Scenario.alice_params ".roll")
              1000).1.1 !! 1
      = Some (Scenario.command_named Scenario.fun_handler 1)
    ∧ commands (call Scenario.fun_handler 0 (Scenario.alice_params ".roll")
                  1000).1.1
      = commands Scenario.fun_handler
    ∧ categories (call Scenario.fun_handler 0
                    (Scenario.alice_params ".roll") 1000).1.1
      = categories Scenario.fun_handler
    ∧ effective_last_used
        (call Scenario.fun_handler 0 (Scenario.alice_params ".roll")
           1000).1.1
        (Scenario.command_named Scenario.fun_handler 1)
        (Some (Scenario.room +:+ "/alice"))
      = (cc, lut)
    ∧ (own_last_used (Scenario.command_named Scenario.fun_handler 1)
         (Some (Scenario.room +:+ "/alice")) <= lut)%Q
    ∧ (∀ ref c,
         ref ∈ category_members
                 (call Scenario.fun_handler 0
                    (Scenario.alice_params ".roll") 1000).1.1 "fun" →
         heap (call Scenario.fun_handler 0 (Scenario.alice_params ".roll")
                 1000).1.1 !! ref = Some c →
         (own_last_used c (Some (Scenario.room +:+ "/alice")) <= lut)%Q)
    ∧ (lut = own_last_used (Scenario.command_named Scenario.fun_handler 1)
               (Some (Scenario.room +:+ "/alice"))
       ∨ ∃ ref c,
           ref ∈ category_members
                   (call Scenario.fun_handler 0
                      (Scenario.alice_params ".roll") 1000).1.1 "fun"
           ∧ heap (call Scenario.fun_handler 0
                     (Scenario.alice_params ".roll") 1000).1.1 !! ref
             = Some c
           ∧ lut = own_last_used c (Some (Scenario.room +:+ "/alice")))
    ∧ call (call Scenario.fun_handler 0 (Scenario.alice_params ".roll")
              1000).1.1
           1 (Scenario.alice_params ".roll") 1001
      = ((call Scenario.fun_handler 0 (Scenario.alice_params ".roll")
            1000).1.1,
         [SendMessage (Some (Scenario.room +:+ "/alice"))
            (cooldown_body (Scenario.command_named Scenario.fun_handler 1)
               (Qfloor (2 - (1001 - lut))) "flip" cc)
            "chat"],
         Ok tt)
    ∧ (∀ t3, (2 <= t3 - lut)%Q →
             (call (call Scenario.fun_handler 0
                      (Scenario.alice_params ".roll") 1000).1.1
                   1 (Scenario.alice_params ".roll") t3).1.2
             = [CallFunction "flip" (Scenario.alice_params ".roll")]).
Proof.
  apply (category_cooldown_couples_commands Scenario.fun_handler
           "roll" "flip" 0 1
           (Scenario.command_named Scenario.fun_handler 0)
           (Scenario.command_named Scenario.fun_handler 1)
           "fun" (Scenario.alice_params ".roll") 1000 1001).
  - apply registry_ok_register, registry_ok_register, registry_ok_init.
  - discriminate.
  - reflexivity.
  - reflexivity.
  - reflexivity.
  - reflexivity.
  - reflexivity.
  - reflexivity.
  - discriminate.
  - vm_compute. discriminate.
  - vm_compute. reflexivity.
  - reflexivity.
Defined.

(** What the witness amounts to: [flip] is refused after [roll], and the
    notice names the category. *)
Example flip_is_blocked_after_roll :
  (call (call Scenario.fun_handler 0 (Scenario.alice_params ".roll")
           1000).1.1
        1 (Scenario.alice_params ".flip") 1001).1.2
  = [SendMessage (Some (Scenario.room +:+ "/alice"))
       "Commands of category 'fun' are on cooldown. Try again in 2 second(s)."
       "chat"].
Proof. vm_compute. reflexivity. Qed.

(** ** Suggestions *)

(** The loop over the registry, started from a state that describes the
    names seen so far, ends in a state that describes all of them. *)
Lemma suggest_loop (hp : list Command) (is_admin : bool) (cmd_name : string)
    (entries : list (string * nat)) (names : list string)
    (acc : option string * option nat) :
  closest_so_far cmd_name names acc →
  closest_so_far cmd_name
    (names ++ omap (λ entry : string * nat,
                      match hp !! entry.2 with
                      | Some c => if permitted (admin c) is_admin
                                  then Some entry.1 else None
                      | None => None
                      end) entries)
    (fold_left (suggest_step hp is_admin cmd_name) entries acc).
Proof.
  revert names acc. induction entries as [|[name ref] entries IH];
    intros names acc Hinv.
  - simpl. rewrite app_nil_r. exact Hinv.
  - cbn [fold_left omap list_omap]. simpl.
    destruct acc as [best md]. unfold suggest_step at 2.
    destruct (hp !! ref) as [c|]; [|apply IH; exact Hinv].
    destruct (permitted (admin c) is_admin); [|apply IH; exact Hinv].
    replace (names ++ name :: omap _ entries)
      with ((names ++ [name]) ++ omap
              (λ entry : string * nat,
                 match hp !! entry.2 with
                 | Some c => if permitted (admin c) is_admin
                             then Some entry.1 else None
                 | None => None
                 end) entries)
      by (rewrite <- app_assoc; reflexivity).
    apply IH. unfold closest_so_far in *. simpl in *.
    destruct md as [m|].
    + destruct Hinv as (s & -> & -> & l1 & l2 & -> & Hl1 & Hl2).
      destruct (levenshtein_distance cmd_name name
                <? levenshtein_distance cmd_name s) eqn:Hlt; simpl.
      * apply Nat.ltb_lt in Hlt. exists name.
        split; [reflexivity|]. split; [reflexivity|].
        exists (l1 ++ s :: l2), []. split; [reflexivity|]. split.
        -- intros n Hn. apply elem_of_app in Hn as [Hn|Hn].
           ++ specialize (Hl1 n Hn). lia.
           ++ apply elem_of_cons in Hn as [->|Hn]; [lia|].
              specialize (Hl2 n Hn). lia.
        -- intros n Hn. inversion Hn.
      * apply Nat.ltb_ge in Hlt. exists s.
        split; [reflexivity|]. split; [reflexivity|].
        exists l1, (l2 ++ [name]).
        split; [rewrite <- app_assoc; reflexivity|]. split; [exact Hl1|].
        intros n Hn. apply elem_of_app in Hn as [Hn|Hn].
        -- apply Hl2. exact Hn.
        -- apply list_elem_of_singleton in Hn as ->. exact Hlt.
    + destruct Hinv as [-> _]. simpl. exists name.
      split; [reflexivity|]. split; [reflexivity|].
      exists [], []. split; [reflexivity|].
      split; intros n Hn; inversion Hn.
Qed.

(** The best match is the first closest of the names the caller may be
    offered. *)
Lemma best_match_first_closest (e : env) (h : CommandHandler)
    (cmd_name : string) (jid : option string) :
  closest_so_far cmd_name (permitted_names e h jid)
                 (best_match e h cmd_name jid).
Proof.
  unfold best_match, permitted_names.
  apply (suggest_loop (heap h) (is_admin_jid e jid) cmd_name (commands h) []
           (None, None)).
  split; reflexivity.
Qed.

Lemma string_app_length (s t : string) :
  String.length (s +:+ t) = String.length s + String.length t.
Proof.
  induction s as [|a s IH]; simpl; [reflexivity|]. rewrite IH. reflexivity.
Qed.

Lemma string_app_inj_r (s s' t : string) : s +:+ t = s' +:+ t → s = s'.
Proof.
  revert s'. induction s as [|a s IH]; intros [|a' s'] H.
  - reflexivity.
  - exfalso. apply (f_equal String.length) in H.
    rewrite !string_app_length in H. simpl in H. lia.
  - exfalso. apply (f_equal String.length) in H.
    rewrite !string_app_length in H. simpl in H. lia.
  - change (String a (s +:+ t) = String a' (s' +:+ t)) in H.
    injection H as -> H. f_equal. apply IH. exact H.
Qed.

(** The reply that proposes a name determines the name. *)
Lemma suggestion_body_inj (cmd_name s s' : string) :
  suggestion_body cmd_name (Some s) = suggestion_body cmd_name (Some s') →
  s = s'.
Proof.
  unfold suggestion_body. intros H. simpl in H.
  apply (inj (String.app "'")) in H.
  apply (inj (String.app cmd_name)) in H.
  apply (inj (String.app "' is not a valid command, did you mean '")) in H.
  apply string_app_inj_r in H. exact H.
Qed.

(** What [_send_suggested_command] does, case by case. *)
Lemma send_suggested_command_cases (e : env) (h : CommandHandler)
    (cmd_name : string) (muc nick jid : option string) :
  let r := _send_suggested_command e h cmd_name muc nick jid in
  (r = (None, []))
  ∨ (∃ s,
       5 ≤ String.length cmd_name ≤ 15
       ∧ levenshtein_distance cmd_name s < String.length cmd_name
       ∧ levenshtein_distance cmd_name s ≤ 2
       ∧ first_closest cmd_name (permitted_names e h jid) s
       ∧ ((run_command_suggestion h = true ∧ r = (Some s, []))
          ∨ (run_command_suggestion h = false
             ∧ r = (None,
                    [SendMessage (user_key muc nick jid)
                       (suggestion_body cmd_name (Some s)) "chat"])))).
Proof.
  intros r. subst r. unfold _send_suggested_command.
  destruct (15 <? String.length cmd_name) eqn:Hlong; [left; reflexivity|].
  destruct (String.length cmd_name <? 5) eqn:Hshort; [left; reflexivity|].
  apply Nat.ltb_ge in Hlong, Hshort.
  pose proof (best_match_first_closest e h cmd_name jid) as Hbest.
  destruct (best_match e h cmd_name jid) as [best md].
  unfold closest_so_far in Hbest. simpl in Hbest.
  destruct md as [m|]; [|left; reflexivity].
  destruct Hbest as (s & -> & -> & Hfirst).
  destruct ((String.length cmd_name <=? levenshtein_distance cmd_name s)
            || (2 <? levenshtein_distance cmd_name s)) eqn:Hgate;
    [left; reflexivity|].
  apply orb_false_iff in Hgate as [Hlen Hd].
  apply Nat.leb_gt in Hlen. apply Nat.ltb_ge in Hd.
  right. exists s. split; [lia|]. split; [exact Hlen|]. split; [exact Hd|].
  split; [exact Hfirst|].
  destruct (run_command_suggestion h); [left|right]; split; reflexivity.
Qed.

(** C5 (as amended): a name is suggested, by being returned for execution
    or by the reply that proposes it, only if the candidate has at least 5
    and at most 15 characters, the distance between the candidate and the
    name is below the length of the candidate and at most 2, and the name
    is the first, in the order of the registry, of the names at the least
    distance among those the caller may use.  The candidate ["hlep"], of
    four characters, gets no suggestion whatever the registry is; its
    distance to ["help"] is 2. *)
Theorem suggestion_needs_a_close_name :
  (∀ (e : env) (h : CommandHandler) (cmd_name : string)
     (muc nick jid : option string) (s : string),
     (_send_suggested_command e h cmd_name muc nick jid).1 = Some s
     ∨ (_send_suggested_command e h cmd_name muc nick jid).2
       = [SendMessage (user_key muc nick jid)
            (suggestion_body cmd_name (Some s)) "chat"] →
     5 ≤ String.length cmd_name ≤ 15
     ∧ levenshtein_distance cmd_name s < String.length cmd_name
     ∧ levenshtein_distance cmd_name s ≤ 2
     ∧ first_closest cmd_name (permitted_names e h jid) s)
  ∧ levenshtein_distance "hlep" "help" = 2
  ∧ (∀ (e : env) (h : CommandHandler) (muc nick jid : option string),
       _send_suggested_command e h "hlep" muc nick jid = (None, [])).
Proof.
  split; [|split; [vm_compute; reflexivity|intros; reflexivity]].
  intros e h cmd_name muc nick jid s Hs.
  destruct (send_suggested_command_cases e h cmd_name muc nick jid)
    as [Hnone|(s' & Hlen & Hlt & Hle & Hfirst & Hres)].
  - rewrite Hnone in Hs. destruct Hs as [Hs|Hs]; discriminate.
  - assert (s' = s) as ->.
    { destruct Hres as [[_ Hr]|[_ Hr]]; rewrite Hr in Hs; simpl in Hs;
        destruct Hs as [Hs|Hs]; try discriminate.
      - injection Hs as ->. reflexivity.
      - apply (suggestion_body_inj cmd_name). congruence. }
    repeat split; try assumption; lia.
Qed.

(** The example of the specification: with [status] and [stats]
    registered, in this order, the candidate ["statu"] is at distance 1 from
    both and [status] is suggested. *)
Lemma suggestion_needs_a_close_name_witness :
  5 ≤ String.length "statu" ≤ 15
  ∧ levenshtein_distance "statu" "status" < String.length "statu"
  ∧ levenshtein_distance "statu" "status" ≤ 2
  ∧ first_closest "statu"
      (permitted_names Scenario.plain_env (Scenario.status_handler true) None)
      "status".
Proof.
  apply (proj1 suggestion_needs_a_close_name Scenario.plain_env
           (Scenario.status_handler true) "statu"
           (Some Scenario.room) (Some "alice") None "status").
  left. vm_compute. reflexivity.
Defined.

(** C5 as stated fails twice: the distance between ["hlep"] and ["help"]
    is 2, not 1, and a candidate of 15 characters is given a
    suggestion. *)
Lemma hlep_distance_and_upper_bound :
  levenshtein_distance "hlep" "help" ≠ 1
  ∧ levenshtein_distance "hlep" "help" = 2
  ∧ String.length "abcdefghijklmnx" = 15
  ∧ (_send_suggested_command Scenario.plain_env
       (Scenario.status_handler true) "abcdefghijklmnx"
       (Some Scenario.room) (Some "alice") None).1
    = Some "abcdefghijklmno".
Proof.
  split; [vm_compute; discriminate|]. repeat split; vm_compute; reflexivity.
Qed.

(** *** The distance *)

Lemma lev_nil_r (s : list ascii) : lev s [] = length s.
Proof. destruct s; reflexivity. Qed.

Lemma lev_cons_cons (a b : ascii) (s t : list ascii) :
  lev (a :: s) (b :: t)
  = Nat.min (Nat.min (lev s (b :: t) + 1) (lev (a :: s) t + 1))
            (lev s t + (if Ascii.eqb a b then 0 else 1)).
Proof. reflexivity. Qed.

Lemma table_row_length (u s2 : list ascii) (m : nat) :
  length (table_row u s2 m) = m.
Proof. unfold table_row. rewrite length_map, length_seq. reflexivity. Qed.

Lemma table_row_nth (u s2 : list ascii) (m k : nat) :
  k < m → nth k (table_row u s2 m) 0 = lev u (rev (take k s2)).
Proof.
  intros Hk. unfold table_row.
  rewrite (nth_indep _ 0 (lev u (rev (take 0 s2))))
    by (rewrite length_map, length_seq; exact Hk).
  rewrite (map_nth (λ k, lev u (rev (take k s2))) (seq 0 m) 0 k).
  rewrite seq_nth by exact Hk. reflexivity.
Qed.

Lemma table_row_snoc (u s2 : list ascii) (m : nat) :
  table_row u s2 (S m) = table_row u s2 m ++ [lev u (rev (take m s2))].
Proof.
  unfold table_row. rewrite seq_S, map_app. reflexivity.
Qed.

(** The inner loop extends the current row to the full row. *)
Lemma inner_loop (c1 : ascii) (u : list ascii) (done rest : list ascii) :
  fold_left
    (inner_step c1 (table_row u (done ++ rest) (length (done ++ rest) + 1)))
    (combine (seq (length done) (length rest)) rest)
    (table_row (c1 :: u) (done ++ rest) (length done + 1))
  = table_row (c1 :: u) (done ++ rest) (length (done ++ rest) + 1).
Proof.
  revert done. induction rest as [|c2 rest IH]; intros done.
  - simpl. rewrite app_nil_r. reflexivity.
  - cbn [length seq combine fold_left].
    replace (done ++ c2 :: rest) with ((done ++ [c2]) ++ rest)
      by (rewrite <- app_assoc; reflexivity).
    replace (S (length done)) with (length (done ++ [c2]))
      by (rewrite length_app; simpl; lia).
    rewrite <- (IH (done ++ [c2])). f_equal.
    unfold inner_step.
    assert (Hlen : length ((done ++ [c2]) ++ rest)
                   = length done + 1 + length rest)
      by (rewrite !length_app; simpl; lia).
    rewrite !table_row_nth by lia.
    replace (length (done ++ [c2]) + 1) with (S (length done + 1))
      by (rewrite length_app; simpl; lia).
    rewrite table_row_snoc. f_equal. f_equal.
    assert (Htake1 : take (length done + 1) ((done ++ [c2]) ++ rest)
                     = done ++ [c2]).
    { rewrite take_app_le by (rewrite length_app; simpl; lia).
      apply take_ge. rewrite length_app. simpl. lia. }
    assert (Htake0 : take (length done) ((done ++ [c2]) ++ rest) = done).
    { rewrite <- app_assoc. apply take_app_length. }
    rewrite Htake1, Htake0, rev_app_distr.
    change (rev [c2] ++ rev done) with (c2 :: rev done).
    rewrite lev_cons_cons. reflexivity.
Qed.

(** One round of the outer loop: from the row of [u] to the row of
    [c1 :: u]. *)
Lemma outer_step_row (i : nat) (c1 : ascii) (u s2 : list ascii) :
  i = length u →
  outer_step s2 (table_row u s2 (length s2 + 1)) (i, c1)
  = table_row (c1 :: u) s2 (length s2 + 1).
Proof.
  intros ->. unfold outer_step, enumerate.
  pose proof (inner_loop c1 u [] s2) as H. simpl in H.
  rewrite <- H. f_equal.
  unfold table_row. simpl. rewrite Nat.add_1_r. reflexivity.
Qed.

Lemma outer_loop (s2 : list ascii) (done rest : list ascii) :
  fold_left (outer_step s2)
    (combine (seq (length done) (length rest)) rest)
    (table_row (rev done) s2 (length s2 + 1))
  = table_row (rev (done ++ rest)) s2 (length s2 + 1).
Proof.
  revert done. induction rest as [|c1 rest IH]; intros done.
  - simpl. rewrite app_nil_r. reflexivity.
  - cbn [length seq combine fold_left].
    rewrite outer_step_row by (rewrite length_rev; reflexivity).
    replace (done ++ c1 :: rest) with ((done ++ [c1]) ++ rest)
      by (rewrite <- app_assoc; reflexivity).
    rewrite <- (IH (done ++ [c1])).
    rewrite rev_app_distr. simpl.
    replace (length (done ++ [c1])) with (S (length done))
      by (rewrite length_app; simpl; lia).
    reflexivity.
Qed.

Lemma table_row_nil (s2 : list ascii) (m : nat) :
  m ≤ length s2 + 1 → table_row [] s2 m = seq 0 m.
Proof.
  intros Hm. unfold table_row.
  rewrite <- (map_id (seq 0 m)) at 2. apply map_ext_in.
  intros k Hk. apply in_seq in Hk. simpl.
  rewrite length_rev, length_take. lia.
Qed.

(** The rows computed by the code are the rows of the table. *)
Lemma levenshtein_rows_table (s1 s2 : list ascii) :
  levenshtein_rows s1 s2 = table_row (rev s1) s2 (length s2 + 1).
Proof.
  unfold levenshtein_rows, enumerate.
  pose proof (outer_loop s2 [] s1) as H. simpl in H. rewrite <- H.
  rewrite table_row_nil by lia. reflexivity.
Qed.

Lemma ascii_eqb_sym (a b : ascii) : Ascii.eqb a b = Ascii.eqb b a.
Proof.
  destruct (Ascii.eqb_spec a b) as [->|Hne].
  - rewrite Ascii.eqb_refl. reflexivity.
  - apply eq_sym, Ascii.eqb_neq. congruence.
Qed.

Lemma lev_sym (s t : list ascii) : lev s t = lev t s.
Proof.
  revert t. induction s as [|a s IHs]; intros t.
  - rewrite lev_nil_r. reflexivity.
  - induction t as [|b t IHt].
    + reflexivity.
    + rewrite !lev_cons_cons, IHt, (IHs (b :: t)), (IHs t), ascii_eqb_sym.
      lia.
Qed.

(** The code computes the recurrence, on the characters read from the
    end. *)
Lemma levenshtein_chars_lev (s1 s2 : list ascii) :
  levenshtein_chars s1 s2 = lev (rev s1) (rev s2).
Proof.
  assert (Hmain : ∀ a b : list ascii,
            (if length b =? 0 then length a
             else List.last (levenshtein_rows a b) 0)
            = lev (rev a) (rev b)).
  { intros a b. destruct (Nat.eqb_spec (length b) 0) as [Hb|Hb].
    - destruct b; [|discriminate]. simpl. rewrite lev_nil_r, length_rev.
      reflexivity.
    - rewrite levenshtein_rows_table, Nat.add_1_r, table_row_snoc.
      rewrite last_last, firstn_all. reflexivity. }
  unfold levenshtein_chars.
  destruct (length s1 <? length s2).
  - rewrite Hmain. apply lev_sym.
  - apply Hmain.
Qed.

(** *** The recurrence counts edits *)

Lemma edit1_cons (a : ascii) (s t : list ascii) :
  edit1 s t → edit1 (a :: s) (a :: t).
Proof.
  intros H. destruct H as [l1 l2 x|l1 l2 x|l1 l2 x y].
  - apply (edit_insert (a :: l1) l2 x).
  - apply (edit_delete (a :: l1) l2 x).
  - apply (edit_replace (a :: l1) l2 x y).
Qed.

Lemma edits_cons (a : ascii) (n : nat) (s t : list ascii) :
  edits n s t → edits n (a :: s) (a :: t).
Proof.
  induction 1 as [l|n l1 l2 l3 H1 _ IH].
  - apply edits_none.
  - eapply edits_step; [apply edit1_cons; exact H1|exact IH].
Qed.

Lemma edits_snoc (n : nat) (s t u : list ascii) :
  edits n s t → edit1 t u → edits (S n) s u.
Proof.
  induction 1 as [l|n l1 l2 l3 H1 _ IH]; intros Hu.
  - eapply edits_step; [exact Hu|apply edits_none].
  - eapply edits_step; [exact H1|apply IH; exact Hu].
Qed.

Lemma edits_insert_all (t : list ascii) : edits (length t) [] t.
Proof.
  induction t as [|b t IH]; [apply edits_none|]. simpl.
  eapply edits_step; [apply (edit_insert [] [] b)|].
  apply edits_cons. exact IH.
Qed.

Lemma edits_delete_all (s : list ascii) : edits (length s) s [].
Proof.
  induction s as [|a s IH]; [apply edits_none|]. simpl.
  eapply edits_step; [apply (edit_delete [] s a)|exact IH].
Qed.

(** The recurrence is reached by a sequence of edits. *)
Lemma lev_reached (s t : list ascii) : ∃ n, n ≤ lev s t ∧ edits n s t.
Proof.
  revert t. induction s as [|a s IHs]; intros t.
  - exists (length t). split; [reflexivity|apply edits_insert_all].
  - induction t as [|b t IHt].
    + exists (length (a :: s)). split; [reflexivity|apply edits_delete_all].
    + rewrite lev_cons_cons.
      destruct (IHs (b :: t)) as (n1 & Hn1 & He1).
      destruct IHt as (n2 & Hn2 & He2).
      destruct (IHs t) as (n3 & Hn3 & He3).
      destruct (Nat.min_spec (Nat.min (lev s (b :: t) + 1)
                                      (lev (a :: s) t + 1))
                             (lev s t + (if Ascii.eqb a b then 0 else 1)))
        as [[_ ->]|[_ ->]].
      * destruct (Nat.min_spec (lev s (b :: t) + 1) (lev (a :: s) t + 1))
          as [[_ ->]|[_ ->]].
        -- exists (S n1). split; [lia|].
           eapply edits_step; [apply (edit_delete [] s a)|exact He1].
        -- exists (S n2). split; [lia|].
           eapply edits_snoc; [exact He2|apply (edit_insert [] t b)].
      * destruct (Ascii.eqb_spec a b) as [->|Hne].
        -- exists n3. split; [lia|]. apply edits_cons. exact He3.
        -- exists (S n3). split; [lia|].
           eapply edits_step; [apply (edit_replace [] s a b)|].
           apply edits_cons. exact He3.
Qed.

Lemma lev_refl (s : list ascii) : lev s s = 0.
Proof.
  induction s as [|a s IH]; [reflexivity|].
  rewrite lev_cons_cons, IH, Ascii.eqb_refl. lia.
Qed.

Lemma lev_cons_r (b : ascii) (s t : list ascii) :
  lev s (b :: t) ≤ S (lev s t).
Proof.
  destruct s as [|a s]; [simpl; lia|]. rewrite lev_cons_cons. lia.
Qed.

Lemma lev_cons_l (a : ascii) (s t : list ascii) :
  lev (a :: s) t ≤ S (lev s t).
Proof.
  destruct t as [|b t]; [rewrite !lev_nil_r; simpl; lia|].
  rewrite lev_cons_cons. lia.
Qed.

Lemma lev_uncons_l (a : ascii) (s t : list ascii) :
  lev s t ≤ S (lev (a :: s) t).
Proof.
  induction t as [|b t IH]; [rewrite !lev_nil_r; simpl; lia|].
  rewrite lev_cons_cons. pose proof (lev_cons_r b s t).
  destruct (Ascii.eqb a b); lia.
Qed.

Lemma lev_replace_l (a a' : ascii) (s t : list ascii) :
  lev (a :: s) t ≤ S (lev (a' :: s) t).
Proof.
  induction t as [|b t IH]; [rewrite !lev_nil_r; simpl; lia|].
  rewrite !lev_cons_cons.
  destruct (Ascii.eqb a b), (Ascii.eqb a' b); lia.
Qed.

(** One edit changes the recurrence by one at most. *)
Lemma lev_edit1 (s s' t : list ascii) :
  edit1 s s' → lev s t ≤ S (lev s' t).
Proof.
  intros H. revert t.
  assert (Hctx : ∀ (l1 u u' : list ascii),
            (∀ t, lev u t ≤ S (lev u' t)) →
            ∀ t, lev (l1 ++ u) t ≤ S (lev (l1 ++ u') t)).
  { induction l1 as [|a l1 IH]; intros u u' Hu; [exact Hu|].
    specialize (IH u u' Hu). rewrite <- !app_comm_cons.
    induction t as [|b t IHt].
    - specialize (IH []). rewrite !lev_nil_r in *. simpl. lia.
    - rewrite !lev_cons_cons.
      pose proof (IH (b :: t)). pose proof (IH t).
      destruct (Ascii.eqb a b); lia. }
  destruct H as [l1 l2 x|l1 l2 x|l1 l2 x y]; apply Hctx; intros t.
  - apply lev_uncons_l.
  - apply lev_cons_l.
  - apply lev_replace_l.
Qed.

(** No sequence of edits is shorter than the recurrence. *)
Lemma lev_least (n : nat) (s t : list ascii) : edits n s t → lev s t ≤ n.
Proof.
  induction 1 as [l|n l1 l2 l3 H1 _ IH].
  - rewrite lev_refl. lia.
  - pose proof (lev_edit1 l1 l2 l3 H1). lia.
Qed.

Lemma edit1_rev (s t : list ascii) : edit1 s t → edit1 (rev s) (rev t).
Proof.
  intros H. destruct H as [l1 l2 x|l1 l2 x|l1 l2 x y];
    rewrite !rev_app_distr; simpl; rewrite <- ?app_assoc; simpl.
  - apply (edit_insert (rev l2) (rev l1) x).
  - apply (edit_delete (rev l2) (rev l1) x).
  - apply (edit_replace (rev l2) (rev l1) x y).
Qed.

Lemma edits_rev (n : nat) (s t : list ascii) :
  edits n s t → edits n (rev s) (rev t).
Proof.
  induction 1 as [l|n l1 l2 l3 H1 _ IH].
  - apply edits_none.
  - eapply edits_step; [apply edit1_rev; exact H1|exact IH].
Qed.

Lemma lev_rev (s t : list ascii) : lev (rev s) (rev t) = lev s t.
Proof.
  assert (Hle : ∀ a b : list ascii, lev (rev a) (rev b) ≤ lev a b).
  { intros a b. destruct (lev_reached a b) as (n & Hn & He).
    pose proof (lev_least n (rev a) (rev b) (edits_rev n a b He)). lia. }
  apply Nat.le_antisymm; [apply Hle|].
  rewrite <- (rev_involutive s) at 1. rewrite <- (rev_involutive t) at 1.
  apply Hle.
Qed.

(** X1: [levenshtein_distance] is the Levenshtein distance: the least
    number of insertions, deletions and replacements of one character that
    turn one string into the other. *)
Lemma levenshtein_distance_is_edit_distance (s1 s2 : string) :
  (∃ n, n ≤ levenshtein_distance s1 s2
        ∧ edits n (String.list_ascii_of_string s1)
                  (String.list_ascii_of_string s2))
  ∧ ∀ n, edits n (String.list_ascii_of_string s1)
                 (String.list_ascii_of_string s2) →
         levenshtein_distance s1 s2 ≤ n.
Proof.
  unfold levenshtein_distance. rewrite levenshtein_chars_lev, lev_rev.
  split; [apply lev_reached|intros n; apply lev_least].
Qed.

(** * Further properties of the code *)

(** ** The distance is a metric *)

Lemma levenshtein_distance_lev (s1 s2 : string) :
  levenshtein_distance s1 s2
  = lev (String.list_ascii_of_string s1) (String.list_ascii_of_string s2).
Proof.
  unfold levenshtein_distance. rewrite levenshtein_chars_lev. apply lev_rev.
Qed.

Lemma edits_trans (n m : nat) (a b c : list ascii) :
  edits n a b → edits m b c → edits (n + m) a c.
Proof.
  induction 1 as [l|n l1 l2 l3 H1 _ IH]; intros Hc; [exact Hc|].
  simpl. eapply edits_step; [exact H1|apply IH; exact Hc].
Qed.

Lemma edit1_length (s t : list ascii) :
  edit1 s t → length s ≤ S (length t) ∧ length t ≤ S (length s).
Proof.
  intros H. destruct H as [l1 l2 x|l1 l2 x|l1 l2 x y];
    rewrite !length_app; simpl; lia.
Qed.

Lemma edits_length (n : nat) (s t : list ascii) :
  edits n s t → length s ≤ n + length t ∧ length t ≤ n + length s.
Proof.
  induction 1 as [l|n l1 l2 l3 H1 _ IH]; [lia|].
  apply edit1_length in H1. lia.
Qed.

Lemma lev_upper (s t : list ascii) : lev s t ≤ Nat.max (length s) (length t).
Proof.
  revert t. induction s as [|a s IH]; intros t; [simpl; lia|].
  destruct t as [|b t]; [rewrite lev_nil_r; lia|].
  rewrite lev_cons_cons. specialize (IH t). simpl.
  destruct (Ascii.eqb a b); lia.
Qed.

Lemma list_ascii_length (s : string) :
  length (String.list_ascii_of_string s) = String.length s.
Proof. induction s as [|a s IH]; simpl; [reflexivity|]. rewrite IH. reflexivity. Qed.

(** X2: [levenshtein_distance] is a metric on strings: it is 0 between a
    string and itself and only then, it is symmetric, and it satisfies the
    triangle inequality.  It is at most the length of the longer string and
    at least the difference of the lengths. *)
Theorem levenshtein_distance_is_a_metric :
  (∀ s, levenshtein_distance s s = 0)
  ∧ (∀ s t, levenshtein_distance s t = 0 → s = t)
  ∧ (∀ s t, levenshtein_distance s t = levenshtein_distance t s)
  ∧ (∀ s t u, levenshtein_distance s u
              ≤ levenshtein_distance s t + levenshtein_distance t u)
  ∧ (∀ s t, levenshtein_distance s t
            ≤ Nat.max (String.length s) (String.length t))
  ∧ (∀ s t, String.length s - String.length t ≤ levenshtein_distance s t).
Proof.
  repeat split.
  - intros s. rewrite levenshtein_distance_lev. apply lev_refl.
  - intros s t H. rewrite levenshtein_distance_lev in H.
    destruct (lev_reached (String.list_ascii_of_string s)
                (String.list_ascii_of_string t)) as (n & Hn & He).
    assert (n = 0) as -> by lia. inversion He as [l Hl1 Hl2|]; subst.
    rewrite <- (String.string_of_list_ascii_of_string s),
            <- (String.string_of_list_ascii_of_string t).
    congruence.
  - intros s t. rewrite !levenshtein_distance_lev. apply lev_sym.
  - intros s t u. rewrite !levenshtein_distance_lev.
    destruct (lev_reached (String.list_ascii_of_string s)
                (String.list_ascii_of_string t)) as (n & Hn & He).
    destruct (lev_reached (String.list_ascii_of_string t)
                (String.list_ascii_of_string u)) as (m & Hm & He').
    pose proof (lev_least _ _ _ (edits_trans _ _ _ _ _ He He')). lia.
  - intros s t. rewrite levenshtein_distance_lev, <- !list_ascii_length.
    apply lev_upper.
  - intros s t. rewrite levenshtein_distance_lev, <- !list_ascii_length.
    destruct (lev_reached (String.list_ascii_of_string s)
                (String.list_ascii_of_string t)) as (n & Hn & He).
    apply edits_length in He. lia.
Qed.

(** ** What dispatch runs and what it changes *)

Lemma call_cases (h : CommandHandler) (ref : nat) (p : command_params)
    (now : Q) :
  (∃ evs r, call h ref p now = (h, evs, r)
            ∧ ∀ name q, CallFunction name q ∉ evs)
  ∨ (∃ c, heap h !! ref = Some c
          ∧ call h ref p now
            = (with_heap h
                 (<[ref := set_last_used c
                             (user_key (p_muc p) (p_nick p) (p_jid p)) now]>
                    (heap h)),
               [CallFunction (name c) p],
               of_outcome (function c p))).
Proof.
  unfold call. destruct (heap h !! ref) as [self|] eqn:Hself.
  - destruct (effective_last_used h self _) as [cc lut].
    destruct (Qltb _ _).
    + left. eexists _, _. split; [reflexivity|]. intros name q Hin.
      unfold cooldown_message in Hin.
      apply list_elem_of_singleton in Hin. discriminate.
    + right. exists self. split; reflexivity.
  - left. eexists _, _. split; [reflexivity|]. intros name q Hin.
    inversion Hin.
Qed.

Lemma run_resolved_cases (e : env) (h : CommandHandler) (msg : message)
    (cmd_name : string) (muc nick jid quote : option string) (now : Q) :
  (∃ evs r, run_resolved e h msg cmd_name muc nick jid quote now = (h, evs, r)
            ∧ ∀ name q, CallFunction name q ∉ evs)
  ∨ (∃ ref c r,
       dict_get cmd_name (commands h) = Some ref
       ∧ heap h !! ref = Some c
       ∧ allowed e muc cmd_name c jid
       ∧ let p := {| p_msg := msg; p_muc := muc; p_nick := nick;
                     p_jid := jid; p_quote := quote |} in
         run_resolved e h msg cmd_name muc nick jid quote now
         = (with_heap h
              (<[ref := set_last_used c (user_key muc nick jid) now]> (heap h)),
            [CallFunction (name c) p], r)).
Proof.
  unfold run_resolved.
  destruct (dict_get cmd_name (commands h)) as [ref|] eqn:Hget;
    [|left; eexists _, _; split; [reflexivity|intros ? ? Hin; inversion Hin]].
  destruct (heap h !! ref) as [c|] eqn:Hc;
    [|left; eexists _, _; split; [reflexivity|intros ? ? Hin; inversion Hin]].
  destruct (match muc with
            | Some m => truthy_str m && muc_blocks e m cmd_name (plugin c)
            | None => false
            end) eqn:Hblock;
    [left; eexists _, _; split; [reflexivity|intros ? ? Hin; inversion Hin]|].
  destruct (permitted (admin c) (is_admin_jid e jid)) eqn:Hperm;
    [|left; eexists _, _; split; [reflexivity|intros ? ? Hin; inversion Hin]].
  destruct (call_cases h ref
              {| p_msg := msg; p_muc := muc; p_nick := nick; p_jid := jid;
                 p_quote := quote |} now)
    as [(evs & r & Hcall & Hno)|(c' & Hc' & Hcall)]; rewrite Hcall.
  - left. destruct r; eexists _, _; (split; [reflexivity|exact Hno]).
  - right. rewrite Hc in Hc'. injection Hc' as <-.
    assert (Hallowed : allowed e muc cmd_name c jid).
    { split.
      - intros Hadmin. unfold permitted in Hperm. rewrite Hadmin in Hperm.
        destruct (is_admin_jid e jid); [reflexivity|discriminate].
      - intros m -> Hm. unfold muc_blocks in Hblock.
        assert (truthy_str m = true) as Htm.
        { unfold truthy_str. apply negb_true_iff, String.eqb_neq. exact Hm. }
        rewrite Htm in Hblock. simpl in Hblock.
        destruct (mem cmd_name _); [discriminate|].
        destruct (mem (plugin c) (default [] _)); [discriminate|].
        split; [reflexivity|]. split; [reflexivity|].
        intros wl Hwl. rewrite Hwl in Hblock.
        apply negb_false_iff in Hblock. exact Hblock. }
    destruct (of_outcome (function c _)); eexists ref, c, _;
      (split; [reflexivity|]); (split; [exact Hc|]);
      (split; [exact Hallowed|]); reflexivity.
Qed.

Lemma suggestion_events_no_call (e : env) (h : CommandHandler)
    (cmd_name : string) (muc nick jid : option string) (name : string)
    (q : command_params) :
  CallFunction name q ∉ (_send_suggested_command e h cmd_name muc nick jid).2.
Proof.
  destruct (send_suggested_command_cases e h cmd_name muc nick jid)
    as [->|(s & _ & _ & _ & _ & [[_ ->]|[_ ->]])]; simpl; intros Hin.
  - inversion Hin.
  - inversion Hin.
  - apply list_elem_of_singleton in Hin. discriminate.
Qed.

Lemma handle_command_cases (e : env) (h : CommandHandler) (msg : message)
    (prefix : string) (muc nick jid quote : option string) (now : Q) :
  (∃ evs r, _handle_command e h msg prefix muc nick jid quote now = (h, evs, r)
            ∧ ∀ name q, CallFunction name q ∉ evs)
  ∨ (∃ cmd_name ref c evs r,
       dict_get cmd_name (commands h) = Some ref
       ∧ heap h !! ref = Some c
       ∧ allowed e muc cmd_name c (sender_jid e muc nick jid)
       ∧ startswith (lower (strip (body msg))) prefix = true
       ∧ (∀ name q, CallFunction name q ∉ evs)
       ∧ let p := {| p_msg := msg; p_muc := muc; p_nick := nick;
                     p_jid := sender_jid e muc nick jid; p_quote := quote |} in
         _handle_command e h msg prefix muc nick jid quote now
         = (with_heap h
              (<[ref := set_last_used c
                          (user_key muc nick (sender_jid e muc nick jid)) now]>
                 (heap h)),
            evs ++ [CallFunction (name c) p], r)).
Proof.
  unfold _handle_command. fold (sender_jid e muc nick jid).
  set (j := sender_jid e muc nick jid).
  destruct (startswith (lower (strip (body msg))) prefix) eqn:Hstart; simpl;
    [|left; eexists _, _; split; [reflexivity|intros ? ? Hin; inversion Hin]].
  destruct (String.length (lower (strip (body msg))) <=? String.length prefix);
    [left; eexists _, _; split; [reflexivity|intros ? ? Hin; inversion Hin]|].
  destruct (split _) as [|typed rest];
    [left; eexists _, _; split; [reflexivity|intros ? ? Hin; inversion Hin]|].
  destruct (dict_get (resolve_alias h typed) (commands h)) as [ref0|] eqn:Hget.
  - destruct (run_resolved_cases e h msg (resolve_alias h typed) muc nick j
                quote now)
      as [(evs & r & Hrun & Hno)|(ref & c & r & Hg & Hc & Hal & Hrun)].
    + left. eexists _, _. split; [exact Hrun|exact Hno].
    + right. exists (resolve_alias h typed), ref, c, [], r.
      split; [exact Hg|]. split; [exact Hc|]. split; [exact Hal|].
      split; [reflexivity|]. split; [intros ? ? Hin; inversion Hin|].
      exact Hrun.
  - destruct (show_command_suggestion h);
      [|left; eexists _, _; split; [reflexivity|intros ? ? Hin; inversion Hin]].
    pose proof (suggestion_events_no_call e h (resolve_alias h typed) muc nick j)
      as Hsug.
    destruct (_send_suggested_command e h (resolve_alias h typed) muc nick j)
      as [[s|] evs0]; simpl in Hsug;
      [|left; eexists _, _; split; [reflexivity|exact Hsug]].
    destruct (run_resolved_cases e h msg s muc nick j quote now)
      as [(evs & r & Hrun & Hno)|(ref & c & r & Hg & Hc & Hal & Hrun)].
    + left. rewrite Hrun. eexists _, _. split; [reflexivity|].
      intros name q Hin. apply elem_of_app in Hin as [Hin|Hin].
      * exact (Hsug name q Hin).
      * exact (Hno name q Hin).
    + right. exists s, ref, c, evs0, r.
      split; [exact Hg|]. split; [exact Hc|]. split; [exact Hal|].
      split; [reflexivity|]. split; [exact Hsug|].
      simpl in Hrun. simpl. rewrite Hrun. reflexivity.
Qed.

(** X3: [_handle_command] awaits the handler of a command only when the
    body starts with the prefix, the command is registered under the name
    that is looked up, the command is not reserved to administrators or the
    sender (the JID given, or the one found for the nickname) is one, and,
    in a room, neither the name is among the disabled commands nor the
    plugin among the disabled plugins, and the plugin is on the whitelist
    when there is one. The parameters handed to the handler are those of the
    message. *)
Theorem handler_is_awaited_only_when_allowed (e : env) (h : CommandHandler)
    (msg : message) (prefix : string) (muc nick jid quote : option string)
    (now : Q) (name : string) (q : command_params) :
  CallFunction name q
    ∈ (_handle_command e h msg prefix muc nick jid quote now).1.2 →
  ∃ cmd_name ref c,
    dict_get cmd_name (commands h) = Some ref
    ∧ heap h !! ref = Some c
    ∧ name = Commands.name c
    ∧ q = {| p_msg := msg; p_muc := muc; p_nick := nick;
             p_jid := sender_jid e muc nick jid; p_quote := quote |}
    ∧ allowed e muc cmd_name c (sender_jid e muc nick jid)
    ∧ startswith (lower (strip (body msg))) prefix = true.
Proof.
  intros Hin.
  destruct (handle_command_cases e h msg prefix muc nick jid quote now)
    as [(evs & r & Hrun & Hno)
       |(cmd_name & ref & c & evs & r & Hg & Hc & Hal & Hst & Hno & Hrun)].
  - rewrite Hrun in Hin. simpl in Hin. destruct (Hno name q Hin).
  - simpl in Hrun. rewrite Hrun in Hin. simpl in Hin.
    apply elem_of_app in Hin as [Hin|Hin]; [destruct (Hno name q Hin)|].
    apply list_elem_of_singleton in Hin. injection Hin as -> ->.
    exists cmd_name, ref, c. repeat (split; [assumption || reflexivity|]).
    exact Hst.
Qed.

Lemma handler_is_awaited_only_when_allowed_witness :
  ∃ cmd_name ref c,
    dict_get cmd_name (commands Scenario.ping_handler) = Some ref
    ∧ heap Scenario.ping_handler !! ref = Some c
    ∧ "ping" = Commands.name c
    ∧ Scenario.alice_params ".ping"
      = {| p_msg := Scenario.text_message "alice" "m1" ".ping";
           p_muc := Some Scenario.room; p_nick := Some "alice";
           p_jid := sender_jid Scenario.plain_env (Some Scenario.room)
                      (Some "alice") None;
           p_quote := None |}
    ∧ allowed Scenario.plain_env (Some Scenario.room) cmd_name c
        (sender_jid Scenario.plain_env (Some Scenario.room) (Some "alice") None)
    ∧ startswith
        (lower (strip (body (Scenario.text_message "alice" "m1" ".ping"))))
        "." = true.
Proof.
  apply (handler_is_awaited_only_when_allowed Scenario.plain_env
           Scenario.ping_handler (Scenario.text_message "alice" "m1" ".ping")
           "." (Some Scenario.room) (Some "alice") None None 100 "ping"
           (Scenario.alice_params ".ping")).
  vm_compute. apply list_elem_of_here.
Defined.

(** X4: [_handle_command] changes the state of the command handler only
    by running a command: either no handler is awaited and the state is as
    before (a refusal, a cooldown or a suggestion costs nothing), or exactly
    one handler is awaited, as the last event, and the only change is the
    last-used time of the sender in the object of that command. *)
Theorem dispatch_changes_only_the_command_it_runs (e : env)
    (h : CommandHandler) (msg : message) (prefix : string)
    (muc nick jid quote : option string) (now : Q) :
  let run := _handle_command e h msg prefix muc nick jid quote now in
  (run.1.1 = h ∧ ∀ name q, CallFunction name q ∉ run.1.2)
  ∨ (∃ ref c evs p,
       heap h !! ref = Some c
       ∧ run.1.1
         = with_heap h
             (<[ref := set_last_used c
                         (user_key muc nick (sender_jid e muc nick jid)) now]>
                (heap h))
       ∧ run.1.2 = evs ++ [CallFunction (Commands.name c) p]
       ∧ ∀ name q, CallFunction name q ∉ evs).
Proof.
  intros run. subst run.
  destruct (handle_command_cases e h msg prefix muc nick jid quote now)
    as [(evs & r & Hrun & Hno)
       |(cmd_name & ref & c & evs & r & Hg & Hc & Hal & Hst & Hno & Hrun)].
  - left. rewrite Hrun. split; [reflexivity|exact Hno].
  - right. simpl in Hrun. rewrite Hrun. exists ref, c, evs. eexists.
    split; [exact Hc|]. split; [reflexivity|]. split; [reflexivity|exact Hno].
Qed.

(** ** Aliases *)

Lemma alias_loop_unaliased (hp : list Command) (entries : list (string * nat))
    (x : string) :
  (∀ entry c, entry ∈ entries → hp !! entry.2 = Some c →
              mem x (aliases c) = false) →
  fold_left (alias_step hp) entries x = x.
Proof.
  induction entries as [|entry entries IH]; intros Hno; [reflexivity|].
  cbn [fold_left]. unfold alias_step at 2.
  destruct (hp !! entry.2) as [c|] eqn:Hc.
  - rewrite (Hno entry c (list_elem_of_here _ _) Hc).
    apply IH. intros entry' c' Hin. apply Hno. apply list_elem_of_further.
    exact Hin.
  - apply IH. intros entry' c' Hin. apply Hno. apply list_elem_of_further.
    exact Hin.
Qed.

(** X5: The alias loop of [_handle_command] turns a name into the name
    of the first command, in the order of the registry, that lists it among
    its aliases, provided no later command lists that name as an alias; a
    registered command of the same name as the alias does not stop this. *)
Theorem alias_resolves_to_its_command (h : CommandHandler)
    (l1 l2 : list (string * nat)) (n : string) (ref : nat) (c : Command)
    (x : string) :
  commands h = l1 ++ (n, ref) :: l2 →
  heap h !! ref = Some c →
  mem x (aliases c) = true →
  (∀ entry c', entry ∈ l1 → heap h !! entry.2 = Some c' →
               mem x (aliases c') = false) →
  (∀ entry c', entry ∈ l2 → heap h !! entry.2 = Some c' →
               mem (name c) (aliases c') = false) →
  resolve_alias h x = name c.
Proof.
  intros Hcmds Hc Hx Hl1 Hl2. unfold resolve_alias. rewrite Hcmds.
  rewrite fold_left_app. rewrite (alias_loop_unaliased _ l1 x Hl1).
  cbn [fold_left]. unfold alias_step at 2. simpl. rewrite Hc, Hx.
  apply alias_loop_unaliased. exact Hl2.
Qed.

Lemma alias_resolves_to_its_command_witness :
  resolve_alias Scenario.default_commands "reboot" = "restart".
Proof.
  apply (alias_resolves_to_its_command Scenario.default_commands
           [("help", 0); ("join", 1); ("ignore", 2); ("shutdown", 3)]
           [("logs", 5)] "restart" 4
           (Scenario.command_named Scenario.default_commands 4) "reboot").
  - reflexivity.
  - reflexivity.
  - reflexivity.
  - intros entry c' Hin Hc'.
    repeat (apply elem_of_cons in Hin as [->|Hin];
            [injection Hc' as <-; reflexivity|]).
    inversion Hin.
  - intros entry c' Hin Hc'.
    repeat (apply elem_of_cons in Hin as [->|Hin];
            [injection Hc' as <-; reflexivity|]).
    inversion Hin.
Defined.

(** ** Suggestions, the other direction *)

Lemma first_closest_unique (cmd_name : string) (names : list string)
    (s s' : string) :
  first_closest cmd_name names s → first_closest cmd_name names s' → s = s'.
Proof.
  intros (l1 & l2 & -> & Hl1 & Hl2) (l1' & l2' & Heq & Hl1' & Hl2').
  apply app_eq_app in Heq as (l & [[Hl Hr]|[Hl Hr]]).
  - destruct l as [|y l]; simpl in Hr; [congruence|].
    injection Hr as Hy Hr.
    assert (Hs' : s' ∈ l1).
    { rewrite Hl, Hy. apply elem_of_app. right. apply list_elem_of_here. }
    assert (Hs : s ∈ l2').
    { rewrite Hr. apply elem_of_app. right. apply list_elem_of_here. }
    specialize (Hl1 _ Hs'). specialize (Hl2' _ Hs). lia.
  - destruct l as [|y l]; simpl in Hr; [congruence|].
    injection Hr as Hy Hr.
    assert (Hs : s ∈ l1').
    { rewrite Hl, Hy. apply elem_of_app. right. apply list_elem_of_here. }
    assert (Hs' : s' ∈ l2).
    { rewrite Hr. apply elem_of_app. right. apply list_elem_of_here. }
    specialize (Hl1' _ Hs). specialize (Hl2 _ Hs'). lia.
Qed.

(** X6: The converse of C5: for a candidate of 5 to 15 characters, when
    the first closest name among those the caller may use is within distance
    2, [_send_suggested_command] returns that name when suggestions are run,
    and otherwise sends the reply that proposes it and returns nothing.  The
    test of the distance against the length of the candidate never decides. *)
Theorem close_name_is_suggested (e : env) (h : CommandHandler)
    (cmd_name : string) (muc nick jid : option string) (s : string) :
  5 ≤ String.length cmd_name ≤ 15 →
  levenshtein_distance cmd_name s ≤ 2 →
  first_closest cmd_name (permitted_names e h jid) s →
  _send_suggested_command e h cmd_name muc nick jid
  = if run_command_suggestion h then (Some s, [])
    else (None,
          [SendMessage (user_key muc nick jid)
             (suggestion_body cmd_name (Some s)) "chat"]).
Proof.
  intros Hlen Hd Hfirst. unfold _send_suggested_command.
  destruct (Nat.ltb_spec 15 (String.length cmd_name)); [lia|].
  destruct (Nat.ltb_spec (String.length cmd_name) 5); [lia|].
  pose proof (best_match_first_closest e h cmd_name jid) as Hbest.
  destruct (best_match e h cmd_name jid) as [best md].
  unfold closest_so_far in Hbest. simpl in Hbest.
  destruct md as [m|].
  - destruct Hbest as (s' & -> & -> & Hfirst').
    rewrite (first_closest_unique _ _ _ _ Hfirst' Hfirst).
    destruct (Nat.leb_spec (String.length cmd_name)
                (levenshtein_distance cmd_name s)); [lia|].
    destruct (Nat.ltb_spec 2 (levenshtein_distance cmd_name s)); [lia|].
    reflexivity.
  - destruct Hbest as [Hnil _]. destruct Hfirst as (l1 & l2 & Hn & _).
    rewrite Hnil in Hn. destruct l1; discriminate.
Qed.

Lemma close_name_is_suggested_witness :
  _send_suggested_command Scenario.plain_env (Scenario.status_handler false)
    "statu" (Some Scenario.room) (Some "alice") None
  = (None,
     [SendMessage (Some (Scenario.room +:+ "/alice"))
        "'statu' is not a valid command, did you mean 'status'?" "chat"]).
Proof.
  apply (close_name_is_suggested Scenario.plain_env
           (Scenario.status_handler false) "statu" (Some Scenario.room)
           (Some "alice") None "status").
  - simpl. lia.
  - vm_compute. lia.
  - exists [], ["stats"; "help"; "abcdefghijklmno"].
    split; [reflexivity|]. split.
    + intros n Hn. inversion Hn.
    + intros n Hn.
      repeat (apply elem_of_cons in Hn as [->|Hn]; [vm_compute; lia|]).
      inversion Hn.
Defined.

(** ** The registry *)

Lemma registry_ok_set_last_used (h : CommandHandler) (ref : nat) (c : Command)
    (user : option string) (t : Q) :
  heap h !! ref = Some c →
  registry_ok h →
  registry_ok (with_heap h (<[ref := set_last_used c user t]> (heap h))).
Proof.
  intros Hself Hok name' ref' Hget. simpl in Hget.
  destruct (Hok name' ref' Hget) as (c' & Hc & Hname & Hcat).
  destruct (decide (ref = ref')) as [<-|Hne].
  - eexists. split.
    + simpl. apply list_lookup_insert_eq. apply lookup_lt_Some in Hc.
      exact Hc.
    + rewrite Hself in Hc. injection Hc as <-.
      split; [exact Hname|exact Hcat].
  - exists c'. split; [|split; [exact Hname|exact Hcat]].
    simpl. rewrite list_lookup_insert_ne by exact Hne. exact Hc.
Qed.

(** X7: The registry stays in order: after [CommandHandler.__init__],
    after every [register_command] and after every [_handle_command], each
    registered name refers to a command object of that name, which is a
    member of the list of its category when it has one. *)
Theorem registry_stays_in_order :
  (∀ show run, registry_ok (init show run))
  ∧ (∀ e h name plugin function category aliases cooldown hidden admin,
       registry_ok h →
       registry_ok (register_command e h name plugin function category
                      aliases cooldown hidden admin))
  ∧ (∀ e h msg prefix muc nick jid quote now,
       registry_ok h →
       registry_ok (_handle_command e h msg prefix muc nick jid quote now).1.1).
Proof.
  split; [exact registry_ok_init|]. split; [exact registry_ok_register|].
  intros e h msg prefix muc nick jid quote now Hok.
  destruct (handle_command_cases e h msg prefix muc nick jid quote now)
    as [(evs & r & Hrun & Hno)
       |(cmd_name & ref & c & evs & r & Hg & Hc & Hal & Hst & Hno & Hrun)].
  - rewrite Hrun. exact Hok.
  - simpl in Hrun. rewrite Hrun. simpl.
    apply registry_ok_set_last_used; assumption.
Qed.

(** ** The store, operation by operation *)

(** X8: [set] is an insert-or-replace of the text of the value: after
    two writes of the same row the second value is read, and every other row
    reads as before.  A value [None] is stored as the text [None], which is
    a true value when read back. *)
Theorem set_is_an_upsert (d : db) (pn k f : string) (v w : pyval)
    (pn' k' f' : string) :
  get (set (set d pn k f v) pn k f w) pn' k' f'
  = (if decide (pn = pn' ∧ k = k' ∧ f = f') then Some (str w)
     else get d pn' k' f')
  ∧ get (set d pn k f PNone) pn k f = Some "None"
  ∧ truthy_ostr (get (set d pn k f PNone) pn k f) = true.
Proof.
  split; [|split].
  - rewrite !get_set.
    destruct (decide (pn = pn' ∧ k = k' ∧ f = f')); reflexivity.
  - apply get_set_eq.
  - rewrite get_set_eq. reflexivity.
Qed.

Lemma get_delete (d : db) (pn k : string) (fld : option string)
    (pn' k' f' : string) :
  get (delete d pn k fld) pn' k' f'
  = if decide (pn = pn' ∧ k = k'
               ∧ (truthy_ostr fld = true → fmt fld = f'))
    then None else get d pn' k' f'.
Proof.
  unfold get, delete, table_of.
  destruct (decide (pn = pn')) as [<-|Hpn].
  - destruct (truthy_ostr fld) eqn:Hfld.
    + rewrite lookup_insert_eq. simpl.
      destruct (decide ((k, fmt fld) = (k', f'))) as [Heq|Hne].
      * injection Heq as <- <-. rewrite lookup_delete_eq.
        rewrite decide_True by done. reflexivity.
      * rewrite lookup_delete_ne by exact Hne.
        rewrite decide_False; [reflexivity|].
        intros (_ & <- & Hf). apply Hne. rewrite Hf; reflexivity.
    + rewrite lookup_insert_eq. simpl.
      rewrite map_lookup_filter. simpl.
      destruct (decide (k = k')) as [<-|Hk].
      * rewrite decide_True by (split; [|split]; [done|done|discriminate]).
        destruct (default ∅ (d !! pn) !! (k, f')); simpl; [|reflexivity].
        rewrite option_guard_False by (intros H; apply H; reflexivity).
        reflexivity.
      * rewrite decide_False by (intros (_ & ? & _); congruence).
        destruct (default ∅ (d !! pn) !! (k', f')); simpl; [|reflexivity].
        rewrite option_guard_True by (simpl; congruence). reflexivity.
  - rewrite decide_False by (intros (? & _); congruence).
    destruct (truthy_ostr fld); rewrite lookup_insert_ne by exact Hpn;
      reflexivity.
Qed.

(** X9: [delete] with a field that is a true value removes that one row;
    with no field, or with the empty string as field, it removes every row
    of the key.  All other rows, in this table and in the others, read as
    before. *)
Theorem delete_removes_the_field_or_the_key (d : db) (pn k : string)
    (fld : option string) (pn' k' f' : string) :
  (truthy_ostr fld = true →
   get (delete d pn k fld) pn' k' f'
   = if decide (pn = pn' ∧ k = k' ∧ fmt fld = f') then None
     else get d pn' k' f')
  ∧ (truthy_ostr fld = false →
     get (delete d pn k fld) pn' k' f'
     = if decide (pn = pn' ∧ k = k') then None else get d pn' k' f').
Proof.
  split; intros Hfld; rewrite get_delete, Hfld.
  - destruct (decide (pn = pn' ∧ k = k' ∧ fmt fld = f')) as [H|H].
    + rewrite decide_True; [reflexivity|]. destruct H as (? & ? & ?). done.
    + rewrite decide_False; [reflexivity|].
      intros (? & ? & Hf). apply H. split; [done|]. split; [done|].
      apply Hf. reflexivity.
  - destruct (decide (pn = pn' ∧ k = k')) as [H|H].
    + rewrite decide_True; [reflexivity|]. destruct H. done.
    + rewrite decide_False; [reflexivity|].
      intros (? & ? & _). apply H. done.
Qed.

Lemma get_all_fields_ext (d d' : db) (pn pn' k k' : string) :
  (∀ f, get d pn k f = get d' pn' k' f) →
  get_all_fields d pn k = get_all_fields d' pn' k'.
Proof.
  intros H. apply map_eq. intros f. rewrite !get_all_fields_lookup. apply H.
Qed.

Lemma get_all_keys_lookup (d : db) (pn k : string) :
  get_all_keys d pn !! k
  = if decide (get_all_fields d pn k = ∅) then None
    else Some (get_all_fields d pn k).
Proof.
  unfold get_all_fields, get_all_keys, by_key.
  destruct (map_curry (table_of d pn) !! k) as [m|] eqn:Hm; simpl.
  - rewrite decide_False; [reflexivity|].
    eapply (map_curry_non_empty (M1 := gmap string) (M2 := gmap string)).
    exact Hm.
  - rewrite decide_True by reflexivity. reflexivity.
Qed.

(** X10: [get_all_keys] maps a key to a dict exactly when the table has
    a row of that key, and the dict holds exactly the rows of the key as
    [get] reads them. *)
Theorem get_all_keys_lists_the_keys_with_rows (d : db) (pn k : string)
    (m : gmap string string) :
  get_all_keys d pn !! k = Some m
  ↔ m ≠ ∅ ∧ ∀ f, m !! f = get d pn k f.
Proof.
  rewrite get_all_keys_lookup. split.
  - destruct (decide (get_all_fields d pn k = ∅)) as [He|Hne]; [discriminate|].
    intros [= <-]. split; [exact Hne|]. intros f. apply get_all_fields_lookup.
  - intros [Hne Hm].
    assert (m = get_all_fields d pn k) as <-.
    { apply map_eq. intros f. rewrite get_all_fields_lookup. apply Hm. }
    rewrite decide_False by exact Hne. reflexivity.
Qed.

(** X11: [get_all_keys] follows the writes: after [set] the key holds
    its former fields ([get_all_fields]) with the written one replaced;
    after [delete] of a key without a field the key is gone and the other
    keys are as before; after [delete_all_keys] the table has no key. *)
Theorem get_all_keys_follows_set_and_delete (d : db) (pn k f : string)
    (v : pyval) :
  get_all_keys (set d pn k f v) pn
  = <[k := <[f := str v]> (get_all_fields d pn k)]> (get_all_keys d pn)
  ∧ get_all_keys (delete d pn k None) pn = base.delete k (get_all_keys d pn)
  ∧ get_all_keys (delete_all_keys d pn) pn = ∅.
Proof.
  split; [|split].
  - apply map_eq. intros k'. rewrite get_all_keys_lookup.
    destruct (decide (k = k')) as [<-|Hk].
    + rewrite lookup_insert_eq.
      assert (get_all_fields (set d pn k f v) pn k
              = <[f := str v]> (get_all_fields d pn k)) as ->.
      { apply map_eq. intros f'. rewrite get_all_fields_lookup, get_set.
        destruct (decide (f = f')) as [<-|Hf].
        - rewrite decide_True by done. rewrite lookup_insert_eq. reflexivity.
        - rewrite decide_False by (intros (_ & _ & ?); congruence).
          rewrite lookup_insert_ne by exact Hf.
          rewrite get_all_fields_lookup. reflexivity. }
      rewrite decide_False by apply insert_non_empty. reflexivity.
    + rewrite lookup_insert_ne by exact Hk.
      rewrite get_all_keys_lookup.
      rewrite (get_all_fields_ext (set d pn k f v) d pn pn k' k');
        [reflexivity|].
      intros f'. rewrite get_set.
      rewrite decide_False by (intros (_ & ? & _); congruence). reflexivity.
  - apply map_eq. intros k'. rewrite get_all_keys_lookup.
    destruct (decide (k = k')) as [<-|Hk].
    + rewrite lookup_delete_eq.
      assert (get_all_fields (delete d pn k None) pn k = ∅) as ->.
      { apply map_eq. intros f'. rewrite get_all_fields_lookup, get_delete.
        rewrite decide_True by (split; [|split]; [done|done|discriminate]).
        rewrite lookup_empty. reflexivity. }
      rewrite decide_True by reflexivity. reflexivity.
    + rewrite lookup_delete_ne by exact Hk.
      rewrite get_all_keys_lookup.
      rewrite (get_all_fields_ext (delete d pn k None) d pn pn k' k');
        [reflexivity|].
      intros f'. rewrite get_delete.
      rewrite decide_False by (intros (_ & ? & _); congruence). reflexivity.
  - apply map_eq. intros k'. rewrite get_all_keys_lookup.
    assert (get_all_fields (delete_all_keys d pn) pn k' = ∅) as ->.
    { apply map_eq. intros f'. rewrite get_all_fields_lookup.
      unfold get, delete_all_keys, table_of. rewrite lookup_insert_eq.
      simpl. rewrite !lookup_empty. reflexivity. }
    rewrite decide_True by reflexivity. rewrite lookup_empty. reflexivity.
Qed.

(** ** The ledger, entry by entry *)

Lemma get_history_message_ext (d d' : db) (muc ident : string) :
  (∀ f, get d "bot_chat_history" (row_key muc ident) f
        = get d' "bot_chat_history" (row_key muc ident) f) →
  get_history_message d muc ident = get_history_message d' muc ident.
Proof.
  intros H. unfold get_history_message. rewrite (H "timestamp").
  destruct (get d' "bot_chat_history" (row_key muc ident) "timestamp");
    [|reflexivity].
  f_equal. apply map_eq. intros f. rewrite !map_lookup_imap.
  rewrite (get_all_fields_ext d d' _ _ _ _ H), !get_all_fields_lookup.
  destruct (get d' "bot_chat_history" (row_key muc ident) f) eqn:Hf;
    simpl; [rewrite H; exact Hf|reflexivity].
Qed.

Lemma store_chat_history_other (e : env) (d : db)
    (muc nick message_id : string) (stanza_id : option string)
    (body : string) (now : Q) (pn k f : string) :
  pn ≠ "bot_chat_history" ∨ k ≠ row_key muc message_id →
  get (_store_chat_history e d muc nick message_id stanza_id body now) pn k f
  = get d pn k f.
Proof.
  intros Hne. unfold _store_chat_history.
  destruct (get_jid_from_nick e muc nick) as [j|]; rewrite !get_set;
    repeat (rewrite decide_False
              by (intros (? & ? & _); destruct Hne; congruence));
    reflexivity.
Qed.

(** X12: After [_store_chat_history], [get_history_message] finds the
    entry with the nickname, the body, the time and the stanza id that were
    recorded (a missing stanza id as the text [None]), and with the JID of
    the nickname when it is known, the JID stored before otherwise.  Entries
    under other keys and rows of other tables are as before. *)
Theorem recorded_message_is_fetched (e : env) (d : db)
    (muc nick message_id : string) (stanza_id : option string)
    (body : string) (now : Q) :
  let d' := _store_chat_history e d muc nick message_id stanza_id body now in
  (∃ entry,
     get_history_message d' muc message_id = Some entry
     ∧ entry !! "nick" = Some nick
     ∧ entry !! "body" = Some body
     ∧ entry !! "timestamp" = Some (pretty (int now))
     ∧ entry !! "stanza_id" = Some (fmt stanza_id)
     ∧ entry !! "jid"
       = match get_jid_from_nick e muc nick with
         | Some j => Some j
         | None => get d "bot_chat_history" (row_key muc message_id) "jid"
         end)
  ∧ (∀ muc' ident',
       row_key muc' ident' ≠ row_key muc message_id →
       get_history_message d' muc' ident' = get_history_message d muc' ident')
  ∧ (∀ pn k f, pn ≠ "bot_chat_history" → get d' pn k f = get d pn k f).
Proof.
  intros d'. subst d'. split; [|split].
  - destruct (get_history_message_lookup
                (_store_chat_history e d muc nick message_id stanza_id body now)
                muc message_id (pretty (int now))) as (entry & Hentry & Hf).
    { rewrite store_chat_history_get. reflexivity. }
    exists entry. split; [exact Hentry|].
    rewrite !Hf, !store_chat_history_get. simpl.
    repeat split; try reflexivity. destruct stanza_id; reflexivity.
  - intros muc' ident' Hne. apply get_history_message_ext. intros f.
    apply store_chat_history_other. right. exact Hne.
  - intros pn k f Hpn. apply store_chat_history_other. left. exact Hpn.
Qed.

(** *** Replaying the history of a room *)

Lemma set_sql_same (b : Bot) : set_sql b (sql b) = b.
Proof. destruct b. reflexivity. Qed.

Lemma store_chat_history_keeps_timestamps (e : env) (d : db)
    (muc nick message_id : string) (stanza_id : option string)
    (body : string) (now : Q) (key : string) :
  is_Some (get d "bot_chat_history" key "timestamp") →
  is_Some (get (_store_chat_history e d muc nick message_id stanza_id body now)
               "bot_chat_history" key "timestamp").
Proof.
  intros H. destruct (decide (key = row_key muc message_id)) as [->|Hne].
  - rewrite store_chat_history_get. simpl. eexists. reflexivity.
  - rewrite store_chat_history_other by (right; exact Hne). exact H.
Qed.

Lemma get_history_message_is_Some (d : db) (muc ident : string) :
  is_Some (get d "bot_chat_history" (row_key muc ident) "timestamp") →
  is_Some (get_history_message d muc ident).
Proof.
  intros [ts Hts]. destruct (get_history_message_lookup d muc ident ts Hts)
    as (entry & -> & _). eexists. reflexivity.
Qed.

(** A message of the history that is not a correction: afterwards it has
    a timestamp, no timestamp is lost, and nothing but the store
    changed. *)
Lemma process_plain_message (e : env) (x : externals) (muc : string)
    (now : Q) (m : message) (b : Bot) :
  replace_id m = None →
  ∃ d', process_history_message e x muc now m b = (Ok tt, set_sql b d')
        ∧ is_Some (get d' "bot_chat_history" (row_key muc (id m)) "timestamp")
        ∧ ∀ key, is_Some (get (sql b) "bot_chat_history" key "timestamp") →
                 is_Some (get d' "bot_chat_history" key "timestamp").
Proof.
  intros Hrep. unfold process_history_message, bind, read, try_except.
  rewrite Hrep.
  destruct (get_history_message (sql b) muc (id m)) as [entry|] eqn:Hentry.
  - exists (sql b). rewrite set_sql_same. split; [reflexivity|].
    split; [|intros key H; exact H].
    unfold get_history_message in Hentry.
    destruct (get (sql b) "bot_chat_history" (row_key muc (id m)) "timestamp");
      [eexists; reflexivity|discriminate].
  - eexists. split; [reflexivity|]. split.
    + rewrite store_chat_history_get. simpl. eexists. reflexivity.
    + intros key. apply store_chat_history_keeps_timestamps.
Qed.

Lemma process_plain_history (e : env) (x : externals) (muc : string)
    (now : Q) (history : list message) (b : Bot) :
  Forall (λ m, replace_id m = None) history →
  ∃ d', _process_chat_history e x muc history now b = (Ok tt, set_sql b d')
        ∧ Forall (λ m, is_Some (get d' "bot_chat_history"
                                  (row_key muc (id m)) "timestamp")) history
        ∧ ∀ key, is_Some (get (sql b) "bot_chat_history" key "timestamp") →
                 is_Some (get d' "bot_chat_history" key "timestamp").
Proof.
  intros Hall. revert b. induction Hall as [|m history Hm Hall IH]; intros b.
  - exists (sql b). rewrite set_sql_same. split; [reflexivity|].
    split; [constructor|intros key H; exact H].
  - destruct (process_plain_message e x muc now m b Hm)
      as (d1 & Hrun1 & Hseen1 & Hkeep1).
    destruct (IH (set_sql b d1)) as (d2 & Hrun2 & Hseen2 & Hkeep2).
    exists d2. unfold _process_chat_history in *. cbn [for_each].
    unfold bind at 1. rewrite Hrun1, Hrun2. split; [reflexivity|].
    split.
    + constructor; [apply Hkeep2; exact Hseen1|exact Hseen2].
    + intros key H. apply Hkeep2, Hkeep1, H.
Qed.

Lemma replay_of_seen_history (e : env) (x : externals) (muc : string)
    (now : Q) (history : list message) (b : Bot) :
  Forall (λ m, replace_id m = None) history →
  Forall (λ m, is_Some (get (sql b) "bot_chat_history"
                          (row_key muc (id m)) "timestamp")) history →
  _process_chat_history e x muc history now b = (Ok tt, b).
Proof.
  intros Hall Hseen. induction Hall as [|m history Hm Hall IH];
    [reflexivity|].
  inversion Hseen as [|? ? Hs Hseen']; subst.
  unfold _process_chat_history in *. cbn [for_each]. unfold bind at 1.
  rewrite (backfill_skips_stored_message e x muc now m b
             (get_history_message_is_Some _ _ _ Hs) Hm).
  apply IH. exact Hseen'.
Qed.

(** X13: Joining a room with a history that holds no correction never
    fails, puts the room on the list of joined rooms and leaves every
    message of the history stored; joining the same room again with the same
    history, at any later time, changes nothing at all. *)
Theorem rejoin_replays_nothing (e : env) (x : externals) (muc : string)
    (history : list message) (now now' : Q) (b : Bot) :
  Forall (λ m, replace_id m = None) history →
  ∃ b1,
    join_muc e x muc history now b = (Ok tt, b1)
    ∧ mem muc (joined_mucs b1) = true
    ∧ Forall (λ m, is_Some (get_history_message (sql b1) muc (id m))) history
    ∧ join_muc e x muc history now' b1 = (Ok tt, b1).
Proof.
  intros Hall.
  destruct (process_plain_history e x muc now history b Hall)
    as (d1 & Hrun & Hseen & _).
  unfold join_muc, try_except, bind. rewrite Hrun.
  unfold _add_muc_to_joined_list, modify. simpl.
  assert (Hmem : ∀ l : list string, mem muc (l ++ [muc]) = true).
  { intros l. unfold mem. rewrite existsb_app. simpl.
    rewrite String.eqb_refl, orb_true_r. reflexivity. }
  destruct (mem muc (joined_mucs b)) eqn:Hjoined.
  - exists (set_sql b d1). split; [reflexivity|]. split; [exact Hjoined|].
    split.
    + eapply Forall_impl; [exact Hseen|]. intros m Hm.
      apply get_history_message_is_Some. exact Hm.
    + rewrite (replay_of_seen_history e x muc now' history (set_sql b d1)
                 Hall Hseen).
      simpl. rewrite Hjoined. reflexivity.
  - eexists. split; [reflexivity|]. split; [apply Hmem|]. split.
    + eapply Forall_impl; [exact Hseen|]. intros m Hm.
      apply get_history_message_is_Some. exact Hm.
    + rewrite (replay_of_seen_history e x muc now' history
                 (set_joined_mucs (set_sql b d1) (joined_mucs b ++ [muc]))
                 Hall Hseen).
      simpl. rewrite Hmem. reflexivity.
Qed.

Lemma rejoin_replays_nothing_witness :
  ∃ b1,
    join_muc Scenario.plain_env Scenario.ext Scenario.room
      [Scenario.text_message "alice" "m1" "hello";
       Scenario.text_message "bob" "m2" "hi"] 100 Scenario.empty_bot
    = (Ok tt, b1)
    ∧ mem Scenario.room (joined_mucs b1) = true
    ∧ Forall (λ m, is_Some (get_history_message (sql b1) Scenario.room (id m)))
        [Scenario.text_message "alice" "m1" "hello";
         Scenario.text_message "bob" "m2" "hi"]
    ∧ join_muc Scenario.plain_env Scenario.ext Scenario.room
        [Scenario.text_message "alice" "m1" "hello";
         Scenario.text_message "bob" "m2" "hi"] 200 b1
      = (Ok tt, b1).
Proof.
  apply (rejoin_replays_nothing Scenario.plain_env Scenario.ext Scenario.room
           [Scenario.text_message "alice" "m1" "hello";
            Scenario.text_message "bob" "m2" "hi"] 100 200 Scenario.empty_bot).
  repeat constructor.
Defined.

(** X14: A correction whose target was never recorded still writes the
    new body and an edit history (one pair, from [None] to [None]) under the
    key of the target, but no time of recording: [get_history_message] does
    not find the entry. *)
Theorem correction_of_unseen_message_stays_unseen (x : externals) (d : db)
    (muc nick message_id replace_id : string) (stanza_id : option string)
    (body : string) (now : Q) :
  (∀ f, get d "bot_chat_history" (row_key muc replace_id) f = None) →
  json_loads x "{}" = Some [] →
  ∃ d',
    _store_correction_history x d muc nick message_id replace_id stanza_id
      body now = Ok d'
    ∧ get d' "bot_chat_history" (row_key muc replace_id) "body" = Some body
    ∧ get d' "bot_chat_history" (row_key muc replace_id) "edit_history"
      = Some (json_dumps x [(None, None)])
    ∧ get_history_message d' muc replace_id = None.
Proof.
  intros Hnone Hloads.
  destruct (store_correction_history_run x d muc nick message_id replace_id
              stanza_id body now []) as (d' & Hrun & Hget).
  { rewrite Hnone. exact Hloads. }
  exists d'. split; [exact Hrun|]. rewrite !Hget. simpl.
  split; [reflexivity|]. split.
  - rewrite !Hnone. reflexivity.
  - apply get_history_message_unseen. rewrite Hget. simpl. apply Hnone.
Qed.

Lemma correction_of_unseen_message_stays_unseen_witness :
  ∃ d',
    _store_correction_history Scenario.ext ∅ Scenario.room "alice" "m2" "m1"
      None "hello again" 100 = Ok d'
    ∧ get d' "bot_chat_history" (row_key Scenario.room "m1") "body"
      = Some "hello again"
    ∧ get d' "bot_chat_history" (row_key Scenario.room "m1") "edit_history"
      = Some (json_dumps Scenario.ext [(None, None)])
    ∧ get_history_message d' Scenario.room "m1" = None.
Proof.
  apply (correction_of_unseen_message_stays_unseen Scenario.ext ∅
           Scenario.room "alice" "m2" "m1" None "hello again" 100).
  - intros f. reflexivity.
  - reflexivity.
Defined.

(** ** Loading the user states *)

Lemma list_ascii_of_string_app (s t : string) :
  String.list_ascii_of_string (s +:+ t)
  = String.list_ascii_of_string s ++ String.list_ascii_of_string t.
Proof. induction s as [|a s IH]; simpl; [reflexivity|]. rewrite IH. reflexivity. Qed.

Lemma string_of_list_ascii_app (l1 l2 : list ascii) :
  String.string_of_list_ascii (l1 ++ l2)
  = String.string_of_list_ascii l1 +:+ String.string_of_list_ascii l2.
Proof. induction l1 as [|a l1 IH]; simpl; [reflexivity|]. rewrite IH. reflexivity. Qed.

Lemma split_once_go_joins (sep : ascii) (cur l : list ascii) (a b : string) :
  split_once_go sep cur l = [a; b] →
  String.string_of_list_ascii (rev cur ++ l) = a +:+ String sep b.
Proof.
  revert cur. induction l as [|c l IH]; intros cur H; simpl in H.
  - discriminate.
  - destruct (Ascii.eqb_spec c sep) as [->|Hne].
    + injection H as <- <-. rewrite string_of_list_ascii_app. reflexivity.
    + specialize (IH (c :: cur) H). simpl in IH.
      rewrite <- app_assoc in IH. exact IH.
Qed.

Lemma split_once_joins (sep : ascii) (key a b : string) :
  split_once sep key = [a; b] → key = a +:+ String sep b.
Proof.
  intros H. apply split_once_go_joins in H. simpl in H.
  rewrite String.string_of_list_ascii_of_string in H. exact H.
Qed.

Lemma split_once_go_at_first (sep : ascii) (cur l1 l2 : list ascii) :
  sep ∉ l1 →
  split_once_go sep cur (l1 ++ sep :: l2)
  = [String.string_of_list_ascii (rev cur ++ l1);
     String.string_of_list_ascii l2].
Proof.
  revert cur. induction l1 as [|c l1 IH]; intros cur Hno; simpl.
  - rewrite Ascii.eqb_refl, app_nil_r. reflexivity.
  - destruct (Ascii.eqb_spec c sep) as [->|Hne].
    + exfalso. apply Hno. apply list_elem_of_here.
    + rewrite IH.
      * simpl. rewrite <- app_assoc. reflexivity.
      * intros Hin. apply Hno. apply list_elem_of_further. exact Hin.
Qed.

Lemma split_once_row_key (muc user : string) :
  "_"%char ∉ String.list_ascii_of_string muc →
  split_once "_" (row_key muc user) = [muc; user].
Proof.
  intros Hno. unfold split_once, row_key.
  rewrite list_ascii_of_string_app. simpl.
  rewrite (split_once_go_at_first "_" [] _ _ Hno). simpl.
  rewrite !String.string_of_list_ascii_of_string. reflexivity.
Qed.

Lemma split_once_cases (sep : ascii) (key : string) :
  (∃ a b, split_once sep key = [a; b]) ∨ split_once sep key = [key].
Proof.
  unfold split_once.
  assert (H : ∀ l cur,
            (∃ a b, split_once_go sep cur l = [a; b])
            ∨ split_once_go sep cur l
              = [String.string_of_list_ascii (rev cur ++ l)]).
  { induction l as [|c l IH]; intros cur; simpl.
    - right. rewrite app_nil_r. reflexivity.
    - destruct (Ascii.eqb c sep); [left; eexists _, _; reflexivity|].
      destruct (IH (c :: cur)) as [Hl|Hr]; [left; exact Hl|right].
      rewrite Hr. simpl. rewrite <- app_assoc. reflexivity. }
  destruct (H (String.list_ascii_of_string key) []) as [Hl|Hr];
    [left; exact Hl|right].
  rewrite Hr. simpl. rewrite String.string_of_list_ascii_of_string.
  reflexivity.
Qed.

Lemma load_step_loaded (key : string) (fields : gmap string string)
    (m : gmap string (gmap string string))
    (r : result (gmap string mirror_val)) :
  m !! key = None → loaded m r → loaded (<[key := fields]> m) (load_step key fields r).
Proof.
  intros Hfresh Hr. destruct r as [us|exn]; simpl in *.
  - destruct Hr as (Hrooms & Hin & Hkeys & Hout).
    destruct (split_once_cases "_" key) as [(a & b & Hsplit)|Hsplit];
      rewrite Hsplit.
    + assert (Hroom : ∃ users, default (MRoom ∅) (us !! a) = MRoom users
                               ∧ ∀ u, entry_of us a u = users !! u).
      { unfold entry_of. destruct (us !! a) as [[users|s]|] eqn:Ha; simpl.
        - exists users. split; [reflexivity|]. intros u. reflexivity.
        - destruct (Hrooms a s Ha).
        - exists ∅. split; [reflexivity|]. intros u.
          rewrite lookup_empty. reflexivity. }
      destruct Hroom as (users & -> & Husers). simpl.
      split; [|split; [|split]].
      * intros muc s. destruct (decide (a = muc)) as [<-|Hne].
        -- rewrite lookup_insert_eq. discriminate.
        -- rewrite lookup_insert_ne by exact Hne. apply Hrooms.
      * intros key' fields' muc user Hk Hs.
        destruct (decide (key = key')) as [<-|Hkey].
        -- rewrite lookup_insert_eq in Hk. injection Hk as <-.
           rewrite Hsplit in Hs. injection Hs as <- <-.
           unfold entry_of. rewrite !lookup_insert_eq. reflexivity.
        -- rewrite lookup_insert_ne in Hk by exact Hkey.
           pose proof (Hin key' fields' muc user Hk Hs) as Hentry.
           unfold entry_of in *.
           destruct (decide (a = muc)) as [<-|Hne].
           ++ rewrite lookup_insert_eq.
              destruct (decide (b = user)) as [<-|Hu].
              ** exfalso. apply Hkey.
                 rewrite (split_once_joins _ _ _ _ Hsplit),
                         (split_once_joins _ _ _ _ Hs). reflexivity.
              ** rewrite lookup_insert_ne by exact Hu.
                 rewrite <- Husers. exact Hentry.
           ++ rewrite lookup_insert_ne by exact Hne. exact Hentry.
      * intros key' [fields' Hk].
        destruct (decide (key = key')) as [<-|Hkey].
        -- eexists _, _. exact Hsplit.
        -- rewrite lookup_insert_ne in Hk by exact Hkey.
           apply Hkeys. eexists. exact Hk.
      * intros muc user Hentry. unfold entry_of in Hentry.
        destruct (decide (a = muc)) as [<-|Hne].
        -- rewrite lookup_insert_eq in Hentry.
           destruct (decide (b = user)) as [<-|Hu].
           ++ exists key. rewrite lookup_insert_eq.
              split; [eexists; reflexivity|exact Hsplit].
           ++ rewrite lookup_insert_ne in Hentry by exact Hu.
              rewrite <- Husers in Hentry.
              destruct (Hout a user Hentry) as (key' & Hk & Hs).
              exists key'. split; [|exact Hs].
              rewrite lookup_insert_ne; [exact Hk|].
              intros <-. destruct Hk as [? Hk]. congruence.
        -- rewrite lookup_insert_ne in Hentry by exact Hne.
           destruct (Hout muc user Hentry) as (key' & Hk & Hs).
           exists key'. split; [|exact Hs].
           rewrite lookup_insert_ne; [exact Hk|].
           intros <-. destruct Hk as [? Hk]. congruence.
    + simpl. split; [reflexivity|]. exists key.
      rewrite lookup_insert_eq. split; [eexists; reflexivity|].
      intros muc user Hs. rewrite Hsplit in Hs. discriminate.
  - destruct Hr as (-> & key' & Hk & Hs). split; [reflexivity|].
    exists key'. split; [|exact Hs].
    rewrite lookup_insert_ne; [exact Hk|].
    intros <-. destruct Hk as [? Hk]. congruence.
Qed.

Lemma load_user_states_loaded (d : db) :
  loaded (get_all_keys d "bot_user_states") (_load_user_states d).
Proof.
  unfold _load_user_states.
  apply (map_fold_weak_ind (λ r m, loaded m r)).
  - simpl. split; [|split; [|split]].
    + intros muc s. rewrite lookup_empty. discriminate.
    + intros key fields muc user Hk. rewrite lookup_empty in Hk. discriminate.
    + intros key [? Hk]. rewrite lookup_empty in Hk. discriminate.
    + intros muc user [? H]. unfold entry_of in H.
      rewrite lookup_empty in H. discriminate.
  - intros key fields m r Hfresh Hr. apply load_step_loaded; assumption.
Qed.

(** X15: [_load_user_states] gives, for every key of [bot_user_states],
    the state made of its fields under the room and the user that the key is
    split into at its first underscore, and the mirror it returns has no
    other entry.  It fails, with a [ValueError], exactly on a table with a
    key that has no underscore: when it returns, every key has one. *)
Theorem load_user_states_reads_the_store (d : db) :
  match _load_user_states d with
  | Ok us =>
      (∀ key fields muc user,
         get_all_keys d "bot_user_states" !! key = Some fields →
         split_once "_" key = [muc; user] →
         entry_of us muc user = Some (state_of_fields fields))
      ∧ (∀ muc user,
           is_Some (entry_of us muc user) →
           ∃ key, is_Some (get_all_keys d "bot_user_states" !! key)
                  ∧ split_once "_" key = [muc; user])
      ∧ (∀ key, is_Some (get_all_keys d "bot_user_states" !! key) →
                split_once "_" key ≠ [key])
  | Raise exn =>
      exn = "ValueError"
      ∧ ∃ key, is_Some (get_all_keys d "bot_user_states" !! key)
               ∧ split_once "_" key = [key]
  end.
Proof.
  pose proof (load_user_states_loaded d) as H.
  destruct (_load_user_states d) as [us|exn]; simpl in H.
  - destruct H as (_ & Hin & Hkeys & Hout).
    split; [exact Hin|]. split; [exact Hout|].
    intros key Hkey Hone. destruct (Hkeys key Hkey) as (muc & user & Hs).
    rewrite Hs in Hone. discriminate.
  - destruct H as (-> & key & Hk & Hs). split; [reflexivity|].
    exists key. split; [exact Hk|].
    destruct (split_once_cases "_" key) as [(a & b & Hab)|H1]; [|exact H1].
    destruct (Hs a b Hab).
Qed.

Lemma save_user_state_rows (d : db) (muc user : string)
    (r a s : string) (fs : option Z) :
  r ≠ "" → a ≠ "" → s ≠ "" →
  let d' := (_save_user_state d muc user (Some r) (Some a) (Some s) fs).1 in
  get d' "bot_user_states" (row_key muc user) "role" = Some r
  ∧ get d' "bot_user_states" (row_key muc user) "affiliation" = Some a
  ∧ get d' "bot_user_states" (row_key muc user) "status" = Some s.
Proof.
  intros Hr Ha Hs. unfold _save_user_state. simpl.
  assert (Ht : ∀ t, t ≠ "" → truthy_str t = true).
  { intros t Hne. unfold truthy_str. apply negb_true_iff, String.eqb_neq.
    exact Hne. }
  rewrite (Ht r Hr), (Ht a Ha), (Ht s Hs).
  destruct fs as [z|]; simpl.
  - destruct (negb (z =? 0)%Z); simpl.
    + destruct (truthy_ostr _); simpl; rewrite ?get_set;
        repeat first
          [ rewrite decide_True by done
          | rewrite decide_False by (intros (_ & _ & ?); congruence) ];
        repeat split; reflexivity.
    + rewrite ?get_set;
        repeat first
          [ rewrite decide_True by done
          | rewrite decide_False by (intros (_ & _ & ?); congruence) ];
        repeat split; reflexivity.
  - rewrite ?get_set;
      repeat first
        [ rewrite decide_True by done
        | rewrite decide_False by (intros (_ & _ & ?); congruence) ];
      repeat split; reflexivity.
Qed.

(** X16: What [_save_user_state] wrote for a user is what
    [_load_user_states] reads for that user: when the name of the room has
    no underscore and role, affiliation and status are not empty, the loaded
    mirror holds the user of the room with these three values (the load can
    only fail with the [ValueError] of another key). *)
Theorem saved_user_state_is_loaded (d : db) (muc user r a s : string)
    (fs : option Z) :
  "_"%char ∉ String.list_ascii_of_string muc →
  r ≠ "" → a ≠ "" → s ≠ "" →
  match _load_user_states
          (_save_user_state d muc user (Some r) (Some a) (Some s) fs).1 with
  | Ok us =>
      ∃ st, entry_of us muc user = Some st
            ∧ role st = r ∧ affiliation st = a ∧ status st = s
  | Raise exn => exn = "ValueError"
  end.
Proof.
  intros Hmuc Hr Ha Hs.
  destruct (save_user_state_rows d muc user r a s fs Hr Ha Hs)
    as (Hrole & Haff & Hstatus).
  set (d' := (_save_user_state d muc user (Some r) (Some a) (Some s) fs).1)
    in *.
  pose proof (load_user_states_loaded d') as H.
  destruct (_load_user_states d') as [us|exn]; simpl in H.
  - destruct H as (_ & Hin & _ & _).
    assert (Hkey : get_all_keys d' "bot_user_states" !! row_key muc user
                   = Some (get_all_fields d' "bot_user_states"
                             (row_key muc user))).
    { rewrite get_all_keys_lookup. rewrite decide_False; [reflexivity|].
      intros Hempty.
      pose proof (get_all_fields_lookup d' "bot_user_states"
                    (row_key muc user) "role") as Hl.
      rewrite Hempty, lookup_empty, Hrole in Hl. discriminate. }
    eexists. split.
    + apply (Hin _ _ muc user Hkey). apply split_once_row_key. exact Hmuc.
    + unfold state_of_fields. simpl. rewrite !get_all_fields_lookup.
      rewrite Hrole, Haff, Hstatus. repeat split; reflexivity.
  - destruct H as [-> _]. reflexivity.
Qed.

Lemma saved_user_state_is_loaded_witness :
  match _load_user_states
          (_save_user_state ∅ Scenario.room "alice" (Some "participant")
             (Some "member") (Some "available") (Some 100%Z)).1 with
  | Ok us =>
      ∃ st, entry_of us Scenario.room "alice" = Some st
            ∧ role st = "participant" ∧ affiliation st = "member"
            ∧ status st = "available"
  | Raise exn => exn = "ValueError"
  end.
Proof.
  apply (saved_user_state_is_loaded ∅ Scenario.room "alice" "participant"
           "member" "available" (Some 100%Z)).
  - intros Hin. vm_compute in Hin.
    repeat (apply elem_of_cons in Hin as [Hin|Hin]; [discriminate|]).
    inversion Hin.
  - discriminate.
  - discriminate.
  - discriminate.
Defined.

(** The underscore matters: the key of a room whose name has one is
    split inside the name. *)
Example room_with_underscore_is_split_early :
  split_once "_" (row_key "my_room@conference.example.org" "alice")
  = ["my"; "room@conference.example.org_alice"].
Proof. reflexivity. Qed.

(** ** Messages that are ignored *)

Lemma handle_correction_none (x : externals) (msg : message) (is_muc : bool)
    (now : Q) (b : Bot) :
  truthy_ostr (replace_id msg) = false →
  _handle_correction x msg is_muc now b = (Ok false, b).
Proof.
  intros H. unfold _handle_correction.
  destruct (replace_id msg) as [rid|]; [|reflexivity].
  simpl in H. rewrite H. reflexivity.
Qed.

(** X17: A room message that is not a correction and that comes from a
    room the bot has not joined, from an ignored nickname, encrypted, or
    from the bot itself changes nothing: no ledger entry, no command, no
    plugin handler. *)
Theorem ignored_room_message_changes_nothing (e : env) (x : externals)
    (msg : message) (now : Q) (b : Bot) :
  truthy_ostr (replace_id msg) = false →
  mem (mucroom msg) (joined_mucs b) = false
  ∨ mem (mucnick msg) (ignored e) = true
  ∨ encrypted msg = true
  ∨ _is_self e msg = true →
  Bot.handle_groupchat_message e x msg now b = (Ok tt, b).
Proof.
  intros Hrep Hcond.
  unfold Bot.handle_groupchat_message, _should_ignore_groupchat_message.
  unfold bind, read. rewrite (handle_correction_none x msg true now b Hrep).
  unfold ret.
  assert (Hignore :
    negb (mem (mucroom msg) (joined_mucs b)) || mem (mucnick msg) (ignored e)
    || encrypted msg || false || _is_self e msg = true).
  { destruct Hcond as [H|[H|[H|H]]]; rewrite H; simpl;
      rewrite ?orb_true_r; reflexivity. }
  rewrite Hignore. reflexivity.
Qed.

Lemma ignored_room_message_changes_nothing_witness :
  Bot.handle_groupchat_message Scenario.plain_env Scenario.ext
    (Scenario.text_message "Nokotan" "m7" ".ping") 100 Scenario.feeds_bot
  = (Ok tt, Scenario.feeds_bot).
Proof.
  apply (ignored_room_message_changes_nothing Scenario.plain_env Scenario.ext
           (Scenario.text_message "Nokotan" "m7" ".ping") 100
           Scenario.feeds_bot).
  - vm_compute. reflexivity.
  - right. right. right. vm_compute. reflexivity.
Defined.

(** X18: A room message that corrects another one is applied to the
    ledger by [_store_correction_history] and nothing else is done with it:
    it is not recorded itself, it runs no command and reaches no plugin.
    This holds whatever the room and the nickname are, also for a room that
    is not joined and for an ignored nickname, since the conditions are
    evaluated before they are tested; a failure of the correction leaves the
    exception to the caller. *)
Theorem correction_is_applied_and_nothing_else (e : env) (x : externals)
    (msg : message) (now : Q) (b : Bot) (rid : string) :
  replace_id msg = Some rid →
  rid ≠ "" →
  Bot.handle_groupchat_message e x msg now b
  = match _store_correction_history x (sql b) (mucroom msg) (mucnick msg)
            (id msg) rid (stanza_id msg) (body msg) now with
    | Ok d => (Ok tt, set_sql b d)
    | Raise exn => (Raise exn, b)
    end.
Proof.
  intros Hrep Hrid.
  unfold Bot.handle_groupchat_message, _should_ignore_groupchat_message.
  unfold bind at 1. unfold bind at 1. unfold read at 1.
  unfold _handle_correction. rewrite Hrep.
  assert (Ht : truthy_str rid = true).
  { unfold truthy_str. apply negb_true_iff, String.eqb_neq. exact Hrid. }
  rewrite Ht. unfold bind at 1. unfold bind at 1.
  unfold update_sql_result.
  destruct (_store_correction_history x (sql b) _ _ _ _ _ _ _) as [d|exn];
    [|reflexivity].
  unfold ret. simpl. rewrite !orb_true_r. reflexivity.
Qed.

Lemma correction_is_applied_and_nothing_else_witness :
  Bot.handle_groupchat_message (Scenario.env_with ∅) Scenario.ext
    Scenario.stray_correction 300 Scenario.feeds_bot
  = match _store_correction_history Scenario.ext (sql Scenario.feeds_bot)
            (mucroom Scenario.stray_correction) (mucnick Scenario.stray_correction)
            (id Scenario.stray_correction) "m1" (stanza_id Scenario.stray_correction)
            (body Scenario.stray_correction) 300 with
    | Ok d => (Ok tt, set_sql Scenario.feeds_bot d)
    | Raise exn => (Raise exn, Scenario.feeds_bot)
    end.
Proof.
  apply (correction_is_applied_and_nothing_else (Scenario.env_with ∅)
           Scenario.ext Scenario.stray_correction 300 Scenario.feeds_bot "m1").
  - reflexivity.
  - discriminate.
Defined.

(** X19: A private message whose sender is not a joined room never makes
    [handle_private_message] raise, whatever a command handler does, and
    when the sender is not an administrator it changes nothing. *)
Theorem private_message_outside_rooms (e : env) (x : externals)
    (msg : message) (now : Q) (b : Bot) :
  mem (from_bare msg) (joined_mucs b) = false →
  (Bot.handle_private_message e x msg now b).1 = Ok tt
  ∧ (mem (from_bare msg) (admins e) = false →
     Bot.handle_private_message e x msg now b = (Ok tt, b)).
Proof.
  intros Hjoined.
  assert (Hign : ∃ c, _should_ignore_private_message x msg now b = (Ok c, b)).
  { unfold _should_ignore_private_message, _handle_correction, bind, ret.
    destruct (replace_id msg) as [rid|]; [|eexists; reflexivity].
    destruct (truthy_str rid); eexists; reflexivity. }
  destruct Hign as [ign Hign].
  assert (Hrun : ∃ b', Bot.handle_private_message e x msg now b = (Ok tt, b')
                       ∧ (mem (from_bare msg) (admins e) = false → b' = b)).
  { unfold Bot.handle_private_message. unfold bind at 1. rewrite Hign.
    destruct ign; [exists b; split; [reflexivity|intros _; reflexivity]|].
    unfold bind, read. rewrite Hjoined.
    destruct (mem (from_bare msg) (admins e));
      [|exists b; split; [reflexivity|intros _; reflexivity]].
    unfold try_except, with_command_handler.
    destruct (Commands.handle_private_message e (command_handler b) msg now)
      as [[h evs] [r|exn]]; eexists; (split; [reflexivity|discriminate]). }
  destruct Hrun as (b' & -> & Hb). split; [reflexivity|].
  intros Hn. rewrite (Hb Hn). reflexivity.
Qed.

Lemma private_message_outside_rooms_witness :
  (Bot.handle_private_message Scenario.plain_env Scenario.ext
     (Scenario.private_message "admin@example.org" ".boom") 100
     Scenario.boom_bot).1 = Ok tt
  ∧ Bot.handle_private_message Scenario.plain_env Scenario.ext
      (Scenario.private_message "stranger@example.org" ".boom") 100
      Scenario.boom_bot = (Ok tt, Scenario.boom_bot).
Proof.
  split.
  - apply (private_message_outside_rooms Scenario.plain_env Scenario.ext
             (Scenario.private_message "admin@example.org" ".boom") 100
             Scenario.boom_bot).
    vm_compute. reflexivity.
  - apply (private_message_outside_rooms Scenario.plain_env Scenario.ext
             (Scenario.private_message "stranger@example.org" ".boom") 100
             Scenario.boom_bot).
    + vm_compute. reflexivity.
    + vm_compute. reflexivity.
Defined.

(** ** The message fan-out, plugin by plugin *)



(** ** Presences *)

Lemma not_own_presence (e : env) (pr : presence) :
  muc_jid pr ≠ Some (boundjid_bare e) →
  match muc_jid pr with
  | Some j => String.eqb j (boundjid_bare e)
  | None => false
  end = false.
Proof.
  intros H. destruct (muc_jid pr) as [j|]; [|reflexivity].
  apply String.eqb_neq. congruence.
Qed.

(** A presence that reports what the mirror holds. *)
Lemma unchanged_presence_run (e : env) (x : externals) (pr : presence)
    (now : Q) (b : Bot) (muc nick : string) (rest : list string) (users : gmap string UserState)
    (st : UserState) :
  split_on "/" (pr_from pr) = muc :: nick :: rest →
  muc_nick pr = nick →
  muc_jid pr ≠ Some (boundjid_bare e) →
  user_states b !! muc = Some (MRoom users) →
  users !! presence_user pr nick = Some st →
  role st = muc_role pr →
  affiliation st = muc_affiliation pr →
  status st = pr_type pr →
  handle_groupchat_presence e x pr now b = (Ok tt, b).
Proof.
  intros Hsplit Hnick Hown Hroom Hst Hr Ha Hs.
  unfold handle_groupchat_presence, try_except.
  enough (Hrun : presence_body e x pr now b = (Ok tt, b))
    by (rewrite Hrun; reflexivity).
  unfold presence_body.
  rewrite Hsplit, Hnick, String.eqb_refl, (not_own_presence e pr Hown).
  unfold presence_user in Hst.
  assert (Hbody : ∀ user,
    users !! user = Some st →
    (do _ <-
       modify (λ b0, match user_states b0 !! muc with
                     | Some _ => b0
                     | None => set_user_states b0
                                 (<[muc := MRoom ∅]> (user_states b0))
                     end);
     do users0 <- room_states muc;
     let user_state := users0 !! user in
     do user0 <- ret user;
     do users1 <- room_states muc;
     match users1 !! user0 with
     | None =>
         let first_seen := int now in
         do _ <- set_room_states muc
                   (<[user0 := {| role := muc_role pr;
                                  affiliation := muc_affiliation pr;
                                  status := pr_type pr;
                                  first_seen := PInt first_seen |}]> users1);
         do _ <- save_user_state muc user0 (Some (muc_role pr))
                   (Some (muc_affiliation pr)) (Some (pr_type pr))
                   (Some first_seen);
         _handle_room_join muc user0 pr
           (default [] (muc_list (mucs e) muc "disabled_plugins"))
     | Some _ =>
         _handle_state_changes muc user0 user_state pr
           (default [] (muc_list (mucs e) muc "disabled_plugins"))
     end) b = (Ok tt, b)).
  { intros user Hu. unfold bind, modify, room_states, ret.
    repeat (rewrite Hroom; cbv beta iota).
    rewrite Hu. cbv beta iota. unfold _handle_state_changes, bind, ret.
    rewrite <- Hr, <- Ha, <- Hs, !String.eqb_refl. reflexivity. }
  destruct (truthy_ostr (muc_jid pr)); exact (Hbody _ Hst).
Qed.

Lemma new_user_presence_run (e : env) (x : externals) (pr : presence)
    (now : Q) (b : Bot) (muc nick : string) (rest : list string) :
  split_on "/" (pr_from pr) = muc :: nick :: rest →
  muc_nick pr = nick →
  muc_jid pr ≠ Some (boundjid_bare e) →
  (∀ s, user_states b !! muc ≠ Some (MScalar s)) →
  entry_of (user_states b) muc (presence_user pr nick) = None →
  ∃ users evs,
    handle_groupchat_presence e x pr now b
    = (Ok tt, with_new_user b muc (presence_user pr nick) pr now users evs).
Proof.
  intros Hsplit Hnick Hown Hscalar Hentry.
  unfold handle_groupchat_presence, try_except.
  enough (Hrun : ∃ users evs,
            presence_body e x pr now b
            = (Ok tt,
               with_new_user b muc (presence_user pr nick) pr now users evs)).
  { destruct Hrun as (users & evs & ->). exists users, evs. reflexivity. }
  unfold presence_body.
  rewrite Hsplit, Hnick, String.eqb_refl, (not_own_presence e pr Hown).
  assert (Hbody : ∀ user,
    entry_of (user_states b) muc user = None →
    ∃ users evs,
    (do _ <-
       modify (λ b0, match user_states b0 !! muc with
                     | Some _ => b0
                     | None => set_user_states b0
                                 (<[muc := MRoom ∅]> (user_states b0))
                     end);
     do users0 <- room_states muc;
     let user_state := users0 !! user in
     do user0 <- ret user;
     do users1 <- room_states muc;
     match users1 !! user0 with
     | None =>
         let first_seen := int now in
         do _ <- set_room_states muc
                   (<[user0 := {| role := muc_role pr;
                                  affiliation := muc_affiliation pr;
                                  status := pr_type pr;
                                  first_seen := PInt first_seen |}]> users1);
         do _ <- save_user_state muc user0 (Some (muc_role pr))
                   (Some (muc_affiliation pr)) (Some (pr_type pr))
                   (Some first_seen);
         _handle_room_join muc user0 pr
           (default [] (muc_list (mucs e) muc "disabled_plugins"))
     | Some _ =>
         _handle_state_changes muc user0 user_state pr
           (default [] (muc_list (mucs e) muc "disabled_plugins"))
     end) b = (Ok tt, with_new_user b muc user pr now users evs)).
  { intros user Hu. unfold entry_of in Hu.
    unfold set_room_states, save_user_state, _handle_room_join,
      with_new_user, presence_state.
    unfold bind, modify, room_states, ret.
    destruct (user_states b !! muc) as [[users|s]|] eqn:Hroom.
    - repeat (rewrite Hroom; cbv beta iota). rewrite Hu. cbv beta iota.
      simpl sql.
      destruct (_save_user_state (sql b) muc user _ _ _ _) as [d w] eqn:Hsave.
      match goal with
      | |- context [_handle_presence_event ?a ?m ?u ?p ?dp ?b2] =>
          destruct (handle_presence_event_events a m u p dp b2) as [evs Hevs];
          rewrite Hevs
      end.
      exists users, evs. simpl. rewrite add_trace_app. reflexivity.
    - destruct (Hscalar s eq_refl).
    - do 4 (cbv beta iota; simpl user_states;
            rewrite ?lookup_insert_eq, ?lookup_empty).
      cbv beta iota. simpl sql.
      destruct (_save_user_state (sql b) muc user _ _ _ _) as [d w] eqn:Hsave.
      match goal with
      | |- context [_handle_presence_event ?a ?m ?u ?p ?dp ?b2] =>
          destruct (handle_presence_event_events a m u p dp b2) as [evs Hevs];
          rewrite Hevs
      end.
      exists ∅, evs. simpl. rewrite add_trace_app, insert_insert_eq.
      reflexivity. }
  destruct (truthy_ostr (muc_jid pr)) eqn:Hjid.
  - unfold presence_user in *. rewrite Hjid in *. exact (Hbody _ Hentry).
  - unfold presence_user in *. rewrite Hjid in *. exact (Hbody _ Hentry).
Qed.

(** X21: A presence of a user, not the bot and without a change of
    nickname, that reports the role, the affiliation and the status that the
    mirror holds for the user changes nothing: no event, no write. *)
Theorem unchanged_presence_is_silent (e : env) (x : externals)
    (pr : presence) (now : Q) (b : Bot) (muc nick : string) (rest : list string) (st : UserState) :
  split_on "/" (pr_from pr) = muc :: nick :: rest →
  muc_nick pr = nick →
  muc_jid pr ≠ Some (boundjid_bare e) →
  entry_of (user_states b) muc (presence_user pr nick) = Some st →
  role st = muc_role pr →
  affiliation st = muc_affiliation pr →
  status st = pr_type pr →
  handle_groupchat_presence e x pr now b = (Ok tt, b).
Proof.
  intros Hsplit Hnick Hown Hentry Hr Ha Hs. unfold entry_of in Hentry.
  destruct (user_states b !! muc) as [[users|s]|] eqn:Hroom;
    try discriminate.
  exact (unchanged_presence_run e x pr now b muc nick rest users st Hsplit
           Hnick Hown Hroom Hentry Hr Ha Hs).
Qed.

Lemma unchanged_presence_is_silent_witness :
  handle_groupchat_presence Scenario.plain_env Scenario.ext
    (Scenario.alice_presence "participant") 200 Scenario.after_join
  = (Ok tt, Scenario.after_join).
Proof.
  apply (unchanged_presence_is_silent Scenario.plain_env Scenario.ext
           (Scenario.alice_presence "participant") 200 Scenario.after_join
           Scenario.room "alice" []
           {| role := "participant"; affiliation := "member";
              status := "available"; first_seen := PInt 100 |}).
  - vm_compute. reflexivity.
  - reflexivity.
  - discriminate.
  - vm_compute. reflexivity.
  - reflexivity.
  - reflexivity.
  - reflexivity.
Defined.

(** X22: The first presence of a user that the mirror of the room does
    not hold (the mirror has a dict, or nothing, under the name of the room)
    is recorded: the mirror gets the entry with the reported role,
    affiliation and status and the time as first seen, the store is what
    [_save_user_state] makes of it, the joined rooms and the command handler
    are as before.  The same presence seen again, at any time, changes
    nothing. *)
Theorem new_user_presence_is_recorded_once (e : env) (x : externals)
    (pr : presence) (now now' : Q) (b : Bot) (muc nick : string) (rest : list string) :
  split_on "/" (pr_from pr) = muc :: nick :: rest →
  muc_nick pr = nick →
  muc_jid pr ≠ Some (boundjid_bare e) →
  (∀ s, user_states b !! muc ≠ Some (MScalar s)) →
  entry_of (user_states b) muc (presence_user pr nick) = None →
  ∃ b1,
    handle_groupchat_presence e x pr now b = (Ok tt, b1)
    ∧ entry_of (user_states b1) muc (presence_user pr nick)
      = Some (presence_state pr (PInt (int now)))
    ∧ sql b1
      = (_save_user_state (sql b) muc (presence_user pr nick)
           (Some (muc_role pr)) (Some (muc_affiliation pr))
           (Some (pr_type pr)) (Some (int now))).1
    ∧ joined_mucs b1 = joined_mucs b
    ∧ command_handler b1 = command_handler b
    ∧ handle_groupchat_presence e x pr now' b1 = (Ok tt, b1).
Proof.
  intros Hsplit Hnick Hown Hscalar Hentry.
  destruct (new_user_presence_run e x pr now b muc nick rest Hsplit Hnick Hown
              Hscalar Hentry) as (users & evs & Hrun).
  eexists. split; [exact Hrun|].
  assert (Hroom : user_states
                    (with_new_user b muc (presence_user pr nick) pr now users
                       evs) !! muc
                  = Some (MRoom (<[presence_user pr nick
                                   := presence_state pr (PInt (int now))]>
                                   users))).
  { unfold with_new_user. simpl. apply lookup_insert_eq. }
  split; [unfold entry_of; rewrite Hroom; apply lookup_insert_eq|].
  split; [reflexivity|]. split; [reflexivity|]. split; [reflexivity|].
  apply (unchanged_presence_run e x pr now' _ muc nick rest _
           (presence_state pr (PInt (int now))) Hsplit Hnick Hown Hroom);
    [apply lookup_insert_eq|reflexivity|reflexivity|reflexivity].
Qed.

Lemma new_user_presence_is_recorded_once_witness :
  ∃ b1,
    handle_groupchat_presence Scenario.plain_env Scenario.ext
      (Scenario.alice_presence "participant") 100 Scenario.feeds_bot
    = (Ok tt, b1)
    ∧ entry_of (user_states b1) Scenario.room
        (presence_user (Scenario.alice_presence "participant") "alice")
      = Some (presence_state (Scenario.alice_presence "participant")
                (PInt (int 100)))
    ∧ sql b1
      = (_save_user_state (sql Scenario.feeds_bot) Scenario.room
           (presence_user (Scenario.alice_presence "participant") "alice")
           (Some (muc_role (Scenario.alice_presence "participant")))
           (Some (muc_affiliation (Scenario.alice_presence "participant")))
           (Some (pr_type (Scenario.alice_presence "participant")))
           (Some (int 100))).1
    ∧ joined_mucs b1 = joined_mucs Scenario.feeds_bot
    ∧ command_handler b1 = command_handler Scenario.feeds_bot
    ∧ handle_groupchat_presence Scenario.plain_env Scenario.ext
        (Scenario.alice_presence "participant") 200 b1
      = (Ok tt, b1).
Proof.
  apply (new_user_presence_is_recorded_once Scenario.plain_env Scenario.ext
           (Scenario.alice_presence "participant") 100 200 Scenario.feeds_bot
           Scenario.room "alice" []).
  - vm_compute. reflexivity.
  - reflexivity.
  - discriminate.
  - intros s. vm_compute. discriminate.
  - vm_compute. reflexivity.
Defined.

(** *** Leaving a room *)

Lemma mem_true (x : string) (l : list string) : mem x l = true ↔ x ∈ l.
Proof.
  unfold mem. rewrite existsb_exists. split.
  - intros (y & Hy & Heq). apply String.eqb_eq in Heq as ->.
    apply list_elem_of_In. exact Hy.
  - intros H. exists x. split; [apply list_elem_of_In; exact H|].
    apply String.eqb_refl.
Qed.

Lemma mem_false (x : string) (l : list string) : mem x l = false ↔ x ∉ l.
Proof.
  rewrite <- mem_true. destruct (mem x l); split; congruence.
Qed.

Lemma list_remove_NoDup (x : string) (l : list string) :
  NoDup l → (x ∉ list_remove x l) ∧ NoDup (list_remove x l).
Proof.
  induction 1 as [|y l Hy Hl IH]; simpl.
  - split; [intros H; inversion H|constructor].
  - destruct (String.eqb_spec x y) as [->|Hne].
    + split; [exact Hy|exact Hl].
    + destruct IH as [IH1 IH2]. split.
      * intros Hin. apply elem_of_cons in Hin as [Heq|Hin];
          [congruence|exact (IH1 Hin)].
      * constructor; [|exact IH2]. intros Hin. apply Hy.
        clear -Hin. induction l as [|z l IHl]; simpl in Hin;
          [inversion Hin|].
        destruct (String.eqb x z).
        -- apply list_elem_of_further. exact Hin.
        -- apply elem_of_cons in Hin as [->|Hin];
             [apply list_elem_of_here|].
           apply list_elem_of_further. apply IHl. exact Hin.
Qed.

(** [await_join_muc] is the request to the transport followed, when the
    transport answers, by [join_muc] on the history of the answer. *)
Lemma await_join_muc_answered (e : env) (x : externals) (muc : string)
    (nick : option string) (now : Q) (history : list message) (b : Bot) :
  join_muc_wait x muc nick = Ok history →
  await_join_muc e x muc nick now b
  = join_muc e x muc history now (add_trace b [JoinMuc muc nick]).
Proof.
  intros Hanswer.
  unfold await_join_muc, join_muc, _join_muc_with_plugin, try_except.
  unfold bind at 1. unfold bind at 1. unfold emit at 1, modify at 1.
  rewrite Hanswer. reflexivity.
Qed.

(** An exception of the request is logged, and nothing else happens. *)
Lemma await_join_muc_refused (e : env) (x : externals) (muc : string)
    (nick : option string) (now : Q) (exn : string) (b : Bot) :
  join_muc_wait x muc nick = Raise exn →
  await_join_muc e x muc nick now b
  = (Ok tt,
     add_trace (add_trace b [JoinMuc muc nick])
       [LogError ("Error joining MUC " +:+ muc +:+ ": " +:+ exn)]).
Proof.
  intros Hanswer.
  unfold await_join_muc, _join_muc_with_plugin, try_except.
  unfold bind at 1. unfold bind at 1. unfold emit at 1, modify at 1.
  rewrite Hanswer. reflexivity.
Qed.

(** With [auto_rejoin] and a transport that answers with a history free
    of corrections, the room is on the list again when the handler of the
    bot's own [unavailable] presence returns, every message of the
    history is stored, and the mirror is as before. *)
Lemma own_unavailable_rejoins (e : env) (x : externals) (pr : presence)
    (now : Q) (b : Bot) (muc nick : string) (rest : list string)
    (history : list message) :
  split_on "/" (pr_from pr) = muc :: nick :: rest →
  muc_jid pr = Some (boundjid_bare e) →
  pr_type pr = "unavailable" →
  default false (muc_flag (mucs e) muc "auto_rejoin") = true →
  join_muc_wait x muc
    (match mucs e !! "nick" with
     | Some _ => None
     | None => Some (bot_nick e)
     end) = Ok history →
  Forall (λ m, replace_id m = None) history →
  ∃ b1,
    handle_groupchat_presence e x pr now b = (Ok tt, b1)
    ∧ mem muc (joined_mucs b1) = true
    ∧ Forall (λ m, is_Some (get_history_message (sql b1) muc (id m))) history
    ∧ user_states b1 = user_states b.
Proof.
  intros Hsplit Hjid Htype Hauto Hanswer Hall.
  unfold handle_groupchat_presence, try_except, presence_body.
  rewrite Hsplit, Hjid, String.eqb_refl. unfold own_presence.
  rewrite Htype, String.eqb_refl, Hauto.
  unfold bind at 1. unfold modify at 1.
  rewrite (await_join_muc_answered e x muc _ now history _ Hanswer).
  match goal with
  | |- context [join_muc e x muc history now ?b0] => set (b' := b0)
  end.
  assert (Hus : user_states b' = user_states b).
  { subst b'. destruct (mem muc (joined_mucs b)); reflexivity. }
  destruct (process_plain_history e x muc now history b' Hall)
    as (d1 & Hrun & Hseen & _).
  unfold join_muc, try_except, bind. rewrite Hrun.
  unfold _add_muc_to_joined_list, modify. cbn [joined_mucs set_sql].
  assert (Hstored : Forall (λ m, is_Some (get_history_message d1 muc (id m)))
                      history).
  { eapply Forall_impl; [exact Hseen|]. intros m Hm.
    apply get_history_message_is_Some. exact Hm. }
  destruct (mem muc (joined_mucs b')) eqn:Hjoined; eexists;
    (split; [reflexivity|]).
  - split; [exact Hjoined|]. split; [exact Hstored|exact Hus].
  - split; [|split; [exact Hstored|exact Hus]].
    cbn [joined_mucs set_joined_mucs set_sql]. unfold mem.
    rewrite existsb_app. simpl.
    rewrite String.eqb_refl, orb_true_r. reflexivity.
Qed.

(** X23: When the bot gets its own presence of type [unavailable] for a
    room whose options do not ask for [auto_rejoin], the room leaves the
    list of joined rooms (which holds no room twice), the store and the
    mirror are as before, and a later message of that room that is not a
    correction changes nothing. *)
Theorem leaving_a_room_mutes_it (e : env) (x : externals) (pr : presence)
    (msg : message) (now now' : Q) (b : Bot) (muc nick : string)
    (rest : list string) :
  split_on "/" (pr_from pr) = muc :: nick :: rest →
  muc_jid pr = Some (boundjid_bare e) →
  pr_type pr = "unavailable" →
  default false (muc_flag (mucs e) muc "auto_rejoin") = false →
  NoDup (joined_mucs b) →
  mucroom msg = muc →
  truthy_ostr (replace_id msg) = false →
  ∃ b1,
    handle_groupchat_presence e x pr now b = (Ok tt, b1)
    ∧ mem muc (joined_mucs b1) = false
    ∧ NoDup (joined_mucs b1)
    ∧ sql b1 = sql b
    ∧ user_states b1 = user_states b
    ∧ Bot.handle_groupchat_message e x msg now' b1 = (Ok tt, b1).
Proof.
  intros Hsplit Hjid Htype Hauto Hnodup Hmuc Hrep.
  assert (Hrun : ∃ b1,
            handle_groupchat_presence e x pr now b = (Ok tt, b1)
            ∧ mem muc (joined_mucs b1) = false
            ∧ NoDup (joined_mucs b1)
            ∧ sql b1 = sql b
            ∧ user_states b1 = user_states b).
  { unfold handle_groupchat_presence, try_except, presence_body.
    rewrite Hsplit, Hjid, String.eqb_refl. unfold own_presence.
    rewrite Htype, String.eqb_refl, Hauto.
    unfold bind, modify, ret. cbv beta iota.
    destruct (list_remove_NoDup muc (joined_mucs b) Hnodup) as [Hout Hnd].
    destruct (mem muc (joined_mucs b)) eqn:Hmem;
      eexists; (split; [reflexivity|]);
      cbn [joined_mucs sql user_states add_trace set_joined_mucs];
      (split; [first [exact Hmem | apply mem_false; exact Hout]|]);
      (split; [first [exact Hnodup | exact Hnd]|]);
      split; reflexivity. }
  destruct Hrun as (b1 & Hrun & Hmem & Hnd & Hsql & Hus).
  exists b1. repeat (split; [assumption|]).
  unfold Bot.handle_groupchat_message, _should_ignore_groupchat_message.
  unfold bind, read.
  assert (Hcorr : _handle_correction x msg true now' b1 = (Ok false, b1)).
  { unfold _handle_correction. destruct (replace_id msg) as [rid|];
      [|reflexivity]. simpl in Hrep. rewrite Hrep. reflexivity. }
  rewrite Hcorr. unfold ret. rewrite Hmuc, Hmem. reflexivity.
Qed.

Lemma leaving_a_room_mutes_it_witness :
  ∃ b1,
    handle_groupchat_presence Scenario.plain_env Scenario.ext
      Scenario.own_unavailable 100 Scenario.feeds_bot = (Ok tt, b1)
    ∧ mem Scenario.room (joined_mucs b1) = false
    ∧ NoDup (joined_mucs b1)
    ∧ sql b1 = sql Scenario.feeds_bot
    ∧ user_states b1 = user_states Scenario.feeds_bot
    ∧ Bot.handle_groupchat_message Scenario.plain_env Scenario.ext
        (Scenario.text_message "alice" "m1" ".ping") 200 b1 = (Ok tt, b1).
Proof.
  apply (leaving_a_room_mutes_it Scenario.plain_env Scenario.ext
           Scenario.own_unavailable (Scenario.text_message "alice" "m1" ".ping")
           100 200 Scenario.feeds_bot Scenario.room "Nokotan" []).
  - vm_compute. reflexivity.
  - reflexivity.
  - reflexivity.
  - vm_compute. reflexivity.
  - apply NoDup_singleton.
  - reflexivity.
  - reflexivity.
Defined.

(** ** The ignore list *)

Lemma append_new_elem (l names : list string) (n : string) :
  n ∈ fold_left (λ acc nick, if mem nick acc then acc else acc ++ [nick])
        names l
  ↔ n ∈ l ∨ n ∈ names.
Proof.
  revert l. induction names as [|x names IH]; intros l; cbn [fold_left].
  - split; [intros H; left; exact H|intros [H|H]; [exact H|inversion H]].
  - rewrite IH. destruct (mem x l) eqn:Hx.
    + apply mem_true in Hx. split.
      * intros [H|H]; [left; exact H|right; apply list_elem_of_further, H].
      * intros [H|H]; [left; exact H|].
        apply elem_of_cons in H as [->|H]; [left; exact Hx|right; exact H].
    + split.
      * intros [H|H].
        -- apply elem_of_app in H as [H|H]; [left; exact H|].
           apply list_elem_of_singleton in H as ->. right.
           apply list_elem_of_here.
        -- right. apply list_elem_of_further, H.
      * intros [H|H].
        -- left. apply elem_of_app. left. exact H.
        -- apply elem_of_cons in H as [->|H].
           ++ left. apply elem_of_app. right. apply list_elem_of_here.
           ++ right. exact H.
Qed.

Lemma append_new_NoDup (l names : list string) :
  NoDup l →
  NoDup (fold_left (λ acc nick, if mem nick acc then acc else acc ++ [nick])
           names l).
Proof.
  revert l. induction names as [|x names IH]; intros l Hl; cbn [fold_left];
    [exact Hl|].
  apply IH. destruct (mem x l) eqn:Hx; [exact Hl|].
  apply mem_false in Hx. apply NoDup_app. split; [exact Hl|].
  split; [|apply NoDup_singleton].
  intros y Hy Hy'. apply list_elem_of_singleton in Hy' as ->. exact (Hx Hy).
Qed.

Lemma load_ignores_elem (ignored : list string) (d : db) (n : string) :
  n ∈ _load_ignores ignored d
  ↔ n ∈ ignored ∨ is_Some (get_all_keys d "bot_ignore" !! n).
Proof.
  unfold _load_ignores. rewrite append_new_elem.
  enough (H : n ∈ map fst (map_to_list (get_all_keys d "bot_ignore"))
              ↔ is_Some (get_all_keys d "bot_ignore" !! n)) by (rewrite H; reflexivity).
  split.
  - intros Hin. apply list_elem_of_In, in_map_iff in Hin as ([k v] & <- & Hin).
    apply list_elem_of_In, elem_of_map_to_list in Hin. eexists. exact Hin.
  - intros [v Hv]. apply list_elem_of_In, in_map_iff. exists (n, v).
    split; [reflexivity|]. apply list_elem_of_In, elem_of_map_to_list.
    exact Hv.
Qed.

(** X24: After [add_ignore] the nickname is on the list, the nicknames
    that were on it still are, the list has no nickname twice if it had
    none, the administrator is recorded as [get_ignore_admin] reads it (a
    missing one as the text [None]), and [_load_ignores], from any list,
    finds the nickname in the store. *)
Theorem ignore_survives_restart (ignored ignored0 : list string) (d : db)
    (nick : string) (admin : option string) :
  let added := add_ignore ignored d nick admin in
  nick ∈ added.1
  ∧ (∀ n, n ∈ ignored → n ∈ added.1)
  ∧ (NoDup ignored → NoDup added.1)
  ∧ get_ignore_admin added.2 nick = Some (fmt admin)
  ∧ nick ∈ _load_ignores ignored0 added.2
  ∧ (NoDup ignored0 → NoDup (_load_ignores ignored0 added.2)).
Proof.
  intros added. subst added. unfold add_ignore. simpl.
  split; [|split; [|split; [|split; [|split]]]];
    [| | | | |intros Hnd; apply append_new_NoDup; exact Hnd].
  - destruct (mem nick ignored) eqn:Hm; [apply mem_true; exact Hm|].
    apply elem_of_app. right. apply list_elem_of_here.
  - intros n Hn. destruct (mem nick ignored); [exact Hn|].
    apply elem_of_app. left. exact Hn.
  - intros Hnd. destruct (mem nick ignored) eqn:Hm; [exact Hnd|].
    apply mem_false in Hm. apply NoDup_app. split; [exact Hnd|].
    split; [|apply NoDup_singleton].
    intros y Hy Hy'. apply list_elem_of_singleton in Hy' as ->. exact (Hm Hy).
  - unfold get_ignore_admin. rewrite get_set_eq. destruct admin; reflexivity.
  - apply load_ignores_elem. right. rewrite get_all_keys_lookup.
    rewrite decide_False; [eexists; reflexivity|].
    intros Hempty.
    pose proof (get_all_fields_lookup
                  (set d "bot_ignore" nick "admin" (opt_val admin))
                  "bot_ignore" nick "admin") as Hl.
    rewrite Hempty, lookup_empty, get_set_eq in Hl. discriminate.
Qed.

(** X25: After [remove_ignore], when the list held no nickname twice and
    the key of the nickname holds nothing but the administrator, the
    nickname is off the list, [get_ignore_admin] finds nothing, and
    [_load_ignores] from the empty list does not bring it back. *)
Theorem removed_ignore_is_gone (ignored : list string) (d : db)
    (nick : string) :
  NoDup ignored →
  (∀ f, f ≠ "admin" → get d "bot_ignore" nick f = None) →
  let removed := remove_ignore ignored d nick in
  (nick ∉ removed.1)
  ∧ NoDup removed.1
  ∧ get_ignore_admin removed.2 nick = None
  ∧ (nick ∉ _load_ignores [] removed.2).
Proof.
  intros Hnd Honly removed. subst removed. unfold remove_ignore. simpl.
  destruct (list_remove_NoDup nick ignored Hnd) as [Hout Hnd'].
  assert (Hrows : ∀ f, get (delete d "bot_ignore" nick (Some "admin"))
                         "bot_ignore" nick f = None).
  { intros f. rewrite get_delete. simpl.
    destruct (decide (f = "admin")) as [->|Hf].
    - rewrite decide_True by done. reflexivity.
    - rewrite decide_False by (intros (_ & _ & H); apply Hf; symmetry;
                               apply H; reflexivity).
      apply Honly. exact Hf. }
  split; [|split; [|split]].
  - destruct (mem nick ignored) eqn:Hm; [exact Hout|apply mem_false; exact Hm].
  - destruct (mem nick ignored); [exact Hnd'|exact Hnd].
  - apply Hrows.
  - intros Hin. apply load_ignores_elem in Hin as [Hin|[v Hv]];
      [inversion Hin|].
    rewrite get_all_keys_lookup in Hv.
    rewrite decide_True in Hv; [discriminate|].
    apply map_eq. intros f. rewrite get_all_fields_lookup, lookup_empty.
    apply Hrows.
Qed.

Lemma removed_ignore_is_gone_witness :
  let removed :=
    remove_ignore (add_ignore ["bob"] ∅ "mallory" (Some "admin@example.org")).1
      (add_ignore ["bob"] ∅ "mallory" (Some "admin@example.org")).2
      "mallory" in
  ("mallory" ∉ removed.1)
  ∧ NoDup removed.1
  ∧ get_ignore_admin removed.2 "mallory" = None
  ∧ ("mallory" ∉ _load_ignores [] removed.2).
Proof.
  apply (removed_ignore_is_gone
           (add_ignore ["bob"] ∅ "mallory" (Some "admin@example.org")).1
           (add_ignore ["bob"] ∅ "mallory" (Some "admin@example.org")).2
           "mallory").
  - vm_compute. repeat constructor; intros H;
      repeat (apply elem_of_cons in H as [H|H]; [discriminate|]);
      inversion H.
  - intros f Hf. unfold add_ignore. simpl. rewrite get_set.
    rewrite decide_False by (intros (_ & _ & ?); congruence). reflexivity.
Defined.

(** ** The name of an uploaded file *)

Lemma string_of_list_ascii_length (l : list ascii) :
  String.length (String.string_of_list_ascii l) = length l.
Proof. induction l as [|a l IH]; simpl; [reflexivity|]. rewrite IH. reflexivity. Qed.

Lemma slice_to_length (n : nat) (s : string) :
  String.length (slice_to n s) = Nat.min n (String.length s).
Proof.
  unfold slice_to. rewrite string_of_list_ascii_length, length_take.
  rewrite list_ascii_length. reflexivity.
Qed.

Lemma split_on_go_nonempty (sep : ascii) (cur l : list ascii) :
  split_on_go sep cur l ≠ [].
Proof.
  revert cur. induction l as [|c l IH]; intros cur; simpl; [discriminate|].
  destruct (Ascii.eqb c sep); [discriminate|apply IH].
Qed.

Lemma join_with_cons (sep a : string) (l : list string) :
  l ≠ [] → join_with sep (a :: l) = a +:+ sep +:+ join_with sep l.
Proof. destruct l; [congruence|reflexivity]. Qed.

Lemma string_app_assoc (s t u : string) : (s +:+ t) +:+ u = s +:+ t +:+ u.
Proof.
  induction s as [|a s IH]; [reflexivity|].
  change (String a ((s +:+ t) +:+ u) = String a (s +:+ t +:+ u)).
  f_equal. exact IH.
Qed.

Lemma join_with_split_on_go (sep : ascii) (cur l : list ascii) :
  join_with (String sep "") (split_on_go sep cur l)
  = String.string_of_list_ascii (rev cur ++ l).
Proof.
  revert cur. induction l as [|c l IH]; intros cur; simpl.
  - rewrite app_nil_r. reflexivity.
  - destruct (Ascii.eqb_spec c sep) as [->|Hne].
    + rewrite join_with_cons by apply split_on_go_nonempty.
      rewrite IH. simpl. rewrite string_of_list_ascii_app. reflexivity.
    + rewrite IH. simpl. rewrite <- app_assoc. reflexivity.
Qed.

Lemma join_with_split_on (sep : ascii) (s : string) :
  join_with (String sep "") (split_on sep s) = s.
Proof.
  unfold split_on. rewrite join_with_split_on_go. simpl.
  apply String.string_of_list_ascii_of_string.
Qed.

Lemma join_with_snoc (sep : string) (l : list string) (x : string) :
  l ≠ [] → join_with sep (l ++ [x]) = join_with sep l +:+ sep +:+ x.
Proof.
  induction l as [|a l IH]; intros Hl; [congruence|].
  destruct l as [|b l].
  - reflexivity.
  - change ((a :: b :: l) ++ [x]) with (a :: (b :: l) ++ [x]).
    rewrite (join_with_cons sep a ((b :: l) ++ [x])) by (simpl; discriminate).
    rewrite IH by discriminate.
    rewrite (join_with_cons sep a (b :: l)) by discriminate.
    rewrite !string_app_assoc. reflexivity.
Qed.

Lemma prefix_app (s t : string) : String.prefix s (s +:+ t) = true.
Proof.
  induction s as [|a s IH]; simpl; [destruct t; reflexivity|].
  destruct (Ascii.ascii_dec a a); [exact IH|congruence].
Qed.

(** A name with a dot is its stem, a dot and its extension. *)
Lemma name_stem_and_extension (file_name : string) :
  length (split_on "." file_name) ≠ 1 →
  file_name
  = join_with "." (removelast (split_on "." file_name))
    +:+ "." +:+ List.last (split_on "." file_name) "".
Proof.
  intros Hlen.
  pose proof (join_with_split_on "." file_name) as Hjoin.
  assert (Hne : split_on "." file_name ≠ [])
    by apply split_on_go_nonempty.
  rewrite (app_removelast_last "" Hne) in Hjoin at 1.
  rewrite join_with_snoc in Hjoin.
  - symmetry. exact Hjoin.
  - intros Hnil. apply Hlen.
    rewrite (app_removelast_last "" Hne), Hnil. reflexivity.
Qed.

(** X26: The name [send_file] uploads under has at most 255 characters:
    a name of at most 255 characters is kept, a longer one is cut to exactly
    255, and a name with a dot keeps its extension behind a stem that starts
    the name.  The only failure is the [ValueError] of an extension of 255
    characters or more. *)
Theorem uploaded_name_fits (file_name : string) :
  match send_file_name file_name with
  | Ok name =>
      String.length name = Nat.min 255 (String.length file_name)
      ∧ (String.length file_name ≤ 255 → name = file_name)
      ∧ (length (split_on "." file_name) ≠ 1 →
         ∃ stem, name = stem +:+ "." +:+ List.last (split_on "." file_name) ""
                 ∧ String.prefix stem file_name = true)
  | Raise exn =>
      exn = "ValueError"
      ∧ 255 ≤ String.length (List.last (split_on "." file_name) "")
  end.
Proof.
  unfold send_file_name.
  destruct (Nat.ltb_spec 255 (String.length file_name)) as [Hlong|Hshort].
  - destruct (Nat.eqb_spec (length (split_on "." file_name)) 1) as [H1|Hparts].
    + rewrite slice_to_length. split; [reflexivity|].
      split; [lia|]. intros Hne. congruence.
    + pose proof (name_stem_and_extension file_name Hparts) as Hname.
      set (base := join_with "." (removelast (split_on "." file_name))) in *.
      set (lst := List.last (split_on "." file_name) "") in *.
      assert (Hlen : String.length file_name
                     = String.length base + String.length ("." +:+ lst)).
      { rewrite Hname at 1. rewrite string_app_length. reflexivity. }
      assert (Hel : String.length ("." +:+ lst) = S (String.length lst))
        by reflexivity.
      destruct (Nat.ltb_spec 255 (String.length ("." +:+ lst))) as [Hext|Hext].
      * split; [reflexivity|]. lia.
      * rewrite string_app_length, slice_to_length.
        split; [lia|]. split; [lia|]. intros _.
        exists (slice_to (255 - String.length ("." +:+ lst)) base).
        split; [reflexivity|].
        rewrite Hname at 1. unfold slice_to.
        rewrite <- (String.string_of_list_ascii_of_string base) at 2.
        rewrite <- (take_drop (255 - String.length ("." +:+ lst))
                      (String.list_ascii_of_string base)) at 2.
        rewrite string_of_list_ascii_app, string_app_assoc.
        apply prefix_app.
  - split; [lia|]. split; [reflexivity|]. intros Hparts.
    exists (join_with "." (removelast (split_on "." file_name))).
    split; [apply name_stem_and_extension; exact Hparts|].
    pose proof (prefix_app
                  (join_with "." (removelast (split_on "." file_name)))
                  ("." +:+ List.last (split_on "." file_name) "")) as Hp.
    rewrite <- (name_stem_and_extension file_name Hparts) in Hp. exact Hp.
Qed.

(** ** The configuration *)

Lemma override_loop (environ : gmap string string)
    (table : list (string * (string * bool))) (config : gmap string Config.json) :
  NoDup (map (λ entry : string * (string * bool), entry.2.1) table) →
  (∀ var key split,
     (var, (key, split)) ∈ table →
     fold_left (Config.override environ) table config !! key
     = match environ !! var with
       | Some value => Some (Config.env_value split value)
       | None => config !! key
       end)
  ∧ (∀ key,
       key ∉ map (λ entry : string * (string * bool), entry.2.1) table →
       fold_left (Config.override environ) table config !! key
       = config !! key).
Proof.
  revert config. induction table as [|[v0 [k0 s0]] table IH];
    intros config Hnd.
  - split; [intros var key split Hin; inversion Hin|reflexivity].
  - simpl in Hnd. apply NoDup_cons in Hnd as [Hk0 Hnd].
    cbn [fold_left].
    destruct (IH (Config.override environ config (v0, (k0, s0))) Hnd)
      as [IHin IHout].
    assert (Hstep : ∀ key, key ≠ k0 →
              Config.override environ config (v0, (k0, s0)) !! key
              = config !! key).
    { intros key Hne. simpl. destruct (environ !! v0); [|reflexivity].
      apply lookup_insert_ne. congruence. }
    split.
    + intros var key split Hin. apply elem_of_cons in Hin as [Heq|Hin].
      * injection Heq as -> -> ->. rewrite (IHout _ Hk0). simpl.
        destruct (environ !! v0); [apply lookup_insert_eq|reflexivity].
      * rewrite (IHin var key split Hin). rewrite Hstep; [reflexivity|].
        intros ->. apply Hk0. apply list_elem_of_fmap.
        exists (var, (k0, split)). split; [reflexivity|exact Hin].
    + intros key Hout. rewrite IHout.
      * apply Hstep. intros ->. apply Hout. simpl. apply list_elem_of_here.
      * intros Hin. apply Hout. simpl. apply list_elem_of_further. exact Hin.
Qed.

Lemma env_var_map_NoDup :
  NoDup (map (λ entry : string * (string * bool), entry.2.1)
           Config.env_var_map).
Proof. apply (bool_decide_unpack _). vm_compute. exact I. Qed.

(** X27: An environment variable of the table of [load_config] that is
    set gives its key its value, whatever the file says: its text, or for a
    list variable the list of its parts between commas. That list is never
    empty, so it is a true value whatever the text is. *)
Theorem environment_overrides_the_file (file : option (gmap string Config.json))
    (environ : gmap string string) (var key value : string) (split : bool) :
  (var, (key, split)) ∈ Config.env_var_map →
  environ !! var = Some value →
  Config.load_config file environ !! key
  = Some (Config.env_value split value)
  ∧ (split = true → Config.truthy_json (Config.env_value split value) = true).
Proof.
  intros Hin Hvar. split.
  - unfold Config.load_config.
    rewrite (proj1 (override_loop environ Config.env_var_map _
                      env_var_map_NoDup) var key split Hin).
    rewrite Hvar. reflexivity.
  - intros ->. unfold Config.env_value, Config.truthy_json.
    unfold split_on.
    pose proof (split_on_go_nonempty "," [] (String.list_ascii_of_string value))
      as Hne.
    destruct (split_on_go "," [] (String.list_ascii_of_string value));
      [congruence|reflexivity].
Qed.

Lemma environment_overrides_the_file_witness :
  Config.load_config
    (Some {[ "show_command_suggestion" := Config.JBool true ]})
    {[ "NOKOTAN_SHOW_SUGGEST" := "false" ]} !! "show_command_suggestion"
  = Some (Config.env_value true "false")
  ∧ (true = true → Config.truthy_json (Config.env_value true "false") = true).
Proof.
  apply (environment_overrides_the_file
           (Some {[ "show_command_suggestion" := Config.JBool true ]})
           {[ "NOKOTAN_SHOW_SUGGEST" := "false" ]}
           "NOKOTAN_SHOW_SUGGEST" "show_command_suggestion" "false" true).
  - unfold Config.env_var_map. do 8 apply list_elem_of_further.
    apply list_elem_of_here.
  - vm_compute. reflexivity.
Defined.

(** X28: A key of the configuration keeps the value of the file (or
    stays missing) unless a variable that the table of [load_config] gives
    to this very key is set: no other variable changes it. *)
Theorem other_variables_leave_the_key (file : option (gmap string Config.json))
    (environ : gmap string string) (key : string) :
  (∀ var split, (var, (key, split)) ∈ Config.env_var_map →
                environ !! var = None) →
  Config.load_config file environ !! key = default ∅ file !! key.
Proof.
  intros Hunset. unfold Config.load_config.
  destruct (override_loop environ Config.env_var_map (default ∅ file)
              env_var_map_NoDup) as [Hin Hout].
  destruct (decide (key ∈ map (λ entry : string * (string * bool), entry.2.1)
                          Config.env_var_map)) as [Hk|Hk].
  - apply list_elem_of_fmap in Hk as ([var [key' split]] & Heq & Hentry).
    simpl in Heq. subst key'.
    rewrite (Hin var key split Hentry), (Hunset var split Hentry).
    reflexivity.
  - apply Hout. exact Hk.
Qed.

Lemma other_variables_leave_the_key_witness :
  Config.load_config
    (Some {[ "global_disabled_plugins"
             := Config.JList [Config.JStr "debug_plugin"] ]})
    {[ "NOKOTAN_DISABLED_PLUGINS" := "feeds" ]} !! "global_disabled_plugins"
  = Some (Config.JList [Config.JStr "debug_plugin"]).
Proof.
  rewrite (other_variables_leave_the_key
             (Some {[ "global_disabled_plugins"
                      := Config.JList [Config.JStr "debug_plugin"] ]})
             {[ "NOKOTAN_DISABLED_PLUGINS" := "feeds" ]}
             "global_disabled_plugins").
  - vm_compute. reflexivity.
  - intros var split Hin. unfold Config.env_var_map in Hin.
    repeat (apply elem_of_cons in Hin as [Hin|Hin];
            [injection Hin as -> ?; try discriminate; vm_compute;
             reflexivity|]).
    inversion Hin.
Defined.

(** ** The JID behind a nickname *)

Lemma split_on_go_head (sep : ascii) (cur l : list ascii) (a : string)
    (rest : list string) :
  split_on_go sep cur l = a :: rest →
  ∃ l1, (sep ∉ l1)
        ∧ a = String.string_of_list_ascii (rev cur ++ l1)
        ∧ (l = l1 ∨ ∃ l2, l = l1 ++ sep :: l2).
Proof.
  revert cur. induction l as [|c l IH]; intros cur H; simpl in H.
  - injection H as <- _. exists []. split; [intros Hin; inversion Hin|].
    split; [rewrite app_nil_r; reflexivity|left; reflexivity].
  - destruct (Ascii.eqb_spec c sep) as [->|Hne].
    + injection H as <- _. exists []. split; [intros Hin; inversion Hin|].
      split; [rewrite app_nil_r; reflexivity|].
      right. exists l. reflexivity.
    + destruct (IH (c :: cur) H) as (l1 & Hno & -> & Hl).
      exists (c :: l1). split.
      * intros Hin. apply elem_of_cons in Hin as [Heq|Hin];
          [congruence|exact (Hno Hin)].
      * split; [simpl; rewrite <- app_assoc; reflexivity|].
        destruct Hl as [->|(l2 & ->)]; [left; reflexivity|].
        right. exists l2. reflexivity.
Qed.

(** X29: When [get_jid_from_nick] finds a JID, the nickname is on the
    roster of the room and the JID is bare: it has no slash, and it is the
    JID that the transport knows, or the part of it before its first slash. *)
Theorem resolved_jid_is_bare (e : env) (muc nick jid : string) :
  get_jid_from_nick e muc nick = Some jid →
  mem nick (roster e muc) = true
  ∧ ("/"%char ∉ String.list_ascii_of_string jid)
  ∧ ∃ jid_with_client,
      jid_property e muc nick = Some jid_with_client
      ∧ (jid_with_client = jid
         ∨ String.prefix (jid +:+ "/") jid_with_client = true).
Proof.
  unfold get_jid_from_nick. intros H.
  destruct (mem nick (roster e muc)); [|discriminate].
  split; [reflexivity|].
  destruct (jid_property e muc nick) as [full|]; [|discriminate].
  unfold split_on in H.
  destruct (split_on_go "/" [] (String.list_ascii_of_string full))
    as [|a rest] eqn:Hsplit; [discriminate|].
  injection H as ->.
  apply split_on_go_head in Hsplit as (l1 & Hno & -> & Hl).
  simpl. rewrite String.list_ascii_of_string_of_list_ascii.
  split; [exact Hno|]. exists full. split; [reflexivity|].
  rewrite <- (String.string_of_list_ascii_of_string full).
  destruct Hl as [->|(l2 & ->)]; [left; reflexivity|right].
  rewrite string_of_list_ascii_app.
  change (String.string_of_list_ascii ("/"%char :: l2))
    with ("/" +:+ String.string_of_list_ascii l2).
  rewrite <- string_app_assoc. apply prefix_app.
Qed.

Lemma resolved_jid_is_bare_witness :
  mem "alice" (roster Scenario.env_alice_visible Scenario.room) = true
  ∧ ("/"%char ∉ String.list_ascii_of_string "alice@example.org")
  ∧ ∃ jid_with_client,
      jid_property Scenario.env_alice_visible Scenario.room "alice"
      = Some jid_with_client
      ∧ (jid_with_client = "alice@example.org"
         ∨ String.prefix ("alice@example.org" +:+ "/") jid_with_client
           = true).
Proof.
  apply (resolved_jid_is_bare Scenario.env_alice_visible Scenario.room "alice"
           "alice@example.org").
  reflexivity.
Defined.

(** ** The quoted text of a reply *)

(** X30: When [_strip_reply_from_body] finds a quoted text, the text is
    not empty, putting it back into the stripped body at some position gives
    the body of the message, and the lengths add up; when it finds none, the
    body is returned as it is. *)
Theorem stripped_reply_restores_the_body (fallbacks : list fallback)
    (body : string) :
  match _strip_reply_from_body fallbacks body with
  | (stripped, Some quote) =>
      ∃ start,
        slice_to start stripped +:+ quote +:+ slice_from start stripped
        = body
        ∧ quote ≠ ""
        ∧ String.length stripped + String.length quote = String.length body
  | (stripped, None) => stripped = body
  end.
Proof.
  unfold _strip_reply_from_body.
  destruct (find _ fallbacks) as [fb|]; [|reflexivity].
  destruct ((0 <=? fb_start fb)%Z && (fb_start fb <? fb_end fb)%Z
            && (fb_end fb <=? Z.of_nat (String.length body))%Z) eqn:Hrange;
    [|reflexivity].
  apply andb_true_iff in Hrange as [Hrange Hend].
  apply andb_true_iff in Hrange as [Hstart Hlt].
  apply Z.leb_le in Hstart, Hend. apply Z.ltb_lt in Hlt.
  set (a := Z.to_nat (fb_start fb)). set (b := Z.to_nat (fb_end fb)).
  assert (Hab : a < b ≤ String.length body) by lia.
  clearbody a b. clear Hstart Hend Hlt.
  rewrite <- list_ascii_length in Hab.
  exists a. unfold slice_to, slice, slice_from.
  set (l := String.list_ascii_of_string body) in *.
  assert (Hstripped :
    String.list_ascii_of_string
      (String.string_of_list_ascii (take a l)
       +:+ String.string_of_list_ascii (drop b l))
    = take a l ++ drop b l).
  { rewrite list_ascii_of_string_app,
      !String.list_ascii_of_string_of_list_ascii. reflexivity. }
  rewrite Hstripped.
  assert (Hta : take a (take a l ++ drop b l) = take a l).
  { rewrite take_app_le by (rewrite length_take; lia).
    apply take_ge. rewrite length_take. lia. }
  assert (Hda : drop a (take a l ++ drop b l) = drop b l).
  { rewrite drop_app_ge by (rewrite length_take; lia).
    rewrite length_take. replace (a - a `min` length l) with 0 by lia.
    reflexivity. }
  rewrite Hta, Hda. split; [|split].
  - rewrite <- !string_of_list_ascii_app.
    rewrite <- (String.string_of_list_ascii_of_string body). fold l.
    f_equal.
    rewrite <- (take_drop a l) at 4.
    f_equal. rewrite <- (take_drop (b - a) (drop a l)) at 2.
    f_equal. rewrite drop_drop. f_equal. lia.
  - intros Hempty. apply (f_equal String.length) in Hempty.
    rewrite string_of_list_ascii_length, length_take, length_drop in Hempty.
    simpl in Hempty. lia.
  - rewrite string_app_length, !string_of_list_ascii_length.
    rewrite !length_take, !length_drop. unfold l in *.
    rewrite list_ascii_length in *. lia.
Qed.
